(** * Shirusia activity logger: the session tracker, its JSON log and the
      Slack filter, verified against [main.go] (ver3)

    The development embeds the Go program of ver3 shallowly; ver2.1 has the
    same classifier, tracker and writer, without the Slack part.  Go strings are byte
    sequences, so they are [string] (lists of [ascii] bytes); [int64] and
    [time.Duration] are [Z] with their wrap-around and saturation written
    out; the poll loop is a state-passing function over the events it
    receives; the log file is the byte string that reached the disk. *)

From Stdlib Require Import ZArith Lia List String Ascii Bool.
From Stdlib Require Import DecimalString DecimalZ DecimalPos.
From stdpp Require Import gmap strings.
Import ListNotations.

Local Open Scope string_scope.
Local Open Scope Z_scope.

(** ** Go's [strings] package, as far as the program uses it *)

Module GoStrings.

Definition byteVal (c : ascii) : N := N_of_ascii c.

(** [c < utf8.RuneSelf] *)
Definition isASCIIByte (c : ascii) : bool := (byteVal c <? 128)%N.

Definition isUpperByte (c : ascii) : bool :=
  ((65 <=? byteVal c) && (byteVal c <=? 90))%N.

(** [c += 'a' - 'A'] on the bytes ['A'..'Z'] *)
Definition lowerByte (c : ascii) : ascii :=
  if isUpperByte c then ascii_of_N (byteVal c + 32) else c.

Fixpoint allASCII (s : string) : bool :=
  match s with
  | EmptyString => true
  | String c s' => isASCIIByte c && allASCII s'
  end.

Fixpoint lowerASCII (s : string) : string :=
  match s with
  | EmptyString => EmptyString
  | String c s' => String (lowerByte c) (lowerASCII s')
  end.

Section ToLower.
(** [strings.Map(unicode.ToLower, s)]: the path [strings.ToLower] takes
    when [s] holds a byte [>= 0x80].  It depends on Go's Unicode tables
    and stays a parameter. *)
Variable unicodeLower : string -> string.

Definition ToLower (s : string) : string :=
  if allASCII s then lowerASCII s else unicodeLower s.
End ToLower.

Definition HasPrefix (s p : string) : bool := String.prefix p s.

(** [strings.Contains(s, substr)]: byte-wise search *)
Fixpoint Contains (s substr : string) : bool :=
  HasPrefix s substr ||
  match s with
  | EmptyString => false
  | String _ s' => Contains s' substr
  end.

(** A string given by its byte values. *)
Definition bytes (l : list N) : string :=
  fold_right (fun n s => String (ascii_of_N n) s) EmptyString l.

Fixpoint strRev (s : string) : string :=
  match s with
  | EmptyString => EmptyString
  | String c s' => strRev s' ++ String c EmptyString
  end.

Fixpoint dropBytes (n : nat) (s : string) : string :=
  match n, s with
  | O, _ => s
  | S _, EmptyString => EmptyString
  | S n', String _ s' => dropBytes n' s'
  end.

Fixpoint takeBytes (n : nat) (s : string) : string :=
  match n, s with
  | O, _ => EmptyString
  | S _, EmptyString => EmptyString
  | S n', String c s' => String c (takeBytes n' s')
  end.

(** [strings.ReplaceAll(s, old, new)] for a one-byte [old], the only way
    the program calls it. *)
Fixpoint ReplaceAllByte (s : string) (old : ascii) (new : string) : string :=
  match s with
  | EmptyString => EmptyString
  | String c s' =>
      if Ascii.eqb c old then new ++ ReplaceAllByte s' old new
      else String c (ReplaceAllByte s' old new)
  end.

(** The UTF-8 encodings of the runes for which [unicode.IsSpace] holds:
    tab, line feed, vertical tab, form feed, carriage return, space,
    U+0085, U+00A0, U+1680, U+2000..U+200A, U+2028, U+2029, U+202F,
    U+205F, U+3000. *)
Definition spaceRunes : list string :=
  map bytes
    [[9]; [10]; [11]; [12]; [13]; [32]; [194; 133]; [194; 160];
     [225; 154; 128];
     [226; 128; 128]; [226; 128; 129]; [226; 128; 130]; [226; 128; 131];
     [226; 128; 132]; [226; 128; 133]; [226; 128; 134]; [226; 128; 135];
     [226; 128; 136]; [226; 128; 137]; [226; 128; 138];
     [226; 128; 168]; [226; 128; 169]; [226; 128; 175]; [226; 129; 159];
     [227; 128; 128]]%N.

(** The rest of [s] after one leading rune out of [runes], if there is one. *)
Fixpoint stripOne (runes : list string) (s : string) : option string :=
  match runes with
  | [] => None
  | r :: runes' =>
      if HasPrefix s r then Some (dropBytes (String.length r) s)
      else stripOne runes' s
  end.

Fixpoint stripMany (fuel : nat) (runes : list string) (s : string) : string :=
  match fuel with
  | O => s
  | S fuel' =>
      match stripOne runes s with
      | Some s' => stripMany fuel' runes s'
      | None => s
      end
  end.

Definition TrimLeftSpace (s : string) : string :=
  stripMany (String.length s) spaceRunes s.

(** Trimming on the right reads the string backwards; a white-space rune
    ends the string exactly when its encoding is a suffix. *)
Definition TrimRightSpace (s : string) : string :=
  strRev (stripMany (String.length s) (map strRev spaceRunes) (strRev s)).

(** [strings.TrimSpace]: its ASCII fast path and its Unicode path
    ([TrimFunc] with [unicode.IsSpace]) strip the same runes. *)
Definition TrimSpace (s : string) : string :=
  TrimRightSpace (TrimLeftSpace s).

End GoStrings.

(** ** The regular expression [\s+] of [spaceRe] *)

Module GoRegexp.

(** The class [\s] of Go's regexp syntax: tab, line feed, form feed,
    carriage return and space. *)
Definition isSpaceClass (c : ascii) : bool :=
  let n := N_of_ascii c in
  ((n =? 9) || (n =? 10) || (n =? 12) || (n =? 13) || (n =? 32))%N.

(** [spaceRe.ReplaceAllString(s, repl)]: every maximal run of [\s] bytes
    becomes one [repl]; [inRun] tells that the byte before was in a run. *)
Fixpoint replaceRuns (inRun : bool) (repl : string) (s : string) : string :=
  match s with
  | EmptyString => EmptyString
  | String c s' =>
      if isSpaceClass c
      then (if inRun then replaceRuns true repl s'
            else repl ++ replaceRuns true repl s')
      else String c (replaceRuns false repl s')
  end.

Definition spaceRe_ReplaceAllString (s repl : string) : string :=
  replaceRuns false repl s.

End GoRegexp.

(** ** The classifier *)

Section Classifier.
Variable unicodeLower : string -> string.

Let ToLower := GoStrings.ToLower unicodeLower.
Let Contains := GoStrings.Contains.

Fixpoint hasAny (s : string) (keys : list string) : bool :=
  match keys with
  | [] => false
  | k :: keys' => if Contains s k then true else hasAny s keys'
  end.

Definition codeExtensions : list string :=
  [".go"; ".py"; ".js"; ".ts"; ".rs"; ".cpp"; ".c"; ".java"; ".rb"; ".kt";
   ".swift"; ".cs"].

Definition docKeywords : list string :=
  ["arxiv"; "qiita"; "stackoverflow"; "docs"; "doc:"; "documentation"; "mdn"].

Definition mediaKeywords : list string :=
  ["youtube"; "netflix"; "twitch"; "spotify"; "music"; "soundcloud"].

Definition classifyActivity (app title : string) : string :=
  let a := ToLower app in
  let t := ToLower title in
  if (a =? "mail")%string || Contains a "outlook" ||
     Contains t "gmail" || Contains t "outlook" || Contains t "yahoo mail"
  then "メールのやり取り"
  else if Contains a "visual studio code" || (a =? "xcode")%string ||
          Contains a "intellij" || Contains a "goland"
  then "プログラムの制作"
  else if existsb (fun ext => Contains t ext) codeExtensions
  then "プログラムの制作"
  else if Contains a "slack" || Contains a "teams" ||
          Contains a "discord" || Contains a "zoom" || Contains a "meet"
  then "コミュニケーション"
  else if Contains a "safari" || Contains a "chrome" ||
          Contains a "arc" || Contains a "firefox" ||
          Contains a "edge" || Contains a "brave" ||
          Contains a "opera" || Contains a "vivaldi"
  then (if hasAny t docKeywords
        then "調査・ドキュメント閲覧"
        else "Webブラウジング")
  else if Contains a "word" || Contains a "pages" || Contains a "notion" ||
          Contains a "obsidian"
  then "ドキュメント編集"
  else if Contains a "excel" || Contains a "numbers" || Contains a "sheets"
  then "表計算・データ整理"
  else if Contains a "powerpoint" || Contains a "keynote"
  then "プレゼン資料作成"
  else if Contains a "finder" || Contains a "path finder"
  then "ファイル操作"
  else if hasAny t mediaKeywords
  then "メディア視聴・再生"
  else "その他".

End Classifier.

(** *** The rules as an ordered table

    The same classifier, read as the specification words it: a closed,
    ordered list of (predicate, category) pairs, the first match wins, and
    one fallback category.  The predicates take the lower-cased inputs. *)

Section RuleTable.
Let Contains := GoStrings.Contains.

Definition mailRule (a t : string) : bool :=
  (a =? "mail")%string || Contains a "outlook" ||
  Contains t "gmail" || Contains t "outlook" || Contains t "yahoo mail".

Definition codingEditorRule (a t : string) : bool :=
  Contains a "visual studio code" || (a =? "xcode")%string ||
  Contains a "intellij" || Contains a "goland".

Definition codeFileRule (a t : string) : bool :=
  existsb (fun ext => Contains t ext) codeExtensions.

Definition communicationRule (a t : string) : bool :=
  Contains a "slack" || Contains a "teams" ||
  Contains a "discord" || Contains a "zoom" || Contains a "meet".

Definition browserRule (a t : string) : bool :=
  Contains a "safari" || Contains a "chrome" ||
  Contains a "arc" || Contains a "firefox" ||
  Contains a "edge" || Contains a "brave" ||
  Contains a "opera" || Contains a "vivaldi".

Definition browserDocsRule (a t : string) : bool :=
  browserRule a t && hasAny t docKeywords.

Definition documentRule (a t : string) : bool :=
  Contains a "word" || Contains a "pages" || Contains a "notion" ||
  Contains a "obsidian".

Definition spreadsheetRule (a t : string) : bool :=
  Contains a "excel" || Contains a "numbers" || Contains a "sheets".

Definition slidesRule (a t : string) : bool :=
  Contains a "powerpoint" || Contains a "keynote".

Definition finderRule (a t : string) : bool :=
  Contains a "finder" || Contains a "path finder".

Definition mediaRule (a t : string) : bool := hasAny t mediaKeywords.

Definition codingCategory : string := "プログラムの制作".
Definition fallbackCategory : string := "その他".

Definition rules : list ((string -> string -> bool) * string) :=
  [(mailRule, "メールのやり取り");
   (codingEditorRule, codingCategory);
   (codeFileRule, codingCategory);
   (communicationRule, "コミュニケーション");
   (browserDocsRule, "調査・ドキュメント閲覧");
   (browserRule, "Webブラウジング");
   (documentRule, "ドキュメント編集");
   (spreadsheetRule, "表計算・データ整理");
   (slidesRule, "プレゼン資料作成");
   (finderRule, "ファイル操作");
   (mediaRule, "メディア視聴・再生")].

Fixpoint firstMatch (rs : list ((string -> string -> bool) * string))
    (a t : string) : string :=
  match rs with
  | [] => fallbackCategory
  | (p, c) :: rs' => if p a t then c else firstMatch rs' a t
  end.

(** The closed set of categories. *)
Definition categories : list string := map snd rules ++ [fallbackCategory].

Definition noRuleMatches (a t : string) : bool :=
  forallb (fun r => negb (fst r a t)) rules.
End RuleTable.

(** Lower-casing that touches the ASCII letters only: what
    [strings.Map(unicode.ToLower, s)] does to text whose other runes have
    no case. *)
Definition lowerCaseless : string -> string := GoStrings.lowerASCII.

(** ** Go's [time] package: instants and durations *)

Module GoTime.

Definition minInt64 : Z := - 2 ^ 63.
Definition maxInt64 : Z := 2 ^ 63 - 1.

(** Two's-complement wrap-around of [int64] arithmetic. *)
Definition wrap64 (z : Z) : Z := (z + 2 ^ 63) mod 2 ^ 64 - 2 ^ 63.

(** [time.Duration] is an [int64] count of nanoseconds. *)
Definition Duration : Type := Z.
Definition Second : Duration := 1000000000.
Definition minDuration : Duration := minInt64.
Definition maxDuration : Duration := maxInt64.

(** An instant: the clock reading that [Time.Sub] compares, in
    nanoseconds (the monotonic reading when both instants carry one, as
    two values of [time.Now()] do, the wall clock otherwise). *)
Record Time := mkTime { nanos : Z }.

Definition zeroTime : Time := mkTime 0.

(** [t.Sub(u)]: the difference computed in [int64], checked by adding it
    back, and saturated when it does not fit. *)
Definition Sub (t u : Time) : Duration :=
  let d := wrap64 (nanos t - nanos u) in
  if nanos u + d =? nanos t then d
  else if nanos t <? nanos u then minDuration
  else maxDuration.

(** [uint64(x)+uint64(x) < uint64(y)] *)
Definition lessThanHalf (x y : Duration) : bool :=
  ((x mod 2 ^ 64) + (x mod 2 ^ 64)) mod 2 ^ 64 <? y mod 2 ^ 64.

(** [d.Round(m)]: to the nearest multiple of [m], halves away from zero,
    saturating on overflow. *)
Definition Round (d m : Duration) : Duration :=
  if m <=? 0 then d
  else
    let r := Z.rem d m in
    if d <? 0 then
      let r := wrap64 (- r) in
      if lessThanHalf r m then wrap64 (d + r)
      else
        let d1 := wrap64 (d - m + r) in
        if d1 <? d then d1 else minDuration
    else
      if lessThanHalf r m then wrap64 (d - r)
      else
        let d1 := wrap64 (d + m - r) in
        if d <? d1 then d1 else maxDuration.

End GoTime.

Export GoTime(Time, mkTime, nanos).

(** ** Data types of the program *)

Module record.
Record t := mk
  { App : string;
    Title : string;
    Activity : string;
    Timestamp : Time }.
End record.

Module session.
Record t := mk
  { Start : string;
    End : string;
    App : string;
    Title : string;
    Activity : string;
    DurationSec : Z }.
End session.

Module messageEntry.
Record t := mk
  { Timestamp : string;
    Source : string;
    Direction : string;
    Title : string;
    Text : string;
    Meta : gmap string string }.
End messageEntry.

(** ** Session utilities *)

Definition changed (prev : option record.t) (cur : record.t) : bool :=
  match prev with
  | None => true
  | Some prev =>
      negb (record.App prev =? record.App cur)%string ||
      negb (record.Title prev =? record.Title cur)%string ||
      negb (record.Activity prev =? record.Activity cur)%string
  end.

Definition clean (s : string) : string :=
  let s := GoStrings.ReplaceAllByte s (ascii_of_N 0) "" in
  let s := GoStrings.ReplaceAllByte s (ascii_of_N 9) " " in
  GoStrings.TrimSpace (GoRegexp.spaceRe_ReplaceAllString s " ").

Section SessionFrom.
(** [t.Format(time.RFC3339)] depends on the time zone database and stays
    a parameter. *)
Variable formatRFC3339 : Time -> string.

Definition sessionFrom (r : record.t) (start end_ : Time) : session.t :=
  let dur := GoTime.Round (GoTime.Sub end_ start) GoTime.Second in
  let dur := if dur <? 0 then 0 else dur in
  {| session.Start := formatRFC3339 start;
     session.End := formatRFC3339 end_;
     session.App := clean (record.App r);
     session.Title := clean (record.Title r);
     session.Activity := clean (record.Activity r);
     session.DurationSec := Z.quot dur GoTime.Second |}.
End SessionFrom.

(** The whole second nearest to a count of nanoseconds, halves upwards. *)
Definition nearestSecond (d : Z) : Z := (d + 500000000) / 1000000000.

(** The largest difference [Duration.Round] can still round: half a second
    below the largest multiple of a second an [int64] holds. *)
Definition roundLimit : Z := 9223372036500000000.

(** A rendering of instants for the examples: the count of nanoseconds. *)
Definition formatNanos (t : Time) : string :=
  NilZero.string_of_int (Z.to_int (nanos t)) ++ "ns".

(** ** Files and the buffered writer

    What the operating system does is not decided by the program.  Every
    call that reaches it takes a [fault] that tells which operation, if
    any, fails during the call. *)

Inductive error :=
| ErrMkdir | ErrCreate | ErrWrite | ErrSync | ErrClose | ErrSample.

Inductive fault :=
| NoFault
| MkdirFault            (* os.MkdirAll fails *)
| CreateFault           (* os.Create fails *)
| WriteFault (n : nat)  (* the file takes only [n] of the bytes handed to it *)
| SyncFault             (* f.Sync fails *)
| CloseFault.           (* f.Close fails *)

Module bufio.

(** A [bufio.Writer] on an [os.File].  [disk] is the content of the file,
    [buf] the bytes accepted and not yet handed to the file, [err] the
    error the writer keeps once a write has failed.  The buffer is taken
    large enough for one record; a smaller one hands the same bytes to
    the file in the same order, in several writes. *)
Record Writer := mk
  { disk : string;
    buf : string;
    err : option error }.

Definition NewWriter (content : string) : Writer :=
  {| disk := content; buf := ""; err := None |}.

(** [w.WriteString(s)] and [w.Write(b)]: refused once an error is kept. *)
Definition WriteString (w : Writer) (s : string) : Writer * option error :=
  match err w with
  | Some e => (w, Some e)
  | None => ({| disk := disk w; buf := buf w ++ s; err := None |}, None)
  end.

(** [w.Flush()]: hands the buffer to the file; a failed or short write
    leaves the rest in the buffer and the error in the writer. *)
Definition Flush (io : fault) (w : Writer) : Writer * option error :=
  match err w with
  | Some e => (w, Some e)
  | None =>
      match buf w with
      | EmptyString => (w, None)
      | _ =>
          match io with
          | WriteFault n =>
              ({| disk := disk w ++ GoStrings.takeBytes n (buf w);
                  buf := GoStrings.dropBytes n (buf w);
                  err := Some ErrWrite |}, Some ErrWrite)
          | _ => ({| disk := disk w ++ buf w; buf := ""; err := None |}, None)
          end
      end
  end.

End bufio.

(** ** The JSON array writer for sessions *)

Module jsonArrayWriter.
Record t := mk
  { path : string;
    w : bufio.Writer;        (* the buffered writer, with the file [f] under it *)
    closed : bool;           (* [f] has been closed *)
    wroteFirst : bool }.
End jsonArrayWriter.

Definition logDir : string := "/Users/kmg2022-40/Desktop/activitylog/log".
Definition messageDir : string := "/Users/kmg2022-40/Desktop/activitylog/Message".

(** The line feed byte. *)
Definition LF : string := String (ascii_of_N 10) "".

(** [filepath.Join(dir, name)] for a clean directory and a plain file name. *)
Definition pathJoin (dir name : string) : string := dir ++ "/" ++ name.

(** [newJSONArrayWriter]: [stamp] is [time.Now().Format("20060102_150405")]. *)
Definition newJSONArrayWriter (stamp : string) (io : fault)
  : jsonArrayWriter.t + error :=
  match io with
  | MkdirFault => inr ErrMkdir
  | CreateFault => inr ErrCreate
  | _ =>
      let name := "activity_" ++ stamp ++ ".json" in
      let path := pathJoin logDir name in
      let w := bufio.NewWriter "" in
      match bufio.WriteString w ("[" ++ LF) with
      | (_, Some e) => inr e
      | (w, None) =>
          match bufio.Flush io w with
          | (_, Some e) => inr e
          | (w, None) =>
              inl {| jsonArrayWriter.path := path;
                     jsonArrayWriter.w := w;
                     jsonArrayWriter.closed := false;
                     jsonArrayWriter.wroteFirst := false |}
          end
      end
  end.

Section Writer.
(** [json.Marshal] of a session; its layout is fixed further down. *)
Variable json_Marshal : session.t -> string.

Definition withWriter (j : jsonArrayWriter.t) (w : bufio.Writer) (first : bool)
  : jsonArrayWriter.t :=
  {| jsonArrayWriter.path := jsonArrayWriter.path j;
     jsonArrayWriter.w := w;
     jsonArrayWriter.closed := jsonArrayWriter.closed j;
     jsonArrayWriter.wroteFirst := first |}.

(** [AppendSession].  [json.Marshal] does not fail on a struct of strings
    and an [int64], so its error branch is never taken. *)
Definition AppendSession (j : jsonArrayWriter.t) (s : session.t) (io : fault)
  : jsonArrayWriter.t * option error :=
  let b := json_Marshal s in
  let sep :=
    if jsonArrayWriter.wroteFirst j
    then bufio.WriteString (jsonArrayWriter.w j) ("," ++ LF)
    else (jsonArrayWriter.w j, None) in
  match sep with
  | (w, Some e) => (withWriter j w (jsonArrayWriter.wroteFirst j), Some e)
  | (w, None) =>
      (* from here on [j.wroteFirst] is true *)
      match bufio.WriteString w b with
      | (w, Some e) => (withWriter j w true, Some e)
      | (w, None) =>
          match bufio.Flush io w with
          | (w, Some e) => (withWriter j w true, Some e)
          | (w, None) =>
              (withWriter j w true,
               match io with SyncFault => Some ErrSync | _ => None end)
          end
      end
  end.

Definition Close (j : jsonArrayWriter.t) (io : fault)
  : jsonArrayWriter.t * option error :=
  match bufio.WriteString (jsonArrayWriter.w j) (LF ++ "]" ++ LF) with
  | (w, Some e) => (withWriter j w (jsonArrayWriter.wroteFirst j), Some e)
  | (w, None) =>
      match bufio.Flush io w with
      | (w, Some e) => (withWriter j w (jsonArrayWriter.wroteFirst j), Some e)
      | (w, None) =>
          ({| jsonArrayWriter.path := jsonArrayWriter.path j;
              jsonArrayWriter.w := w;
              jsonArrayWriter.closed := true;
              jsonArrayWriter.wroteFirst := jsonArrayWriter.wroteFirst j |},
           match io with CloseFault => Some ErrClose | _ => None end)
      end
  end.
End Writer.

(** ** The poll loop of [main]

    The loop selects between the ticker and the signal channel.  It is
    run here on the list of events it receives: a tick comes with what
    [frontmostAppAndTitleWithBrowserTabs] returned, the instant
    [time.Now()] gave, and the fault of the append it may lead to. *)

Inductive output :=
| OutStart (now : Time) (r : record.t)              (* "... | start | ..." *)
| OutEnd (now : Time) (activity : string) (dur : Z) (onExit : bool)
                                                    (* "... | end   | ... | dur=..." *)
| OutWarn (e : error)                               (* "warn: ..." *)
| OutLogError (e : error) (onExit : bool)           (* "log error: ..." *)
| OutCloseError (e : error)                         (* "close error: ..." *)
| OutStopped.                                       (* "Stopped." *)

(** What the loop does to the outside, in the order it does it. *)
Inductive effect :=
| EAppend (s : session.t) (r : option error)   (* [jw.AppendSession(&s)] and its result *)
| EClose (r : option error)                    (* [jw.Close()] and its result *)
| EPrint (l : output).

Inductive event :=
| Tick (sample : string * string + error) (now : Time) (io : fault)
| Signal (now : Time) (io ioClose : fault).

Module loopState.
Record t := mk
  { last : option record.t;
    sessStart : Time;
    jw : jsonArrayWriter.t;
    trace : list effect }.
End loopState.

Section Main.
Variable unicodeLower : string -> string.
Variable formatRFC3339 : Time -> string.
Variable json_Marshal : session.t -> string.

Let classifyActivity := classifyActivity unicodeLower.
Let sessionFrom := sessionFrom formatRFC3339.
Let AppendSession := AppendSession json_Marshal.

Definition initState (jw : jsonArrayWriter.t) : loopState.t :=
  {| loopState.last := None;
     loopState.sessStart := GoTime.zeroTime;
     loopState.jw := jw;
     loopState.trace := [] |}.

(** The line printed after an append. *)
Definition endLine (r : option error) (now : Time) (l : record.t)
    (s : session.t) (onExit : bool) : output :=
  match r with
  | Some e => OutLogError e onExit
  | None => OutEnd now (record.Activity l) (session.DurationSec s) onExit
  end.

(** The case [<-ticker.C]. *)
Definition onTick (st : loopState.t) (sample : string * string + error)
    (now : Time) (io : fault) : loopState.t :=
  match sample with
  | inr e =>
      {| loopState.last := loopState.last st;
         loopState.sessStart := loopState.sessStart st;
         loopState.jw := loopState.jw st;
         loopState.trace := loopState.trace st ++ [EPrint (OutWarn e)] |}
  | inl (app, title) =>
      let activity := classifyActivity app title in
      let cur := {| record.App := app; record.Title := title;
                    record.Activity := activity; record.Timestamp := now |} in
      match loopState.last st with
      | None =>
          {| loopState.last := Some cur;
             loopState.sessStart := now;
             loopState.jw := loopState.jw st;
             loopState.trace := loopState.trace st ++ [EPrint (OutStart now cur)] |}
      | Some l =>
          if changed (Some l) cur then
            let s := sessionFrom l (loopState.sessStart st) now in
            let (jw, r) := AppendSession (loopState.jw st) s io in
            {| loopState.last := Some cur;
               loopState.sessStart := now;
               loopState.jw := jw;
               loopState.trace :=
                 loopState.trace st ++
                 [EAppend s r; EPrint (endLine r now l s false);
                  EPrint (OutStart now cur)] |}
          else st
      end
  end.

(** The case [<-sigCh], up to [break loop]. *)
Definition onSignal (st : loopState.t) (now : Time) (io : fault)
  : loopState.t :=
  match loopState.last st with
  | Some l =>
      let s := sessionFrom l (loopState.sessStart st) now in
      let (jw, r) := AppendSession (loopState.jw st) s io in
      {| loopState.last := loopState.last st;
         loopState.sessStart := loopState.sessStart st;
         loopState.jw := jw;
         loopState.trace :=
           loopState.trace st ++ [EAppend s r; EPrint (endLine r now l s true)] |}
  | None => st
  end.

(** The lines printed after [jw.Close()]. *)
Definition closeLines (r : option error) : list effect :=
  match r with
  | Some e => [EPrint (OutCloseError e); EPrint OutStopped]
  | None => [EPrint OutStopped]
  end.

(** After the loop: [jw.Close()] and the last lines. *)
Definition shutdown (st : loopState.t) (ioClose : fault) : loopState.t :=
  let (jw, r) := Close (loopState.jw st) ioClose in
  {| loopState.last := loopState.last st;
     loopState.sessStart := loopState.sessStart st;
     loopState.jw := jw;
     loopState.trace := loopState.trace st ++ EClose r :: closeLines r |}.

(** The state of the process after the events it has received. *)
Inductive status :=
| Polling (st : loopState.t)   (* still in the loop *)
| Stopped (st : loopState.t).  (* [main] has returned *)

Fixpoint loop (evs : list event) (st : loopState.t) : status :=
  match evs with
  | [] => Polling st
  | Tick sample now io :: evs' => loop evs' (onTick st sample now io)
  | Signal now io ioClose :: _ => Stopped (shutdown (onSignal st now io) ioClose)
  end.

(** [main]: [None] is [os.Exit(1)] when the log cannot be prepared. *)
Definition main (stamp : string) (ioOpen : fault) (evs : list event)
  : option status :=
  match newJSONArrayWriter stamp ioOpen with
  | inr _ => None
  | inl jw => Some (loop evs (initState jw))
  end.

Definition stateOf (s : status) : loopState.t :=
  match s with Polling st | Stopped st => st end.

(** The sessions handed to [AppendSession], in order. *)
Fixpoint appended (tr : list effect) : list session.t :=
  match tr with
  | [] => []
  | EAppend s _ :: tr' => s :: appended tr'
  | _ :: tr' => appended tr'
  end.
End Main.

(** ** The Slack message filter *)

Module MessageEvent.
(** The fields of [slackevents.MessageEvent] the program reads. *)
Record t := mk
  { SubType : string;
    Text : string;
    User : string;
    Channel : string;
    ThreadTimeStamp : string;
    TimeStamp : string }.
End MessageEvent.

Inductive slackOutput :=
| DropSubtype (subtype user channel : string)
| DropEmptyText (user channel : string)
| DebugMsg (user channel ts text : string)
| DropNotSelf (want : string)
| SaveError (e : error).

Inductive slackEffect :=
| ESave (m : messageEntry.t) (r : option error)  (* [saveMessageJSON(m)] and its result *)
| ESlackPrint (l : slackOutput).

Module slackState.
Record t := mk
  { files : gmap string string;   (* the files under [messageDir], by path *)
    strace : list slackEffect }.
End slackState.

Section Slack.
Variable formatRFC3339 : Time -> string.
(** [t.Format("20060102_150405.000")] *)
Variable formatStamp : Time -> string.
(** The bytes [json.Encoder.Encode] writes for a message, with
    [SetEscapeHTML(false)] and [SetIndent("", "  ")]. *)
Variable encodeMessage : messageEntry.t -> string.

(** The [safe] closure of [saveMessageJSON]. *)
Definition safe (s : string) : string :=
  let s := GoStrings.ReplaceAllByte s " "%char "_" in
  let s := GoStrings.ReplaceAllByte s "/"%char "-" in
  let s := GoStrings.ReplaceAllByte s "\"%char "-" in
  s.

Definition messagePath (m : messageEntry.t) (now : Time) : string :=
  pathJoin messageDir
    ("msg_" ++ formatStamp now ++ "_" ++ safe (messageEntry.Title m) ++ ".json").

Definition saveMessageJSON (fs : gmap string string) (m : messageEntry.t)
    (now : Time) (io : fault) : gmap string string * option error :=
  match io with
  | MkdirFault => (fs, Some ErrMkdir)
  | CreateFault => (fs, Some ErrCreate)
  | WriteFault n =>
      (<[messagePath m now := GoStrings.takeBytes n (encodeMessage m)]> fs,
       Some ErrWrite)
  | _ => (<[messagePath m now := encodeMessage m]> fs, None)
  end.

Variable self : string.     (* SLACK_SELF_USER_ID *)
Variable logAll : bool.     (* SLACK_LOG_ALL is "1" *)
Variable debug : bool.      (* SLACK_DEBUG is "1" *)

Definition say (st : slackState.t) (l : list slackEffect) : slackState.t :=
  {| slackState.files := slackState.files st;
     slackState.strace := slackState.strace st ++ l |}.

Definition whenDebug (l : slackOutput) : list slackEffect :=
  if debug then [ESlackPrint l] else [].

(** The case [*slackevents.MessageEvent] of the event handler; [now] is
    the instant of the entry, [now'] the one of the file name. *)
Definition onMessageEvent (st : slackState.t) (ev : MessageEvent.t)
    (now now' : Time) (io : fault) : slackState.t :=
  if negb (MessageEvent.SubType ev =? "")%string then
    say st (whenDebug (DropSubtype (MessageEvent.SubType ev)
                                   (MessageEvent.User ev) (MessageEvent.Channel ev)))
  else if (GoStrings.TrimSpace (MessageEvent.Text ev) =? "")%string then
    say st (whenDebug (DropEmptyText (MessageEvent.User ev) (MessageEvent.Channel ev)))
  else
    let st := say st (whenDebug (DebugMsg (MessageEvent.User ev)
                                          (MessageEvent.Channel ev)
                                          (MessageEvent.TimeStamp ev)
                                          (MessageEvent.Text ev))) in
    if negb logAll && negb (MessageEvent.User ev =? self)%string then
      say st (whenDebug (DropNotSelf self))
    else
      let m :=
        {| messageEntry.Timestamp := formatRFC3339 now;
           messageEntry.Source := "Slack";
           messageEntry.Direction := "sent";
           messageEntry.Title := MessageEvent.Channel ev;
           messageEntry.Text := MessageEvent.Text ev;
           messageEntry.Meta :=
             <["channelId" := MessageEvent.Channel ev]>
             (<["threadTs" := MessageEvent.ThreadTimeStamp ev]>
             (<["userId" := MessageEvent.User ev]>
             (<["ts" := MessageEvent.TimeStamp ev]> ∅))) |} in
      let (fs, r) := saveMessageJSON (slackState.files st) m now' io in
      {| slackState.files := fs;
         slackState.strace :=
           slackState.strace st ++
           ESave m r ::
           match r with
           | Some e => [ESlackPrint (SaveError e)]
           | None => []
           end |}.
End Slack.

(** ** JSON: the text [json.Marshal] writes for a session, and a reader

    The layout of the object follows the struct tags of [session].  How
    [encoding/json] writes a string is a parameter of the layout;
    [quoteBytes] below is that encoding on valid UTF-8 text.  The reader
    is a plain JSON reader for an array of such objects. *)

Module Json.

Definition DQ : string := String (ascii_of_N 34) "".

Definition formatInt (z : Z) : string := NilZero.string_of_int (Z.to_int z).

Section Marshal.
(** The string encoder of [encoding/json], quotes included. *)
Variable quote : string -> string.

Definition key (k : string) : string := DQ ++ k ++ DQ ++ ":".

Definition Marshal (s : session.t) : string :=
  "{" ++ key "start" ++ quote (session.Start s) ++
  "," ++ key "end" ++ quote (session.End s) ++
  "," ++ key "app" ++ quote (session.App s) ++
  "," ++ key "title" ++ quote (session.Title s) ++
  "," ++ key "activity" ++ quote (session.Activity s) ++
  "," ++ key "durationSec" ++ formatInt (session.DurationSec s) ++ "}".
End Marshal.

(** *** Writing a string

    The quote, the backslash and the control bytes are escaped, and so
    are [<], [>] and [&]
    because [json.Marshal] escapes HTML; every other byte is copied. *)

Definition hexDigit (n : N) : ascii :=
  ascii_of_N (if (n <? 10)%N then 48 + n else 87 + n).

Definition escapeByte (c : ascii) : string :=
  let n := N_of_ascii c in
  match n with
  | 34%N => "\" ++ DQ
  | 92%N => "\\"
  | 8%N => "\b"
  | 12%N => "\f"
  | 10%N => "\n"
  | 13%N => "\r"
  | 9%N => "\t"
  | _ =>
      if ((n <? 32) || (n =? 60) || (n =? 62) || (n =? 38))%N
      then "\u00" ++ String (hexDigit (n / 16)) (String (hexDigit (n mod 16)) "")
      else String c ""
  end.

Fixpoint escapeBytes (s : string) : string :=
  match s with
  | EmptyString => EmptyString
  | String c s' => escapeByte c ++ escapeBytes s'
  end.

Definition quoteBytes (s : string) : string := DQ ++ escapeBytes s ++ DQ.

(** *** Reading *)

Definition isWs (c : ascii) : bool :=
  match N_of_ascii c with
  | 32%N | 9%N | 10%N | 13%N => true
  | _ => false
  end.

Fixpoint skipWs (s : string) : string :=
  match s with
  | EmptyString => EmptyString
  | String c s' => if isWs c then skipWs s' else s
  end.

Definition hexVal (c : ascii) : option N :=
  let n := N_of_ascii c in
  if ((48 <=? n) && (n <=? 57))%N then Some (n - 48)%N
  else if ((97 <=? n) && (n <=? 102))%N then Some (n - 87)%N
  else if ((65 <=? n) && (n <=? 70))%N then Some (n - 55)%N
  else None.

Definition hex4 (a b c d : ascii) : option N :=
  match hexVal a, hexVal b, hexVal c, hexVal d with
  | Some x, Some y, Some z, Some t => Some (((x * 16 + y) * 16 + z) * 16 + t)%N
  | _, _, _, _ => None
  end.

(** The UTF-8 bytes of a code point of the basic plane; the reader
    refuses surrogates. *)
Definition utf8 (cp : N) : option string :=
  if (cp <? 128)%N then Some (GoStrings.bytes [cp])
  else if (cp <? 2048)%N then
    Some (GoStrings.bytes [192 + cp / 64; 128 + cp mod 64]%N)
  else if ((55296 <=? cp) && (cp <=? 57343))%N then None
  else
    Some (GoStrings.bytes
            [224 + cp / 4096; 128 + (cp / 64) mod 64; 128 + cp mod 64]%N).

Definition consTo (bs : string) (r : option (string * string))
  : option (string * string) :=
  match r with
  | Some (x, rest) => Some (bs ++ x, rest)
  | None => None
  end.

(** The characters of a string literal after its opening quote: the
    value and what follows the closing quote. *)
Fixpoint readChars (s : string) : option (string * string) :=
  match s with
  | EmptyString => None
  | String c s1 =>
      match N_of_ascii c with
      | 34%N => Some (EmptyString, s1)
      | 92%N =>
          match s1 with
          | EmptyString => None
          | String e s2 =>
              match N_of_ascii e with
              | 34%N => consTo DQ (readChars s2)
              | 92%N => consTo "\" (readChars s2)
              | 47%N => consTo "/" (readChars s2)
              | 98%N => consTo (GoStrings.bytes [8%N]) (readChars s2)
              | 102%N => consTo (GoStrings.bytes [12%N]) (readChars s2)
              | 110%N => consTo (GoStrings.bytes [10%N]) (readChars s2)
              | 114%N => consTo (GoStrings.bytes [13%N]) (readChars s2)
              | 116%N => consTo (GoStrings.bytes [9%N]) (readChars s2)
              | 117%N =>
                  match s2 with
                  | String h1 (String h2 (String h3 (String h4 s6))) =>
                      match hex4 h1 h2 h3 h4 with
                      | Some cp =>
                          match utf8 cp with
                          | Some bs => consTo bs (readChars s6)
                          | None => None
                          end
                      | None => None
                      end
                  | _ => None
                  end
              | _ => None
              end
          end
      | n => if (n <? 32)%N then None
             else consTo (String c EmptyString) (readChars s1)
      end
  end.

Definition readString (s : string) : option (string * string) :=
  match s with
  | String c s1 => if (N_of_ascii c =? 34)%N then readChars s1 else None
  | EmptyString => None
  end.

Definition isNumByte (c : ascii) : bool :=
  let n := N_of_ascii c in ((n =? 45) || (48 <=? n) && (n <=? 57))%N.

Fixpoint allNumBytes (s : string) : bool :=
  match s with
  | EmptyString => true
  | String c s' => isNumByte c && allNumBytes s'
  end.

Fixpoint spanNum (s : string) : string * string :=
  match s with
  | EmptyString => (EmptyString, EmptyString)
  | String c s' =>
      if isNumByte c then let (tok, rest) := spanNum s' in (String c tok, rest)
      else (EmptyString, s)
  end.

Definition readInt (s : string) : option (Z * string) :=
  let (tok, rest) := spanNum s in
  match NilZero.int_of_string tok with
  | Some d => Some (Z.of_int d, rest)
  | None => None
  end.

(** [lit] after optional white space. *)
Definition token (lit : string) (s : string) : option string :=
  let s := skipWs s in
  if GoStrings.HasPrefix s lit
  then Some (GoStrings.dropBytes (String.length lit) s)
  else None.

Definition fieldName (k : string) (s : string) : option string :=
  s ← token (DQ ++ k ++ DQ) s; token ":" s.

Definition stringField (k : string) (s : string) : option (string * string) :=
  s ← fieldName k s; readString (skipWs s).

Definition intField (k : string) (s : string) : option (Z * string) :=
  s ← fieldName k s; readInt (skipWs s).

(** One session object, its members in the order of the struct. *)
Definition readSession (s : string) : option (session.t * string) :=
  s ← token "{" s;
  '(start, s) ← stringField "start" s;
  s ← token "," s;
  '(end_, s) ← stringField "end" s;
  s ← token "," s;
  '(app, s) ← stringField "app" s;
  s ← token "," s;
  '(title, s) ← stringField "title" s;
  s ← token "," s;
  '(activity, s) ← stringField "activity" s;
  s ← token "," s;
  '(dur, s) ← intField "durationSec" s;
  s ← token "}" s;
  Some ({| session.Start := start; session.End := end_; session.App := app;
           session.Title := title; session.Activity := activity;
           session.DurationSec := dur |}, s).

Definition atEnd (s : string) : bool :=
  match skipWs s with EmptyString => true | _ => false end.

(** The members of an array after the first byte of the first one. *)
Fixpoint readElems (fuel : nat) (s : string) : option (list session.t) :=
  match fuel with
  | O => None
  | S fuel' =>
      '(x, rest) ← readSession s;
      match skipWs rest with
      | String c rest' =>
          if (N_of_ascii c =? 44)%N then
            xs ← readElems fuel' rest'; Some (x :: xs)
          else if (N_of_ascii c =? 93)%N then
            (if atEnd rest' then Some [x] else None)
          else None
      | EmptyString => None
      end
  end.

(** A whole file: a JSON array of sessions and nothing else. *)
Definition Unmarshal (content : string) : option (list session.t) :=
  match skipWs content with
  | String c rest =>
      if (N_of_ascii c =? 91)%N then
        match skipWs rest with
        | String c' rest' =>
            if (N_of_ascii c' =? 93)%N
            then (if atEnd rest' then Some [] else None)
            else readElems (String.length rest) (String c' rest')
        | EmptyString => None
        end
      else None
  | EmptyString => None
  end.

End Json.

(** ** Reading a run of the loop *)

(** The samples the loop gets to see: those of the ticks that succeeded,
    up to the first signal. *)
Fixpoint samplesOf (evs : list event) : list (string * string) :=
  match evs with
  | Tick (inl p) _ _ :: evs' => p :: samplesOf evs'
  | Tick (inr _) _ _ :: evs' => samplesOf evs'
  | Signal _ _ _ :: _ => []
  | [] => []
  end.

Fixpoint signalled (evs : list event) : bool :=
  match evs with
  | Tick _ _ _ :: evs' => signalled evs'
  | Signal _ _ _ :: _ => true
  | [] => false
  end.

Definition sameSample (p q : string * string) : bool :=
  (fst p =? fst q)%string && (snd p =? snd q)%string.

(** The number of places where a sample differs from the one before. *)
Fixpoint transitions (l : list (string * string)) : nat :=
  match l with
  | p :: l' =>
      match l' with
      | q :: _ => (if sameSample p q then 0 else 1) + transitions l'
      | [] => 0
      end
  | [] => 0
  end%nat.

(** The record the loop builds from a sample. *)
Definition sampled (unicodeLower : string -> string) (app title : string)
    (now : Time) : record.t :=
  {| record.App := app; record.Title := title;
     record.Activity := classifyActivity unicodeLower app title;
     record.Timestamp := now |}.

(** The open session carries the activity of its own sample. *)
Definition classified (unicodeLower : string -> string) (st : loopState.t) : Prop :=
  forall l, loopState.last st = Some l ->
            record.Activity l =
            classifyActivity unicodeLower (record.App l) (record.Title l).

(** No operation of the operating system fails during these events. *)
Fixpoint faultFree (evs : list event) : bool :=
  match evs with
  | [] => true
  | Tick _ _ io :: evs' =>
      match io with NoFault => faultFree evs' | _ => false end
  | Signal _ io ioClose :: _ =>
      match io, ioClose with NoFault, NoFault => true | _, _ => false end
  end.

(** The sample of the open session, if one is open. *)
Definition openSample (st : loopState.t) : list (string * string) :=
  match loopState.last st with
  | Some l => [(record.App l, record.Title l)]
  | None => []
  end.

(** The record close-now adds: one if a session is open when the signal
    comes. *)
Definition closeNowRecords (l : list (string * string)) (sig : bool) : nat :=
  match l with
  | [] => 0
  | _ :: _ => if sig then 1 else 0
  end%nat.

(** The separator [AppendSession] writes before a record. *)
Definition separator (j : jsonArrayWriter.t) : string :=
  if jsonArrayWriter.wroteFirst j then "," ++ LF else "".

(** The file takes all the bytes handed to it. *)
Definition accepts (io : fault) : bool :=
  match io with WriteFault _ => false | _ => true end.

(** The writer holds no error and no unwritten bytes. *)
Definition healthy (j : jsonArrayWriter.t) : Prop :=
  bufio.err (jsonArrayWriter.w j) = None /\
  bufio.buf (jsonArrayWriter.w j) = "".

Definition diskOf (j : jsonArrayWriter.t) : string :=
  bufio.disk (jsonArrayWriter.w j).

(** ** Reading a run of the Slack handler *)

(** The entries handed to [saveMessageJSON], in order. *)
Fixpoint saved (tr : list slackEffect) : list messageEntry.t :=
  match tr with
  | [] => []
  | ESave m _ :: tr' => m :: saved tr'
  | ESlackPrint _ :: tr' => saved tr'
  end.

(** The entry the handler builds for an event. *)
Definition entryOf (formatRFC3339 : Time -> string) (ev : MessageEvent.t)
    (now : Time) : messageEntry.t :=
  {| messageEntry.Timestamp := formatRFC3339 now;
     messageEntry.Source := "Slack";
     messageEntry.Direction := "sent";
     messageEntry.Title := MessageEvent.Channel ev;
     messageEntry.Text := MessageEvent.Text ev;
     messageEntry.Meta :=
       <["channelId" := MessageEvent.Channel ev]>
       (<["threadTs" := MessageEvent.ThreadTimeStamp ev]>
       (<["userId" := MessageEvent.User ev]>
       (<["ts" := MessageEvent.TimeStamp ev]> ∅))) |}.

(** An event passes the filter. *)
Definition qualifies (self : string) (logAll : bool) (ev : MessageEvent.t) : Prop :=
  MessageEvent.SubType ev = "" /\
  GoStrings.TrimSpace (MessageEvent.Text ev) <> "" /\
  (logAll = true \/ MessageEvent.User ev = self).

(** A dropped event leaves the files as they are and is not saved. *)
Definition dropped (st st' : slackState.t) : Prop :=
  slackState.files st' = slackState.files st /\
  saved (slackState.strace st') = saved (slackState.strace st).

(** Values for the examples. *)
Definition ownMessage : MessageEvent.t :=
  {| MessageEvent.SubType := ""; MessageEvent.Text := "deploy done";
     MessageEvent.User := "U123"; MessageEvent.Channel := "C42/ops";
     MessageEvent.ThreadTimeStamp := ""; MessageEvent.TimeStamp := "1700000000.000100" |}.

Definition noFiles : slackState.t :=
  {| slackState.files := ∅; slackState.strace := [] |}.

(** A stand-in for the encoder in the examples: the text alone. *)
Definition textOnly (m : messageEntry.t) : string := messageEntry.Text m.

(** ** Reading the log back *)

(** The string encoder writes [x] so that the reader gives [x] back,
    whatever follows. *)
Definition readsBack (quote : string -> string) (x : string) : Prop :=
  forall rest, Json.readString (quote x ++ rest) = Some (x, rest).

Definition sessionReadsBack (quote : string -> string) (s : session.t) : Prop :=
  readsBack quote (session.Start s) /\
  readsBack quote (session.End s) /\
  readsBack quote (session.App s) /\
  readsBack quote (session.Title s) /\
  readsBack quote (session.Activity s).

(** Appending records one after the other while the file takes the bytes. *)
Definition appendAll (json_Marshal : session.t -> string)
    (j : jsonArrayWriter.t) (rs : list session.t) : jsonArrayWriter.t :=
  fold_left (fun j s => fst (AppendSession json_Marshal j s NoFault)) rs j.

(** The records of a file, between the opening and the closing token. *)
Definition fileBody (json_Marshal : session.t -> string) (rs : list session.t)
  : string :=
  String.concat ("," ++ LF) (map json_Marshal rs).

(** The closing token [Close] writes. *)
Definition closingToken : string := LF ++ "]" ++ LF.

(** The separator before a record that comes after the records [before]. *)
Definition separatorAfter (before : list session.t) : string :=
  match before with
  | [] => ""
  | _ :: _ => "," ++ LF
  end.

(** The file of the loop holds the opening token and the records handed
    to the writer so far. *)
Definition inStep (json_Marshal : session.t -> string) (st : loopState.t) : Prop :=
  healthy (loopState.jw st) /\
  diskOf (loopState.jw st) =
    "[" ++ LF ++ fileBody json_Marshal (appended (loopState.trace st)) /\
  jsonArrayWriter.wroteFirst (loopState.jw st) =
    match appended (loopState.trace st) with [] => false | _ :: _ => true end.

(** [json.Marshal] on sessions whose text is valid UTF-8. *)
Definition marshalBytes : session.t -> string := Json.Marshal Json.quoteBytes.

(** Values for the examples. *)
Definition editorRecord : record.t :=
  {| record.App := "Editor"; record.Title := "main.go  - proj";
     record.Activity := "プログラムの制作"; record.Timestamp := mkTime 0 |}.

Definition freshWriter : jsonArrayWriter.t :=
  {| jsonArrayWriter.path := pathJoin logDir "activity_20240101_000000.json";
     jsonArrayWriter.w := bufio.NewWriter ("[" ++ LF);
     jsonArrayWriter.closed := false;
     jsonArrayWriter.wroteFirst := false |}.

Definition browserSample : string * string := ("Browser", "github.com/foo").

(** The scenario of the specification: the editor at 0 s and 1.5 s, the
    browser at 3 s. *)
Definition editorThenBrowser : list event :=
  [Tick (inl ("Editor", "main.go - proj")) (mkTime 0) NoFault;
   Tick (inl ("Editor", "main.go - proj")) (mkTime 1500000000) NoFault;
   Tick (inl browserSample) (mkTime 3000000000) NoFault].

Definition editorOpen : loopState.t :=
  {| loopState.last := Some editorRecord;
     loopState.sessStart := mkTime 0;
     loopState.jw := freshWriter;
     loopState.trace := [] |}.

(** ** More of the program: what a cleaned string looks like *)

Fixpoint allBytes (P : ascii -> bool) (s : string) : bool :=
  match s with
  | EmptyString => true
  | String c s' => P c && allBytes P s'
  end.

(** Every byte of the class [\s] is a space and no two of them are
    adjacent; [afterSpace] tells that the byte before was one. *)
Fixpoint singleSpaces (afterSpace : bool) (s : string) : bool :=
  match s with
  | EmptyString => true
  | String c s' =>
      if GoRegexp.isSpaceClass c
      then Ascii.eqb c " " && negb afterSpace && singleSpaces true s'
      else singleSpaces false s'
  end.

(** No white-space rune at the front, none at the end. *)
Definition trimmed (s : string) : Prop :=
  GoStrings.stripOne GoStrings.spaceRunes s = None /\
  GoStrings.stripOne (map GoStrings.strRev GoStrings.spaceRunes)
    (GoStrings.strRev s) = None.

Definition notByte (n : N) (c : ascii) : bool := negb (N_of_ascii c =? n)%N.

(** Not a NUL byte, a tab, a line feed, a form feed or a carriage return. *)
Definition plainByte (c : ascii) : bool :=
  notByte 0 c && notByte 9 c && notByte 10 c && notByte 12 c && notByte 13 c.

(** ** More of the program: reading the trace of the loop *)

(** Each record starts where the one before ended. *)
Fixpoint tiled (l : list session.t) : Prop :=
  match l with
  | s :: l' =>
      match l' with
      | s' :: _ => session.End s = session.Start s' /\ tiled l'
      | [] => True
      end
  | [] => True
  end.

(** The end of the last record. *)
Fixpoint lastEnd (l : list session.t) : option string :=
  match l with
  | [] => None
  | s :: l' => match l' with [] => Some (session.End s) | _ :: _ => lastEnd l' end
  end.

(** The events without the ticks whose sample failed. *)
Fixpoint dropFailed (evs : list event) : list event :=
  match evs with
  | [] => []
  | Tick (inr _) _ _ :: evs' => dropFailed evs'
  | ev :: evs' => ev :: dropFailed evs'
  end.

(** The calls to the writer in a trace, without the printed lines. *)
Fixpoint calls (tr : list effect) : list effect :=
  match tr with
  | [] => []
  | EPrint _ :: tr' => calls tr'
  | e :: tr' => e :: calls tr'
  end.

(** The number of calls to [Close]. *)
Fixpoint closes (tr : list effect) : nat :=
  match tr with
  | [] => 0
  | EClose _ :: tr' => S (closes tr')
  | _ :: tr' => closes tr'
  end.

(** The results of the calls to [AppendSession]. *)
Fixpoint appendResults (tr : list effect) : list (option error) :=
  match tr with
  | [] => []
  | EAppend _ r :: tr' => r :: appendResults tr'
  | _ :: tr' => appendResults tr'
  end.

(** Appending records one after the other, each under its own fault. *)
Fixpoint appendEach (json_Marshal : session.t -> string)
    (j : jsonArrayWriter.t) (rs : list (session.t * fault))
  : jsonArrayWriter.t * list (option error) :=
  match rs with
  | [] => (j, [])
  | (s, io) :: rs' =>
      let (j', r) := AppendSession json_Marshal j s io in
      let (j'', out) := appendEach json_Marshal j' rs' in
      (j'', r :: out)
  end.

(** What the loop keeps: the records tile, no record without an open
    session, and the last record ends where the open session starts. *)
Definition tilingOf (formatRFC3339 : Time -> string) (st : loopState.t) : Prop :=
  tiled (appended (loopState.trace st)) /\
  match loopState.last st with
  | None => appended (loopState.trace st) = []
  | Some _ =>
      forall e, lastEnd (appended (loopState.trace st)) = Some e ->
                e = formatRFC3339 (loopState.sessStart st)
  end.

(** Two states that differ in the printed lines only. *)
Definition alike (st st' : loopState.t) : Prop :=
  loopState.last st = loopState.last st' /\
  loopState.sessStart st = loopState.sessStart st' /\
  loopState.jw st = loopState.jw st' /\
  calls (loopState.trace st) = calls (loopState.trace st').

(** Every call to the writer in these effects reported the error [e]. *)
Definition allFailed (e : error) (tr : list effect) : Prop :=
  Forall (fun ef => match ef with
                    | EAppend _ r | EClose r => r = Some e
                    | EPrint _ => True
                    end) tr.

(** What an append reports when the file takes the bytes. *)
Definition syncResult (io : fault) : option error :=
  match io with SyncFault => Some ErrSync | _ => None end.

(** From [st] to [st'] the writer held the error [e]: every call to it
    reported [e], and neither the file, nor the buffer, nor the flag of
    the file being closed changed. *)
Definition stuck (e : error) (st st' : loopState.t) : Prop :=
  (exists new, loopState.trace st' = (loopState.trace st ++ new)%list /\
               allFailed e new) /\
  jsonArrayWriter.w (loopState.jw st') = jsonArrayWriter.w (loopState.jw st) /\
  jsonArrayWriter.closed (loopState.jw st') =
  jsonArrayWriter.closed (loopState.jw st).

(** The file takes every write of these events; [Sync] and [Close] may
    fail. *)
Fixpoint writesAccepted (evs : list event) : bool :=
  match evs with
  | [] => true
  | Tick _ _ io :: evs' => accepts io && writesAccepted evs'
  | Signal _ io ioClose :: _ => accepts io && accepts ioClose
  end.



(** The editor session after an append the file refused. *)
Definition afterRefusedWrite : loopState.t :=
  onTick lowerCaseless formatNanos marshalBytes editorOpen
    (inl browserSample) (mkTime 3000000000) (WriteFault 0).

(** The scenario of the specification with a failing disk: the file takes
    the bytes, but [Sync] fails on both appends and [Close] fails too. *)
Definition syncFails : list event :=
  [Tick (inl ("Editor", "main.go - proj")) (mkTime 0) NoFault;
   Tick (inl browserSample) (mkTime 3000000000) SyncFault;
   Signal (mkTime 10000000000) SyncFault CloseFault].

(** The sum of the durations of the records, in seconds. *)
Fixpoint totalSeconds (l : list session.t) : Z :=
  match l with
  | [] => 0
  | s :: l' => session.DurationSec s + totalSeconds l'
  end.

(** The clock read after the successful samples, and at the signal, does
    not go back from [lo] and stays within [hi]. *)
Fixpoint clockRuns (lo hi : Z) (evs : list event) : Prop :=
  match evs with
  | [] => True
  | Tick (inl _) now _ :: evs' =>
      lo <= nanos now <= hi /\ clockRuns (nanos now) hi evs'
  | Tick (inr _) _ _ :: evs' => clockRuns lo hi evs'
  | Signal now _ _ :: _ => lo <= nanos now <= hi
  end.

(** The instant of the signal. *)
Fixpoint stopTime (evs : list event) : option Time :=
  match evs with
  | [] => None
  | Tick _ _ _ :: evs' => stopTime evs'
  | Signal now _ _ :: _ => Some now
  end.

(** The instant up to which the records of a run reach: the signal, or
    the start of the session that is still open. *)
Definition reached (evs : list event) (final : loopState.t) : Z :=
  match stopTime evs with
  | Some t => nanos t
  | None => nanos (loopState.sessStart final)
  end.

(** ** More of the program: the sampler

    [frontmostAppAndTitleWithBrowserTabs] asks [osascript] up to three
    questions.  The scripts are told apart by what they ask; the two that
    name the application carry its name as [escapeOSA] leaves it. *)

Definition isChromiumBrowser (appLower : string) : bool :=
  GoStrings.Contains appLower "chrome" ||
  GoStrings.Contains appLower "edge" ||
  GoStrings.Contains appLower "brave" ||
  GoStrings.Contains appLower "vivaldi" ||
  GoStrings.Contains appLower "opera" ||
  GoStrings.Contains appLower "arc".

Definition escapeOSA (s : string) : string :=
  GoStrings.ReplaceAllByte s (ascii_of_N 34) ("\" ++ Json.DQ).

Inductive script :=
| FrontAppScript                   (* the name of the frontmost process *)
| SafariTabScript                  (* the name of the current tab of Safari *)
| ChromiumTabScript (app : string) (* the title of the active tab of [app] *)
| WindowTitleScript (app : string). (* the name of the front window of [app] *)

Section Sampler.
Variable unicodeLower : string -> string.
(** [runOSA]: what [osascript] prints for a script, [None] when it fails. *)
Variable runOSA : script -> option string.

Definition frontmostAppAndTitleWithBrowserTabs : string * string + error :=
  match runOSA FrontAppScript with
  | None => inr ErrSample
  | Some out =>
      let app := GoStrings.TrimSpace out in
      let low := GoStrings.ToLower unicodeLower app in
      let viaWindow :=
        let title :=
          match runOSA (WindowTitleScript (escapeOSA app)) with
          | Some title => title
          | None => ""
          end in
        inl (app, GoStrings.TrimSpace title) in
      let viaChromium :=
        if isChromiumBrowser low then
          match runOSA (ChromiumTabScript (escapeOSA app)) with
          | Some title => inl (app, GoStrings.TrimSpace title)
          | None => viaWindow
          end
        else viaWindow in
      if (low =? "safari")%string then
        match runOSA SafariTabScript with
        | Some title => inl (app, GoStrings.TrimSpace title)
        | None => viaChromium
        end
      else viaChromium
  end.
End Sampler.

(** The labels an application can get whose tab title the sampler reads. *)
Definition browserLabels : list string :=
  ["メールのやり取り"; codingCategory; "コミュニケーション";
   "調査・ドキュメント閲覧"; "Webブラウジング"].

(** An input for each category. *)
Definition examplesOfCategories : list (string * string) :=
  [("Mail", ""); ("Xcode", ""); ("Terminal", "main.go"); ("Slack", "");
   ("Safari", "docs"); ("Safari", ""); ("Pages", ""); ("Numbers", "");
   ("Keynote", ""); ("Finder", ""); ("", "youtube"); ("", "")].

(** [osascript] for the examples: Chrome in front, its tab script fails. *)
Definition chromeTabFails (s : script) : option string :=
  match s with
  | FrontAppScript => Some ("Google Chrome" ++ LF)
  | WindowTitleScript "Google Chrome" => Some (" Inbox " ++ LF)
  | _ => None
  end.

(** ** More of the program: the Slack event loop

    [startSlackIngest] reads its settings from the environment and then
    handles what the socket delivers on [sm.Events], one event after the
    other.  The events are given as a list; an Events API event comes
    with the two instants and the fault of the save it may lead to. *)

(** The filter of the message handler as one test. *)
Definition qualifiesb (self : string) (logAll : bool) (ev : MessageEvent.t)
  : bool :=
  (MessageEvent.SubType ev =? "")%string &&
  negb (GoStrings.TrimSpace (MessageEvent.Text ev) =? "")%string &&
  (logAll || (MessageEvent.User ev =? self)%string).

(** [inner.Data], by its dynamic type. *)
Inductive innerEventData :=
| InnerMessage (ev : MessageEvent.t)   (* [*slackevents.MessageEvent] *)
| InnerOther.                          (* any other type *)

Module EventsAPIEvent.
Record t := mk
  { isCallback : bool;       (* [e.Type == slackevents.CallbackEvent] *)
    InnerEvent : innerEventData }.
End EventsAPIEvent.

(** [socketmode.Event], by its type.  [data] is [None] when [evt.Data]
    is no [slackevents.EventsAPIEvent]. *)
Inductive socketEvent :=
| SockConnecting
| SockConnected
| SockHello
| SockEventsAPI (request : string) (data : option EventsAPIEvent.t)
                (now now' : Time) (io : fault)
| SockError     (* bad message, write failed, disconnect *)
| SockOther.    (* a type the switch has no case for *)

Inductive ingestOutput :=
| OutConnecting | OutConnected | OutHello | OutSocketError.

Inductive ingestEffect :=
| EAck (request : string)          (* [sm.Ack] of the request *)
| EIngestPrint (l : ingestOutput)
| EHandler (e : slackEffect).      (* what the message handler did *)

Module ingestState.
Record t := mk
  { files : gmap string string;
    itrace : list ingestEffect }.
End ingestState.

Module environ.
(** The variables [startSlackIngest] reads with [os.Getenv]. *)
Record t := mk
  { SLACK_BOT_TOKEN : string;
    SLACK_APP_TOKEN : string;
    SLACK_SELF_USER_ID : string;
    SLACK_DEBUG : string;
    SLACK_LOG_ALL : string }.
End environ.

Inductive ingestSettings :=
| IngestOffTokens                              (* a token is not set *)
| IngestOffSelf                                (* the user ID is not set *)
| IngestOn (self : string) (debug logAll : bool).

Definition slackSettings (env : environ.t) : ingestSettings :=
  let bot := environ.SLACK_BOT_TOKEN env in
  let app := environ.SLACK_APP_TOKEN env in
  let self := environ.SLACK_SELF_USER_ID env in
  let debug := (GoStrings.TrimSpace (environ.SLACK_DEBUG env) =? "1")%string in
  let logAll := (GoStrings.TrimSpace (environ.SLACK_LOG_ALL env) =? "1")%string in
  if (bot =? "")%string || (app =? "")%string then IngestOffTokens
  else if (GoStrings.TrimSpace self =? "")%string then IngestOffSelf
  else IngestOn self debug logAll.

Section Ingest.
Variable formatRFC3339 : Time -> string.
Variable formatStamp : Time -> string.
Variable encodeMessage : messageEntry.t -> string.
Variable self : string.
Variable logAll : bool.
Variable debug : bool.

Definition emit (st : ingestState.t) (l : list ingestEffect) : ingestState.t :=
  {| ingestState.files := ingestState.files st;
     ingestState.itrace := (ingestState.itrace st ++ l)%list |}.

Definition debugLine (l : ingestOutput) : list ingestEffect :=
  if debug then [EIngestPrint l] else [].

(** One turn of [for evt := range sm.Events]. *)
Definition onSocketEvent (st : ingestState.t) (evt : socketEvent)
  : ingestState.t :=
  match evt with
  | SockConnecting => emit st (debugLine OutConnecting)
  | SockConnected => emit st (debugLine OutConnected)
  | SockHello => emit st (debugLine OutHello)
  | SockEventsAPI request data now now' io =>
      match data with
      | None => emit st [EAck request]
      | Some e =>
          let st := emit st [EAck request] in
          if EventsAPIEvent.isCallback e then
            match EventsAPIEvent.InnerEvent e with
            | InnerMessage ev =>
                let h := onMessageEvent formatRFC3339 formatStamp encodeMessage
                           self logAll debug
                           {| slackState.files := ingestState.files st;
                              slackState.strace := [] |}
                           ev now now' io in
                {| ingestState.files := slackState.files h;
                   ingestState.itrace :=
                     (ingestState.itrace st ++
                      map EHandler (slackState.strace h))%list |}
            | InnerOther => st
            end
          else st
      end
  | SockError => emit st [EIngestPrint OutSocketError]
  | SockOther => st
  end.

Definition handleEvents (evts : list socketEvent) (st : ingestState.t)
  : ingestState.t :=
  fold_left onSocketEvent evts st.
End Ingest.

(** [startSlackIngest], from the environment to the end of the events;
    [None] when the ingest is switched off.  The line on the result of
    [AuthTest] and the one on the result of [sm.Run] are left out. *)
Definition startSlackIngest (formatRFC3339 formatStamp : Time -> string)
    (encodeMessage : messageEntry.t -> string) (env : environ.t)
    (evts : list socketEvent) (fs : gmap string string)
  : option ingestState.t :=
  match slackSettings env with
  | IngestOn self debug logAll =>
      Some (handleEvents formatRFC3339 formatStamp encodeMessage
              self logAll debug evts
              {| ingestState.files := fs; ingestState.itrace := [] |})
  | _ => None
  end.

(** *** Reading a run of the event loop *)



(** What the message handler did, in order. *)
Fixpoint handlerEffects (tr : list ingestEffect) : list slackEffect :=
  match tr with
  | [] => []
  | EHandler e :: tr' => e :: handlerEffects tr'
  | _ :: tr' => handlerEffects tr'
  end.

(** The message event in a socket event, with the instant of its entry. *)
Definition messageOf (evt : socketEvent) : option (MessageEvent.t * Time) :=
  match evt with
  | SockEventsAPI _ (Some e) now _ _ =>
      if EventsAPIEvent.isCallback e then
        match EventsAPIEvent.InnerEvent e with
        | InnerMessage ev => Some (ev, now)
        | InnerOther => None
        end
      else None
  | _ => None
  end.

(** The entries a socket event leads to: one, or none. *)
Definition entriesOf (formatRFC3339 : Time -> string) (self : string)
    (logAll : bool) (evt : socketEvent) : list messageEntry.t :=
  match messageOf evt with
  | Some (ev, now) =>
      if qualifiesb self logAll ev then [entryOf formatRFC3339 ev now] else []
  | None => []
  end.

(** The common start of the paths of all message files. *)
Definition messagePrefix : string := messageDir ++ "/msg_".

(** Not a byte that [safe] replaces. *)
Definition safeByte (c : ascii) : bool :=
  negb (Ascii.eqb c " ") && negb (Ascii.eqb c "/") && negb (Ascii.eqb c "\").

(** Values for the examples. *)
Definition paddedEnv : environ.t :=
  {| environ.SLACK_BOT_TOKEN := "xoxb-1"; environ.SLACK_APP_TOKEN := "xapp-1";
     environ.SLACK_SELF_USER_ID := "U123" ++ LF;
     environ.SLACK_DEBUG := ""; environ.SLACK_LOG_ALL := "" |}.

Definition ownEnvelope : socketEvent :=
  SockEventsAPI "env-1"
    (Some {| EventsAPIEvent.isCallback := true;
             EventsAPIEvent.InnerEvent := InnerMessage ownMessage |})
    (mkTime 5) (mkTime 6) NoFault.

Definition ownReply : MessageEvent.t :=
  {| MessageEvent.SubType := ""; MessageEvent.Text := "rolled back";
     MessageEvent.User := "U123"; MessageEvent.Channel := "C42\ops";
     MessageEvent.ThreadTimeStamp := "1700000000.000100";
     MessageEvent.TimeStamp := "1700000000.000200" |}.

(** ** The first version of the program: start and end rows in a CSV file

    The prototype keeps one open session and writes a row when it starts
    and a row when it ends.  The rows are taken as the lists of fields
    handed to [csv.Writer.Write]; what the sampling functions and the
    writer return comes with the events. *)

Module ver1.

Module Session.
Record t := mk
  { App : string;
    BundleID : string;
    Title : string;
    URL : string;
    Category : string;
    Start : Time }.
End Session.

Definition truncate (s : string) (max : nat) : string :=
  if (String.length s <=? max)%nat then s else GoStrings.takeBytes max s.

Section Classify.
Variable unicodeLower : string -> string.

Let Contains := GoStrings.Contains.

Definition classify (appName bundleID title url : string) : string :=
  let n := GoStrings.ToLower unicodeLower
             (appName ++ " " ++ bundleID ++ " " ++ title ++ " " ++ url) in
  if Contains n "com.apple.mail" || (appName =? "Mail")%string
  then "メールのやり取り"
  else if Contains n "mail.google" || Contains n "gmail" ||
          Contains n "outlook" || Contains n "icloud.com/mail" ||
          Contains n "mail.yahoo"
  then "メールのやり取り"
  else if Contains n "com.microsoft.vscode" ||
          (appName =? "Visual Studio Code")%string || (appName =? "Code")%string
  then "プログラムの制作"
  else if Contains n "com.apple.dt.xcode" || (appName =? "Xcode")%string
  then "プログラムの制作"
  else if Contains n "github.com" || Contains n "gitlab.com"
  then "開発プラットフォーム"
  else if Contains n "docs.google.com" || Contains n "notion.so" ||
          Contains n "dropbox.com"
  then "ドキュメント作業"
  else if Contains n "stackoverflow.com" || Contains n "stack overflow"
  then "技術調査"
  else if Contains n "youtube.com" || Contains n "youtu.be" ||
          Contains n "nicovideo.jp"
  then "動画視聴"
  else if (appName =? "Safari")%string || (appName =? "Google Chrome")%string ||
          (appName =? "Microsoft Edge")%string
  then "ブラウジング"
  else "その他".
End Classify.

(** The application is one of those whose front tab is queried. *)
Definition hasTabQuery (appName : string) : bool :=
  (appName =? "Safari")%string || (appName =? "Google Chrome")%string ||
  (appName =? "Microsoft Edge")%string.

Inductive output :=
| OutFrontError                   (* "frontMostApp error: ..." *)
| OutEndError (onExit : bool)     (* "csv end log err ..." *)
| OutStartError                   (* "csv start log err: ..." *)
| OutNewSession (s : Session.t)   (* "New session: ..." *)
| OutBye.                         (* "Bye." *)

Inductive effect :=
| EWrite (row : list string) (r : option error)  (* a row handed to the writer *)
| ELog (l : output)
| ECloseFile.                                    (* the deferred [csvlog.Close()] *)

Inductive event :=
| Tick (front : option (string * string))  (* [frontMostApp]; [None]: an error *)
       (tab : option (string * string))    (* the tab query; [None]: an error *)
       (now : Time)
       (ioEnd ioStart : option error)      (* what [LogEnd] and [LogStart] return *)
| Stop (now : Time) (ioEnd : option error).

Module loopState.
Record t := mk
  { current : option Session.t;
    trace : list effect }.
End loopState.

Section Main.
Variable unicodeLower : string -> string.
Variable formatRFC3339 : Time -> string.

(** The row of [LogStart]. *)
Definition startRow (s : Session.t) : list string :=
  [formatRFC3339 (Session.Start s); "start"; Session.App s;
   Session.BundleID s; Session.Title s; Session.URL s; Session.Category s].

(** The row of [LogEnd]. *)
Definition endRow (s : Session.t) (end_ : Time) : list string :=
  [formatRFC3339 end_; "end"; Session.App s;
   Session.BundleID s; Session.Title s; Session.URL s; Session.Category s].

Definition initState : loopState.t :=
  {| loopState.current := None; loopState.trace := [] |}.

Definition logged (st : loopState.t) (l : list effect) : loopState.t :=
  {| loopState.current := loopState.current st;
     loopState.trace := (loopState.trace st ++ l)%list |}.

(** The first half of a tick: end the open session if the application or
    the category has changed. *)
Definition endIfChanged (st : loopState.t) (appName category : string)
    (now : Time) (ioEnd : option error) : loopState.t :=
  match loopState.current st with
  | Some c =>
      if negb (Session.App c =? appName)%string ||
         negb (Session.Category c =? category)%string
      then
        {| loopState.current := None;
           loopState.trace :=
             (loopState.trace st ++
              EWrite (endRow c now) ioEnd ::
              match ioEnd with
              | Some _ => [ELog (OutEndError false)]
              | None => []
              end)%list |}
      else st
  | None => st
  end.

(** The second half: start a session if none is open. *)
Definition startIfNone (st : loopState.t)
    (appName bundleID title url category : string) (now : Time)
    (ioStart : option error) : loopState.t :=
  match loopState.current st with
  | None =>
      let c := {| Session.App := appName; Session.BundleID := bundleID;
                  Session.Title := truncate title 500;
                  Session.URL := truncate url 1000;
                  Session.Category := category; Session.Start := now |} in
      {| loopState.current := Some c;
         loopState.trace :=
           (loopState.trace st ++
            [EWrite (startRow c) ioStart;
             ELog match ioStart with
                  | Some _ => OutStartError
                  | None => OutNewSession c
                  end])%list |}
  | Some _ => st
  end.

(** The case [<-ticker.C]. *)
Definition onTick (st : loopState.t) (front tab : option (string * string))
    (now : Time) (ioEnd ioStart : option error) : loopState.t :=
  match front with
  | None => logged st [ELog OutFrontError]
  | Some (appName, bundleID) =>
      if (appName =? "")%string then logged st [ELog OutFrontError]
      else
        let (title, url) :=
          if hasTabQuery appName
          then match tab with Some p => p | None => ("", "") end
          else ("", "") in
        let category := classify unicodeLower appName bundleID title url in
        startIfNone (endIfChanged st appName category now ioEnd)
          appName bundleID title url category now ioStart
  end.

(** The case [<-stop], and what follows the loop. *)
Definition onStop (st : loopState.t) (now : Time) (ioEnd : option error)
  : loopState.t :=
  let st :=
    match loopState.current st with
    | Some c =>
        logged st (EWrite (endRow c now) ioEnd ::
                   match ioEnd with
                   | Some _ => [ELog (OutEndError true)]
                   | None => []
                   end)
    | None => st
    end in
  logged st [ELog OutBye; ECloseFile].

Fixpoint loop (evs : list event) (st : loopState.t) : loopState.t :=
  match evs with
  | [] => st
  | Tick front tab now ioEnd ioStart :: evs' =>
      loop evs' (onTick st front tab now ioEnd ioStart)
  | Stop now ioEnd :: _ => onStop st now ioEnd
  end.
End Main.

(** The rows handed to the writer, in order. *)
Fixpoint rows (tr : list effect) : list (list string) :=
  match tr with
  | [] => []
  | EWrite row _ :: tr' => row :: rows tr'
  | _ :: tr' => rows tr'
  end.

(** The stop signal is among the events. *)
Fixpoint stopped (evs : list event) : bool :=
  match evs with
  | [] => false
  | Tick _ _ _ _ _ :: evs' => stopped evs'
  | Stop _ _ :: _ => true
  end.

(** The two rows of a session that has ended. *)
Definition pairRows (formatRFC3339 : Time -> string) (p : Session.t * Time)
  : list (list string) :=
  [startRow formatRFC3339 (fst p); endRow formatRFC3339 (fst p) (snd p)].

(** The title and the URL of a session fit their limits. *)
Definition fits (s : Session.t) : Prop :=
  (String.length (Session.Title s) <= 500)%nat /\
  (String.length (Session.URL s) <= 1000)%nat.

(** The rows of the sessions [closed], and the start row of the open one. *)
Definition rowsOf (formatRFC3339 : Time -> string)
    (closed : list (Session.t * Time)) (open : option Session.t)
  : list (list string) :=
  (flat_map (pairRows formatRFC3339) closed ++
   match open with
   | Some c => [startRow formatRFC3339 c]
   | None => []
   end)%list.

(** The rows written so far are those of the sessions that have ended,
    in pairs, and the start row of the open session. *)
Definition paired (formatRFC3339 : Time -> string) (st : loopState.t) : Prop :=
  exists closed,
    rows (loopState.trace st) =
    rowsOf formatRFC3339 closed (loopState.current st) /\
    Forall (fun p => fits (fst p)) closed /\
    (forall c, loopState.current st = Some c -> fits c).

(** Values for the examples: the editor, then Safari on two pages of the
    same category, then the stop. *)
Definition editorThenSafari : list event :=
  [Tick (Some ("Code", "com.microsoft.VSCode")) None (mkTime 0) None None;
   Tick (Some ("Safari", "com.apple.Safari"))
        (Some ("News", "https://example.org/a")) (mkTime 5000000000) None None;
   Tick (Some ("Safari", "com.apple.Safari"))
        (Some ("Weather", "https://example.org/b")) (mkTime 10000000000)
        None None;
   Stop (mkTime 15000000000) None].

End ver1.

(** * Properties *)

(** From here on [++] joins lists and [+:+] joins strings, and joining
    onto a string that starts with a known byte computes. *)
Local Open Scope list_scope.
#[local] Arguments String.append !s1 s2 : simpl nomatch.

(** ** Strings *)

Module GoStringsFacts.
Import GoStrings.

Lemma lowerByte_idem c : lowerByte (lowerByte c) = lowerByte c.
Proof. destruct c as [[] [] [] [] [] [] [] []]; reflexivity. Qed.

Lemma isASCIIByte_lowerByte c : isASCIIByte (lowerByte c) = isASCIIByte c.
Proof. destruct c as [[] [] [] [] [] [] [] []]; reflexivity. Qed.

Lemma allASCII_lowerASCII s : allASCII (lowerASCII s) = allASCII s.
Proof.
  induction s as [|c s IH]; simpl; [reflexivity|].
  now rewrite isASCIIByte_lowerByte, IH.
Qed.

Lemma lowerASCII_idem s : lowerASCII (lowerASCII s) = lowerASCII s.
Proof.
  induction s as [|c s IH]; simpl; [reflexivity|].
  now rewrite lowerByte_idem, IH.
Qed.

(** Lower-casing twice is lower-casing once, as soon as this holds for
    the Unicode path. *)
Lemma ToLower_idem (u : string -> string) :
  (forall s, allASCII s = false -> ToLower u (u s) = u s) ->
  forall s, ToLower u (ToLower u s) = ToLower u s.
Proof.
  intros Hu s. unfold ToLower at 2 3.
  destruct (allASCII s) eqn:E.
  - unfold ToLower. now rewrite allASCII_lowerASCII, E, lowerASCII_idem.
  - now apply Hu.
Qed.

(** On ASCII text lower-casing does not reach the Unicode path. *)
Lemma ToLower_ascii (u u' : string -> string) s :
  allASCII s = true -> ToLower u s = ToLower u' s.
Proof. intros E. unfold ToLower. now rewrite E. Qed.

Lemma lowerCaseless_fixed s :
  allASCII s = false -> ToLower lowerCaseless (lowerCaseless s) = lowerCaseless s.
Proof.
  intros E. unfold ToLower, lowerCaseless.
  now rewrite allASCII_lowerASCII, E, lowerASCII_idem.
Qed.
End GoStringsFacts.

(** ** The classifier *)

Section ClassifierFacts.
Variable unicodeLower : string -> string.

Let ToLower := GoStrings.ToLower unicodeLower.
Let classify := classifyActivity unicodeLower.

(** The chain of tests in [classifyActivity] is the first match in
    [rules] on the lower-cased inputs. *)
Lemma classifyActivity_firstMatch app title :
  classify app title = firstMatch rules (ToLower app) (ToLower title).
Proof.
  unfold classify, classifyActivity, rules, firstMatch.
  unfold mailRule, codingEditorRule, codeFileRule, communicationRule,
    browserDocsRule, browserRule, documentRule, spreadsheetRule, slidesRule,
    finderRule, mediaRule, codingCategory, fallbackCategory.
  fold ToLower.
  set (a := ToLower app). set (t := ToLower title).
  repeat match goal with
         | |- (if ?b then _ else _) = _ => destruct b; simpl; try reflexivity
         end.
Qed.

Lemma firstMatch_in rs a t :
  In (firstMatch rs a t) (map snd rs ++ [fallbackCategory]).
Proof.
  induction rs as [|[p c] rs IH]; simpl.
  - now left.
  - destruct (p a t); [now left | now right].
Qed.

Lemma firstMatch_none rs a t :
  forallb (fun r => negb (fst r a t)) rs = true ->
  firstMatch rs a t = fallbackCategory.
Proof.
  induction rs as [|[p c] rs IH]; simpl; [reflexivity|].
  intros H. apply andb_prop in H as [Hp Hrs].
  apply negb_true_iff in Hp. simpl in Hp. rewrite Hp. now apply IH.
Qed.

(** C9: [classifyActivity] is a function of its two inputs (total,
    deterministic, no state), its result is one of the fixed categories,
    it gives the same result on the lower-cased inputs, and it returns
    the fallback category when no rule matches.  Case-insensitivity
    rests on lower-casing being idempotent on Go's Unicode path. *)
Theorem classifyActivity_total_deterministic_caseless :
  (forall s, GoStrings.allASCII s = false ->
             ToLower (unicodeLower s) = unicodeLower s) ->
  forall app title : string,
    In (classify app title) categories /\
    (forall app' title', app' = app -> title' = title ->
                         classify app' title' = classify app title) /\
    classify app title = classify (ToLower app) (ToLower title) /\
    (noRuleMatches (ToLower app) (ToLower title) = true ->
     classify app title = fallbackCategory).
Proof.
  intros Hu app title. repeat split.
  - rewrite classifyActivity_firstMatch. apply firstMatch_in.
  - intros app' title' -> ->. reflexivity.
  - rewrite !classifyActivity_firstMatch.
    unfold ToLower. now rewrite !(GoStringsFacts.ToLower_idem _ Hu).
  - intros H. rewrite classifyActivity_firstMatch. now apply firstMatch_none.
Qed.

(** C7, as the code has it: an application matching the coding-editor
    rule with a title holding a documentation keyword is classified as
    coding, whatever the browser rule says, provided the mail rule, which
    comes first, does not match. *)
Theorem coding_editor_wins_over_browser (app title : string) :
  codingEditorRule (ToLower app) (ToLower title) = true ->
  hasAny (ToLower title) docKeywords = true ->
  mailRule (ToLower app) (ToLower title) = false ->
  classify app title = codingCategory.
Proof.
  intros Hc _ Hm. rewrite classifyActivity_firstMatch.
  unfold rules, firstMatch. now rewrite Hm, Hc.
Qed.
End ClassifierFacts.

(** On ASCII inputs the classifier does not depend on the Unicode tables. *)
Lemma classifyActivity_ascii (u u' : string -> string) (app title : string) :
  GoStrings.allASCII app = true -> GoStrings.allASCII title = true ->
  classifyActivity u app title = classifyActivity u' app title.
Proof.
  intros Ha Ht. unfold classifyActivity.
  now rewrite (GoStringsFacts.ToLower_ascii u u' app Ha),
    (GoStringsFacts.ToLower_ascii u u' title Ht).
Qed.

(** The witness of C9: the developer's editor, with the caseless
    lower-casing. *)
Lemma classifyActivity_total_deterministic_caseless_witness :
  In (classifyActivity lowerCaseless "Visual Studio Code" "main.go") categories /\
  classifyActivity lowerCaseless "Visual Studio Code" "main.go" =
  classifyActivity lowerCaseless "visual studio code" "main.go".
Proof.
  pose proof (classifyActivity_total_deterministic_caseless lowerCaseless
                GoStringsFacts.lowerCaseless_fixed "Visual Studio Code" "main.go")
    as (Hin & _ & Hlow & _).
  split; [exact Hin | exact Hlow].
Defined.

(** The witness of C7. *)
Lemma coding_editor_wins_over_browser_witness :
  classifyActivity lowerCaseless "Visual Studio Code" "Qiita docs" = codingCategory.
Proof.
  apply (coding_editor_wins_over_browser lowerCaseless "Visual Studio Code" "Qiita docs");
    reflexivity.
Defined.

(** C7 as stated fails: the editor shows a file whose name holds a
    documentation keyword and a mail keyword, and the mail rule wins. *)
Lemma coding_editor_loses_to_mail :
  codingEditorRule (GoStrings.ToLower lowerCaseless "Visual Studio Code")
                   (GoStrings.ToLower lowerCaseless "gmail-docs.md") = true /\
  hasAny (GoStrings.ToLower lowerCaseless "gmail-docs.md") docKeywords = true /\
  classifyActivity lowerCaseless "Visual Studio Code" "gmail-docs.md" <> codingCategory.
Proof.
  split; [reflexivity|]. split; [reflexivity|].
  vm_compute. discriminate.
Defined.

(** ** Durations *)

Module GoTimeFacts.
Import GoTime.

Lemma wrap64_small z : minInt64 <= z <= maxInt64 -> wrap64 z = z.
Proof.
  unfold wrap64, minInt64, maxInt64. intros H.
  rewrite Z.mod_small; lia.
Qed.

Lemma wrap64_range z : minInt64 <= wrap64 z <= maxInt64.
Proof.
  unfold wrap64, minInt64, maxInt64.
  pose proof (Z.mod_pos_bound (z + 2 ^ 63) (2 ^ 64)). lia.
Qed.

Lemma wrap64_above z :
  maxInt64 < z <= maxInt64 + 2 ^ 63 -> wrap64 z = z - 2 ^ 64.
Proof.
  unfold wrap64, maxInt64. intros H.
  replace (z + 2 ^ 63) with ((z - 2 ^ 63) + 1 * 2 ^ 64) by lia.
  rewrite Z.mod_add by lia. rewrite Z.mod_small; lia.
Qed.

(** [Sub] is the difference of the two readings when it fits... *)
Lemma Sub_exact t u :
  minInt64 <= nanos t - nanos u <= maxInt64 -> Sub t u = nanos t - nanos u.
Proof.
  intros H. unfold Sub. rewrite (wrap64_small _ H).
  replace (nanos u + (nanos t - nanos u)) with (nanos t) by lia.
  now rewrite Z.eqb_refl.
Qed.

(** ... and the largest or smallest duration when it does not. *)
Lemma Sub_saturates_up t u :
  maxInt64 < nanos t - nanos u -> Sub t u = maxDuration.
Proof.
  intros H. unfold Sub.
  pose proof (wrap64_range (nanos t - nanos u)) as R.
  destruct (Z.eqb_spec (nanos u + wrap64 (nanos t - nanos u)) (nanos t)); [lia|].
  destruct (Z.ltb_spec (nanos t) (nanos u)); [|reflexivity].
  unfold maxInt64 in H. lia.
Qed.

Lemma Sub_saturates_down t u :
  nanos t - nanos u < minInt64 -> Sub t u = minDuration.
Proof.
  intros H. unfold Sub.
  pose proof (wrap64_range (nanos t - nanos u)) as R.
  destruct (Z.eqb_spec (nanos u + wrap64 (nanos t - nanos u)) (nanos t)); [lia|].
  destruct (Z.ltb_spec (nanos t) (nanos u)); [reflexivity|].
  unfold minInt64 in H. lia.
Qed.

Lemma lessThanHalf_Second r :
  0 <= r < Second -> lessThanHalf r Second = (r + r <? Second).
Proof.
  unfold lessThanHalf, Second. intros H.
  rewrite (Z.mod_small r), (Z.mod_small (r + r)), (Z.mod_small 1000000000);
    lia.
Qed.

(** Rounding a negative duration never gives a positive one. *)
Lemma Round_Second_neg d :
  minInt64 <= d < 0 -> Round d Second <= 0.
Proof.
  intros H. unfold Round.
  change (Second <=? 0) with false. cbv iota.
  destruct (Z.ltb_spec d 0); [|lia].
  pose proof (Z.rem_bound_pos_neg d Second) as B.
  assert (HB : - Second < Z.rem d Second <= 0) by (apply B; unfold Second; lia).
  unfold Second, minInt64 in *.
  rewrite (wrap64_small (- Z.rem d 1000000000))
    by (unfold minInt64, maxInt64; lia).
  destruct (lessThanHalf _ _).
  - rewrite wrap64_small by (unfold minInt64, maxInt64; lia).
    Z.to_euclidean_division_equations. lia.
  - match goal with |- (if ?c then _ else _) <= 0 => destruct c eqn:E end.
    + apply Z.ltb_lt in E. lia.
    + unfold minDuration, minInt64. lia.
Qed.

(** Rounding a duration below [roundLimit] gives the nearest second. *)
Lemma Round_Second_nonneg d :
  0 <= d < roundLimit -> Round d Second = nearestSecond d * Second.
Proof.
  intros H. unfold Round, nearestSecond, roundLimit in *.
  change (Second <=? 0) with false. cbv iota.
  destruct (Z.ltb_spec d 0); [lia|].
  rewrite Z.rem_mod_nonneg by (unfold Second; lia).
  assert (HB : 0 <= d mod Second < Second)
    by (apply Z.mod_pos_bound; unfold Second; lia).
  rewrite lessThanHalf_Second by exact HB.
  unfold Second in *.
  destruct (Z.ltb_spec (d mod 1000000000 + d mod 1000000000) 1000000000).
  - rewrite wrap64_small by (unfold minInt64, maxInt64; lia).
    Z.to_euclidean_division_equations. lia.
  - assert (HR : d + 1000000000 - d mod 1000000000 <= maxInt64)
      by (unfold maxInt64; Z.to_euclidean_division_equations; lia).
    rewrite wrap64_small by (unfold minInt64, maxInt64 in *; lia).
    destruct (Z.ltb_spec d (d + 1000000000 - d mod 1000000000)); [|lia].
    Z.to_euclidean_division_equations. lia.
Qed.

(** At [roundLimit] and above, rounding overflows and saturates. *)
Lemma Round_Second_saturates d :
  roundLimit <= d <= maxInt64 -> Round d Second = maxDuration.
Proof.
  intros H. unfold Round, roundLimit, maxInt64 in *.
  change (Second <=? 0) with false. cbv iota.
  destruct (Z.ltb_spec d 0); [lia|].
  rewrite Z.rem_mod_nonneg by (unfold Second; lia).
  assert (HB : 0 <= d mod Second < Second)
    by (apply Z.mod_pos_bound; unfold Second; lia).
  rewrite lessThanHalf_Second by exact HB.
  unfold Second in *.
  destruct (Z.ltb_spec (d mod 1000000000 + d mod 1000000000) 1000000000).
  - Z.to_euclidean_division_equations. lia.
  - rewrite wrap64_above
      by (unfold maxInt64; Z.to_euclidean_division_equations; lia).
    destruct (Z.ltb_spec d (d + 1000000000 - d mod 1000000000 - 2 ^ 64));
      [lia | reflexivity].
Qed.

(** The nearest second is within half a second. *)
Lemma nearestSecond_nearest d :
  Z.abs (nearestSecond d * Second - d) * 2 <= Second.
Proof.
  unfold nearestSecond, Second. Z.to_euclidean_division_equations. lia.
Qed.
End GoTimeFacts.

Section SessionFromFacts.
Variable formatRFC3339 : Time -> string.
Let sessionFrom := sessionFrom formatRFC3339.

Lemma DurationSec_sessionFrom r start end_ :
  session.DurationSec (sessionFrom r start end_) =
  let dur := GoTime.Round (GoTime.Sub end_ start) GoTime.Second in
  Z.quot (if dur <? 0 then 0 else dur) GoTime.Second.
Proof. reflexivity. Qed.

Lemma Sub_cases t u :
  (GoTime.minInt64 <= nanos t - nanos u <= GoTime.maxInt64 /\
   GoTime.Sub t u = nanos t - nanos u) \/
  (GoTime.maxInt64 < nanos t - nanos u /\ GoTime.Sub t u = GoTime.maxDuration) \/
  (nanos t - nanos u < GoTime.minInt64 /\ GoTime.Sub t u = GoTime.minDuration).
Proof.
  destruct (Z_lt_le_dec (nanos t - nanos u) GoTime.minInt64).
  - right; right. split; [lia|]. now apply GoTimeFacts.Sub_saturates_down.
  - destruct (Z_lt_le_dec GoTime.maxInt64 (nanos t - nanos u)).
    + right; left. split; [lia|]. now apply GoTimeFacts.Sub_saturates_up.
    + left. split; [lia|]. apply GoTimeFacts.Sub_exact. lia.
Qed.

(** C2, as the code has it: [DurationSec] is never negative, and it is
    [end - start] rounded to the nearest whole second and clamped at zero
    whenever [end - start] is below [roundLimit], about 292 years, the
    range in which [time.Duration] can hold the rounded value. *)
Theorem sessionFrom_duration (r : record.t) (start end_ : Time) :
  nanos end_ - nanos start < roundLimit ->
  session.DurationSec (sessionFrom r start end_) =
    Z.max 0 (nearestSecond (nanos end_ - nanos start)) /\
  0 <= session.DurationSec (sessionFrom r start end_).
Proof.
  intros Hlim. rewrite DurationSec_sessionFrom. cbv zeta.
  assert (Hmin : GoTime.Round GoTime.minDuration GoTime.Second <= 0)
    by (apply GoTimeFacts.Round_Second_neg;
        unfold GoTime.minDuration, GoTime.minInt64; lia).
  destruct (Sub_cases end_ start) as [[Hr ->] | [[Hr ->] | [Hr ->]]].
  - destruct (Z_lt_le_dec (nanos end_ - nanos start) 0) as [Hneg | Hpos].
    + pose proof (GoTimeFacts.Round_Second_neg (nanos end_ - nanos start)) as HR.
      assert (Hle : GoTime.Round (nanos end_ - nanos start) GoTime.Second <= 0)
        by (apply HR; lia).
      assert (Hz : (if GoTime.Round (nanos end_ - nanos start) GoTime.Second <? 0
                    then 0
                    else GoTime.Round (nanos end_ - nanos start) GoTime.Second) = 0)
        by (destruct (Z.ltb_spec
                        (GoTime.Round (nanos end_ - nanos start) GoTime.Second) 0);
            lia).
      rewrite Hz. unfold nearestSecond, GoTime.Second.
      change (Z.quot 0 1000000000) with 0.
      split; [|lia]. Z.to_euclidean_division_equations. lia.
    + rewrite GoTimeFacts.Round_Second_nonneg by lia.
      assert (Hn : 0 <= nearestSecond (nanos end_ - nanos start))
        by (unfold nearestSecond; Z.to_euclidean_division_equations; lia).
      destruct (Z.ltb_spec
                  (nearestSecond (nanos end_ - nanos start) * GoTime.Second) 0);
        [unfold GoTime.Second in *; lia|].
      rewrite Z.quot_mul by (unfold GoTime.Second; lia).
      split; lia.
  - unfold GoTime.maxInt64, roundLimit in *. lia.
  - assert (Hz : (if GoTime.Round GoTime.minDuration GoTime.Second <? 0
                  then 0
                  else GoTime.Round GoTime.minDuration GoTime.Second) = 0)
      by (destruct (Z.ltb_spec
                      (GoTime.Round GoTime.minDuration GoTime.Second) 0); lia).
    rewrite Hz. change (Z.quot 0 GoTime.Second) with 0.
    split; [|lia].
    unfold nearestSecond, GoTime.minInt64 in *.
    Z.to_euclidean_division_equations. lia.
Qed.

(** Beyond [roundLimit] the duration saturates. *)
Lemma sessionFrom_duration_saturates (r : record.t) (start end_ : Time) :
  roundLimit <= nanos end_ - nanos start ->
  session.DurationSec (sessionFrom r start end_) = 9223372036.
Proof.
  intros Hlim. rewrite DurationSec_sessionFrom. cbv zeta.
  assert (Hmax : GoTime.Round GoTime.maxDuration GoTime.Second = GoTime.maxDuration)
    by (apply GoTimeFacts.Round_Second_saturates;
        unfold roundLimit, GoTime.maxDuration, GoTime.maxInt64; lia).
  destruct (Sub_cases end_ start) as [[Hr ->] | [[Hr ->] | [Hr ->]]].
  - rewrite GoTimeFacts.Round_Second_saturates by lia. reflexivity.
  - rewrite Hmax. reflexivity.
  - unfold roundLimit, GoTime.minInt64 in *. lia.
Qed.

End SessionFromFacts.

(** The witness of C2: the clock went back five seconds. *)
Lemma sessionFrom_duration_witness :
  session.DurationSec
    (sessionFrom formatNanos editorRecord (mkTime 5000000000) (mkTime 0)) = 0 /\
  0 <= session.DurationSec
         (sessionFrom formatNanos editorRecord (mkTime 5000000000) (mkTime 0)).
Proof.
  apply (sessionFrom_duration formatNanos editorRecord
           (mkTime 5000000000) (mkTime 0)).
  vm_compute. reflexivity.
Defined.

(** The scenario of the specification: three seconds in the editor. *)
Example sessionFrom_three_seconds :
  session.DurationSec
    (sessionFrom formatNanos editorRecord (mkTime 0) (mkTime 3000000000)) = 3.
Proof. reflexivity. Qed.

(** C2 as stated fails: between two instants 10^19 ns apart (some 317
    years) [Sub] and [Round] saturate, and [DurationSec] is not the
    rounded difference. *)
Lemma sessionFrom_duration_overflow :
  session.DurationSec
    (sessionFrom formatNanos editorRecord (mkTime 0) (mkTime (10 ^ 19)))
  <> Z.max 0 (nearestSecond (nanos (mkTime (10 ^ 19)) - nanos (mkTime 0))).
Proof. vm_compute. discriminate. Qed.

(** ** The writer *)

Module StringFacts.
Lemma app_assoc (a b c : string) : (a +:+ b) +:+ c = a +:+ (b +:+ c).
Proof. induction a as [|x a IH]; simpl; [reflexivity | now rewrite IH]. Qed.

Lemma app_nil_r (a : string) : a +:+ "" = a.
Proof. induction a as [|x a IH]; simpl; [reflexivity | now rewrite IH]. Qed.

Lemma length_app (a b : string) :
  String.length (a +:+ b) = (String.length a + String.length b)%nat.
Proof. induction a as [|x a IH]; simpl; [reflexivity | now rewrite IH]. Qed.

Lemma HasPrefix_app (p s : string) : GoStrings.HasPrefix (p +:+ s) p = true.
Proof.
  unfold GoStrings.HasPrefix.
  induction p as [|x p IH]; simpl; [now destruct s|].
  destruct (ascii_dec x x) as [_ | N]; [exact IH | now elim N].
Qed.

Lemma dropBytes_app (p s : string) :
  GoStrings.dropBytes (String.length p) (p +:+ s) = s.
Proof. induction p as [|x p IH]; simpl; [reflexivity | exact IH]. Qed.
End StringFacts.

Section WriterFacts.
Variable json_Marshal : session.t -> string.
Let append := AppendSession json_Marshal.

Lemma Flush_accepts io w :
  bufio.err w = None -> accepts io = true ->
  bufio.Flush io w =
  ({| bufio.disk := bufio.disk w +:+ bufio.buf w; bufio.buf := "";
      bufio.err := None |}, None).
Proof.
  intros He Hio. unfold bufio.Flush. rewrite He.
  destruct w as [d b e]. simpl in *. subst e.
  destruct b as [|c b].
  - now rewrite StringFacts.app_nil_r.
  - destruct io; try reflexivity. discriminate.
Qed.

(** An append that reaches the file: the separator and the record are
    added to the file, the flag is set, and only [Sync] can still fail. *)
Lemma AppendSession_accepts j s io :
  healthy j -> accepts io = true ->
  append j s io =
  ({| jsonArrayWriter.path := jsonArrayWriter.path j;
      jsonArrayWriter.w :=
        {| bufio.disk := diskOf j +:+ separator j +:+ json_Marshal s;
           bufio.buf := ""; bufio.err := None |};
      jsonArrayWriter.closed := jsonArrayWriter.closed j;
      jsonArrayWriter.wroteFirst := true |},
   match io with SyncFault => Some ErrSync | _ => None end).
Proof.
  intros [He Hb] Hio. unfold append, AppendSession, separator, diskOf.
  destruct j as [p w c f]. simpl in *.
  destruct w as [d b e]. simpl in *. subst e b.
  destruct f; unfold bufio.WriteString; simpl.
  - rewrite Flush_accepts by (simpl; auto). simpl.
    unfold withWriter. simpl. reflexivity.
  - rewrite Flush_accepts by (simpl; auto). simpl.
    unfold withWriter. simpl. reflexivity.
Qed.

(** Whatever happens during an append, the bytes already in the file
    stay as they are. *)
Lemma AppendSession_extends j s io :
  exists extra, diskOf (fst (append j s io)) = diskOf j +:+ extra.
Proof.
  unfold append, AppendSession, diskOf.
  destruct j as [p w c f]. destruct w as [d b e]. simpl.
  assert (Hflush : forall b' first,
    exists extra,
      bufio.disk (jsonArrayWriter.w (fst
        (match bufio.Flush io {| bufio.disk := d; bufio.buf := b';
                                 bufio.err := None |} with
         | (w, Some e0) =>
             (withWriter {| jsonArrayWriter.path := p;
                            jsonArrayWriter.w := {| bufio.disk := d; bufio.buf := b; bufio.err := None |};
                            jsonArrayWriter.closed := c;
                            jsonArrayWriter.wroteFirst := first |} w true, Some e0)
         | (w, None) =>
             (withWriter {| jsonArrayWriter.path := p;
                            jsonArrayWriter.w := {| bufio.disk := d; bufio.buf := b; bufio.err := None |};
                            jsonArrayWriter.closed := c;
                            jsonArrayWriter.wroteFirst := first |} w true,
              match io with SyncFault => Some ErrSync | _ => None end)
         end))) = d +:+ extra).
  { intros b' first. unfold bufio.Flush. simpl.
    destruct b' as [|x b'].
    - exists "". simpl. now rewrite StringFacts.app_nil_r.
    - destruct io; simpl; eauto. }
  destruct e as [e|].
  - exists "". destruct f; simpl; now rewrite StringFacts.app_nil_r.
  - destruct f; unfold bufio.WriteString; simpl; apply Hflush.
Qed.

(** A write that the file refuses outright leaves the file as it was. *)
Lemma AppendSession_refused j s :
  healthy j -> diskOf (fst (append j s (WriteFault 0))) = diskOf j.
Proof.
  intros [He Hb]. unfold append, AppendSession, diskOf.
  destruct j as [p w c f]. destruct w as [d b e]. simpl in *. subst e b.
  destruct f; unfold bufio.WriteString, bufio.Flush; simpl.
  - now rewrite StringFacts.app_nil_r.
  - destruct (json_Marshal s); simpl;
      [reflexivity | now rewrite StringFacts.app_nil_r].
Qed.

Lemma Close_accepts j io :
  healthy j -> accepts io = true ->
  Close j io =
  ({| jsonArrayWriter.path := jsonArrayWriter.path j;
      jsonArrayWriter.w :=
        {| bufio.disk := diskOf j +:+ LF +:+ "]" +:+ LF;
           bufio.buf := ""; bufio.err := None |};
      jsonArrayWriter.closed := true;
      jsonArrayWriter.wroteFirst := jsonArrayWriter.wroteFirst j |},
   match io with CloseFault => Some ErrClose | _ => None end).
Proof.
  intros [He Hb] Hio. unfold Close, diskOf.
  destruct j as [p w c f]. simpl in *.
  destruct w as [d b e]. simpl in *. subst e b.
  unfold bufio.WriteString. simpl.
  rewrite Flush_accepts by (simpl; auto). reflexivity.
Qed.
End WriterFacts.

(** ** The session tracker inside the poll loop *)

Section TrackerFacts.
Variable unicodeLower : string -> string.
Variable formatRFC3339 : Time -> string.
Variable json_Marshal : session.t -> string.

Let classify := classifyActivity unicodeLower.
Let finalize := sessionFrom formatRFC3339.
Let append := AppendSession json_Marshal.
Let tick := onTick unicodeLower formatRFC3339 json_Marshal.
Let signal := onSignal formatRFC3339 json_Marshal.
Let run := loop unicodeLower formatRFC3339 json_Marshal.

Let sampled := sampled unicodeLower.

Let classified := classified unicodeLower.

Lemma appended_app t1 t2 : appended (t1 ++ t2) = appended t1 ++ appended t2.
Proof.
  induction t1 as [|e t1 IH]; simpl; [reflexivity|].
  destruct e; simpl; now rewrite ?IH.
Qed.

(** [changed] is exact inequality of the three raw fields. *)
Lemma changed_false_iff prev cur :
  changed (Some prev) cur = false <->
  record.App prev = record.App cur /\
  record.Title prev = record.Title cur /\
  record.Activity prev = record.Activity cur.
Proof.
  unfold changed. rewrite !orb_false_iff, !negb_false_iff, !String.eqb_eq.
  tauto.
Qed.

Lemma changed_true_iff prev cur :
  changed (Some prev) cur = true <->
  record.App prev <> record.App cur \/
  record.Title prev <> record.Title cur \/
  record.Activity prev <> record.Activity cur.
Proof.
  unfold changed. rewrite !orb_true_iff, !negb_true_iff, !String.eqb_neq.
  tauto.
Qed.

Lemma changed_sameSample l app title now :
  record.Activity l = classify (record.App l) (record.Title l) ->
  changed (Some l) (sampled app title now) =
  negb (sameSample (record.App l, record.Title l) (app, title)).
Proof.
  intros Hl. unfold changed, sameSample, sampled. simpl.
  destruct (String.eqb_spec (record.App l) app) as [Ha | Ha]; simpl;
    [|reflexivity].
  destruct (String.eqb_spec (record.Title l) title) as [Ht | Ht]; simpl;
    [|reflexivity].
  rewrite Hl, Ha, Ht. now rewrite String.eqb_refl.
Qed.

(** The tick of a sample, case by case. *)
Lemma tick_sample st app title now io :
  tick st (inl (app, title)) now io =
  match loopState.last st with
  | None =>
      {| loopState.last := Some (sampled app title now);
         loopState.sessStart := now;
         loopState.jw := loopState.jw st;
         loopState.trace :=
           loopState.trace st ++ [EPrint (OutStart now (sampled app title now))] |}
  | Some l =>
      if changed (Some l) (sampled app title now) then
        let s := finalize l (loopState.sessStart st) now in
        let res := append (loopState.jw st) s io in
        {| loopState.last := Some (sampled app title now);
           loopState.sessStart := now;
           loopState.jw := fst res;
           loopState.trace :=
             loopState.trace st ++
             [EAppend s (snd res); EPrint (endLine (snd res) now l s false);
              EPrint (OutStart now (sampled app title now))] |}
      else st
  end.
Proof.
  unfold tick, onTick. destruct (loopState.last st) as [l|]; [|reflexivity].
  change {| record.App := app; record.Title := title;
            record.Activity := classifyActivity unicodeLower app title;
            record.Timestamp := now |} with (sampled app title now).
  destruct (changed (Some l) (sampled app title now)); [|reflexivity].
  cbv zeta. unfold append, finalize.
  destruct (AppendSession json_Marshal (loopState.jw st)
              (sessionFrom formatRFC3339 l (loopState.sessStart st) now) io).
  reflexivity.
Qed.

Lemma signal_open st now io l :
  loopState.last st = Some l ->
  signal st now io =
  let s := finalize l (loopState.sessStart st) now in
  let res := append (loopState.jw st) s io in
  {| loopState.last := loopState.last st;
     loopState.sessStart := loopState.sessStart st;
     loopState.jw := fst res;
     loopState.trace :=
       loopState.trace st ++
       [EAppend s (snd res); EPrint (endLine (snd res) now l s true)] |}.
Proof.
  intros El. unfold signal, onSignal. rewrite El. cbv zeta.
  unfold append, finalize.
  destruct (AppendSession json_Marshal (loopState.jw st)
              (sessionFrom formatRFC3339 l (loopState.sessStart st) now) io).
  reflexivity.
Qed.

Lemma signal_none st now io :
  loopState.last st = None -> signal st now io = st.
Proof. intros El. unfold signal, onSignal. now rewrite El. Qed.

Lemma shutdown_eq st ioClose :
  shutdown st ioClose =
  let res := Close (loopState.jw st) ioClose in
  {| loopState.last := loopState.last st;
     loopState.sessStart := loopState.sessStart st;
     loopState.jw := fst res;
     loopState.trace :=
       loopState.trace st ++ EClose (snd res) :: closeLines (snd res) |}.
Proof.
  unfold shutdown. destruct (Close (loopState.jw st) ioClose). reflexivity.
Qed.

Lemma appended_closeLines r : appended (closeLines r) = [].
Proof. destruct r; reflexivity. Qed.

(** What one tick hands to [AppendSession]: nothing, or the open
    session finalized at this instant when the sample has changed. *)
Lemma tick_appended st sample now io :
  appended (loopState.trace (tick st sample now io)) =
  appended (loopState.trace st) ++
  match sample, loopState.last st with
  | inl (app, title), Some l =>
      if changed (Some l) (sampled app title now)
      then [finalize l (loopState.sessStart st) now]
      else []
  | _, _ => []
  end.
Proof.
  destruct sample as [[app title] | e].
  - rewrite tick_sample. destruct (loopState.last st) as [l|] eqn:El.
    + destruct (changed (Some l) (sampled app title now)).
      * simpl. rewrite appended_app. reflexivity.
      * now rewrite app_nil_r.
    + simpl. rewrite appended_app. simpl. reflexivity.
  - simpl. rewrite appended_app. reflexivity.
Qed.

Lemma tick_last st sample now io :
  loopState.last (tick st sample now io) =
  match sample with
  | inl (app, title) => Some (sampled app title now)
  | inr _ => loopState.last st
  end \/
  (exists app title l,
      sample = inl (app, title) /\ loopState.last st = Some l /\
      changed (Some l) (sampled app title now) = false /\
      tick st sample now io = st).
Proof.
  destruct sample as [[app title] | e]; [|now left].
  rewrite tick_sample.
  destruct (loopState.last st) as [l|] eqn:El; [|now left].
  destruct (changed (Some l) (sampled app title now)) eqn:Ec.
  - now left.
  - right. exists app, title, l. auto.
Qed.

Lemma tick_classified st sample now io :
  classified st -> classified (tick st sample now io).
Proof.
  intros Hc. destruct (tick_last st sample now io) as [H | H].
  - destruct sample as [[app title] | e].
    + intros l Hl. rewrite H in Hl. injection Hl as <-. reflexivity.
    + intros l Hl. rewrite H in Hl. now apply Hc.
  - destruct H as (app & title & l & _ & _ & _ & ->). exact Hc.
Qed.

Lemma signal_appended st now io :
  appended (loopState.trace (signal st now io)) =
  appended (loopState.trace st) ++
  match loopState.last st with
  | Some l => [finalize l (loopState.sessStart st) now]
  | None => []
  end.
Proof.
  destruct (loopState.last st) as [l|] eqn:El.
  - rewrite (signal_open st now io l El). simpl.
    rewrite appended_app. reflexivity.
  - rewrite (signal_none st now io El). now rewrite app_nil_r.
Qed.

Lemma shutdown_appended st ioClose :
  appended (loopState.trace (shutdown st ioClose)) =
  appended (loopState.trace st).
Proof.
  rewrite shutdown_eq. simpl. rewrite appended_app. simpl.
  now rewrite appended_closeLines, app_nil_r.
Qed.

Lemma transitions_constant p l : Forall (eq p) l -> transitions l = 0%nat.
Proof.
  induction 1 as [|q l Hq Hl IH]; [reflexivity|].
  destruct Hl as [|q' l' Hq' Hl']; [reflexivity|].
  subst q q'. change (transitions (p :: p :: l')) with
    ((if sameSample p p then 0 else 1) + transitions (p :: l'))%nat.
  rewrite IH. unfold sameSample. now rewrite !String.eqb_refl.
Qed.

(** The count of appended records along a run from any state whose open
    session is classified. *)
Lemma run_appended_count evs : forall st,
  classified st ->
  length (appended (loopState.trace (stateOf (run evs st)))) =
  (length (appended (loopState.trace st)) +
   transitions (openSample st ++ samplesOf evs) +
   closeNowRecords (openSample st ++ samplesOf evs) (signalled evs))%nat.
Proof.
  induction evs as [|ev evs IH]; intros st Hc.
  - simpl. rewrite app_nil_r. unfold openSample.
    destruct (loopState.last st); simpl; lia.
  - destruct ev as [sample now io | now io ioClose].
    + change (run (Tick sample now io :: evs) st)
        with (run evs (tick st sample now io)).
      rewrite (IH _ (tick_classified st sample now io Hc)).
      rewrite tick_appended.
      destruct sample as [[app title] | e].
      * unfold openSample at 3 4. simpl samplesOf. simpl signalled.
        destruct (tick_last st (inl (app, title)) now io) as [H | H].
        -- unfold openSample at 1 2. rewrite H.
           destruct (loopState.last st) as [l|] eqn:El.
           ++ rewrite (changed_sameSample l app title now (Hc l El)).
              change (transitions ([(record.App l, record.Title l)] ++
                                   (app, title) :: samplesOf evs))
                with ((if sameSample (record.App l, record.Title l) (app, title)
                       then 0 else 1) +
                      transitions ((app, title) :: samplesOf evs))%nat.
              simpl. destruct (sameSample _ _); simpl;
                rewrite ?length_app; simpl; lia.
           ++ simpl. rewrite app_nil_r. lia.
        -- destruct H as (app' & title' & l & Heq & El & Ech & Hst).
           injection Heq as <- <-. rewrite Hst, El, Ech, app_nil_r.
           rewrite (changed_sameSample l app title now (Hc l El)) in Ech.
           apply negb_false_iff in Ech. unfold openSample. rewrite El.
           change (transitions ([(record.App l, record.Title l)] ++
                                (app, title) :: samplesOf evs))
             with ((if sameSample (record.App l, record.Title l) (app, title)
                    then 0 else 1) +
                   transitions ((app, title) :: samplesOf evs))%nat.
           rewrite Ech. unfold sameSample in Ech. simpl in Ech.
           apply andb_prop in Ech as [Ea Et].
           apply String.eqb_eq in Ea, Et. rewrite Ea, Et. simpl. lia.
      * rewrite app_nil_r. simpl samplesOf. simpl signalled.
        replace (openSample (tick st (inr e) now io)) with (openSample st)
          by reflexivity.
        lia.
    + change (stateOf (run (Signal now io ioClose :: evs) st))
        with (shutdown (signal st now io) ioClose).
      rewrite shutdown_appended, signal_appended. simpl samplesOf.
      simpl signalled. rewrite app_nil_r, length_app. unfold openSample.
      destruct (loopState.last st); simpl; lia.
Qed.

(** C1: along any run from the start of the loop, the number of records
    handed to the log is the number of places where a sample differs from
    the one before, plus one for close-now if a session is open then; a
    run of equal samples hands over none; and a tick hands over a record
    only when the sample differs from the open session in application,
    title or activity, and then exactly one. *)
Theorem one_record_per_transition (jw : jsonArrayWriter.t) (evs : list event) :
  let st := stateOf (run evs (initState jw)) in
  length (appended (loopState.trace st)) =
    (transitions (samplesOf evs) +
     closeNowRecords (samplesOf evs) (signalled evs))%nat /\
  (forall p, Forall (eq p) (samplesOf evs) -> signalled evs = false ->
             appended (loopState.trace st) = []) /\
  (forall st' sample now io,
      appended (loopState.trace (tick st' sample now io)) =
      appended (loopState.trace st') ++
      match sample, loopState.last st' with
      | inl (app, title), Some l =>
          if changed (Some l) (sampled app title now)
          then [finalize l (loopState.sessStart st') now]
          else []
      | _, _ => []
      end).
Proof.
  assert (Hinit : classified (initState jw)) by (intros l Hl; discriminate).
  pose proof (run_appended_count evs (initState jw) Hinit) as Hn.
  simpl in Hn. split; [exact Hn|]. split.
  - intros p Hp Hsig. apply length_zero_iff_nil.
    cbv zeta. rewrite Hn, (transitions_constant p _ Hp), Hsig.
    destruct (samplesOf evs); reflexivity.
  - apply tick_appended.
Qed.

(** C6: whether a tick is a transition is decided by exact equality of
    the raw application, title and activity; an unchanged sample leaves
    the state alone; a changed one hands over exactly the open session,
    normalized by [clean] at that moment only, and opens a session with
    the raw sample; and two samples that [clean] cannot tell apart but
    that differ as sampled are a transition. *)
Theorem transition_decided_on_raw_values st l app title now io :
  loopState.last st = Some l ->
  let cur := sampled app title now in
  let st' := tick st (inl (app, title)) now io in
  let s := finalize l (loopState.sessStart st) now in
  (changed (Some l) cur = false <->
   record.App l = app /\ record.Title l = title /\
   record.Activity l = classify app title) /\
  (changed (Some l) cur = false -> st' = st) /\
  (changed (Some l) cur = true ->
   appended (loopState.trace st') = appended (loopState.trace st) ++ [s] /\
   loopState.last st' = Some cur /\
   session.App s = clean (record.App l) /\
   session.Title s = clean (record.Title l) /\
   session.Activity s = clean (record.Activity l)) /\
  (clean (record.App l) = clean app -> clean (record.Title l) = clean title ->
   record.App l <> app \/ record.Title l <> title ->
   changed (Some l) cur = true).
Proof.
  intros El cur st' s. split; [|split; [|split]].
  - apply changed_false_iff.
  - intros H. unfold st'. rewrite tick_sample, El. fold cur. now rewrite H.
  - intros H. split; [|split; [|repeat split]].
    + unfold st'. rewrite tick_appended, El. fold cur. now rewrite H.
    + unfold st'. rewrite tick_sample, El. fold cur. now rewrite H.
  - intros _ _ H. apply changed_true_iff. simpl. tauto.
Qed.

(** C4: a signal ends the loop at once, whatever events follow.  With a
    session open, the loop hands exactly one more record to the log, the
    open session ended at the instant of the signal, and closes the
    writer after it; with none open it hands over nothing and closes
    the writer all the same.  When the writer is sound and the file takes
    the bytes, the file ends with the record and the closing bracket and
    is closed. *)
Theorem termination_signal_finalizes_once st now io ioClose rest :
  let st' := stateOf (run (Signal now io ioClose :: rest) st) in
  run (Signal now io ioClose :: rest) st = Stopped st' /\
  run (Signal now io ioClose :: rest) st = run [Signal now io ioClose] st /\
  (forall l, loopState.last st = Some l ->
     let s := finalize l (loopState.sessStart st) now in
     let res := append (loopState.jw st) s io in
     let rc := snd (Close (fst res) ioClose) in
     session.End s = formatRFC3339 now /\
     appended (loopState.trace st') = appended (loopState.trace st) ++ [s] /\
     loopState.trace st' =
       loopState.trace st ++
       [EAppend s (snd res); EPrint (endLine (snd res) now l s true)] ++
       EClose rc :: closeLines rc) /\
  (loopState.last st = None ->
     let rc := snd (Close (loopState.jw st) ioClose) in
     appended (loopState.trace st') = appended (loopState.trace st) /\
     loopState.trace st' = loopState.trace st ++ EClose rc :: closeLines rc) /\
  (healthy (loopState.jw st) -> accepts io = true -> accepts ioClose = true ->
     jsonArrayWriter.closed (loopState.jw st') = true /\
     diskOf (loopState.jw st') =
       diskOf (loopState.jw st) +:+
       match loopState.last st with
       | Some l =>
           separator (loopState.jw st) +:+
           json_Marshal (finalize l (loopState.sessStart st) now)
       | None => ""
       end +:+ LF +:+ "]" +:+ LF).
Proof.
  intros st'.
  assert (Est : st' = shutdown (signal st now io) ioClose) by reflexivity.
  split; [reflexivity|]. split; [reflexivity|]. split; [|split].
  - intros l El s res rc. split; [reflexivity|]. split.
    + rewrite Est, shutdown_appended, signal_appended, El. reflexivity.
    + rewrite Est, shutdown_eq, (signal_open st now io l El). simpl.
      rewrite <- app_assoc. reflexivity.
  - intros El rc. split.
    + rewrite Est, shutdown_appended, signal_appended, El.
      now rewrite app_nil_r.
    + rewrite Est, shutdown_eq, (signal_none st now io El). reflexivity.
  - intros Hh Hio Hc. rewrite Est, shutdown_eq. simpl.
    destruct (loopState.last st) as [l|] eqn:El.
    + rewrite (signal_open st now io l El). simpl.
      unfold append. rewrite (AppendSession_accepts _ _ _ _ Hh Hio). simpl.
      rewrite Close_accepts by (try split; auto). simpl.
      split; [reflexivity|]. unfold diskOf. simpl.
      now rewrite !StringFacts.app_assoc.
    + rewrite (signal_none st now io El).
      rewrite Close_accepts by auto. simpl.
      split; reflexivity.
Qed.

(** C5, as the code has it: when [AppendSession] fails at a transition
    the error is printed and the loop goes on with the next event; the
    state moves on exactly as after a successful append, so the new
    sample is the open session from this instant and the session that
    could not be written is no longer held. *)
Theorem failed_append_is_logged_and_loop_goes_on st l app title now io e evs :
  loopState.last st = Some l ->
  changed (Some l) (sampled app title now) = true ->
  snd (append (loopState.jw st) (finalize l (loopState.sessStart st) now) io)
    = Some e ->
  let st' := tick st (inl (app, title)) now io in
  loopState.trace st' =
    loopState.trace st ++
    [EAppend (finalize l (loopState.sessStart st) now) (Some e);
     EPrint (OutLogError e false);
     EPrint (OutStart now (sampled app title now))] /\
  run (Tick (inl (app, title)) now io :: evs) st = run evs st' /\
  loopState.last st' = Some (sampled app title now) /\
  loopState.sessStart st' = now.
Proof.
  intros El Hc He st'.
  assert (Est : st' =
    {| loopState.last := Some (sampled app title now);
       loopState.sessStart := now;
       loopState.jw :=
         fst (append (loopState.jw st)
                (finalize l (loopState.sessStart st) now) io);
       loopState.trace :=
         loopState.trace st ++
         [EAppend (finalize l (loopState.sessStart st) now) (Some e);
          EPrint (OutLogError e false);
          EPrint (OutStart now (sampled app title now))] |}).
  { unfold st'. rewrite tick_sample, El, Hc. cbv zeta. now rewrite He. }
  split; [now rewrite Est|]. split; [reflexivity|].
  split; now rewrite Est.
Qed.
End TrackerFacts.

(** The witness of C1: the scenario of the specification gives exactly one
    record. *)
Lemma one_record_per_transition_witness :
  length (appended (loopState.trace (stateOf
    (loop lowerCaseless formatNanos marshalBytes editorThenBrowser
       (initState freshWriter))))) = 1%nat.
Proof.
  exact (proj1 (one_record_per_transition lowerCaseless formatNanos marshalBytes
                  freshWriter editorThenBrowser)).
Defined.

(** That record is the editor session, three seconds long. *)
Example editorThenBrowser_record :
  appended (loopState.trace (stateOf
    (loop lowerCaseless formatNanos marshalBytes editorThenBrowser
       (initState freshWriter)))) =
  [{| session.Start := "0ns"; session.End := "3000000000ns";
      session.App := "Editor"; session.Title := "main.go - proj";
      session.Activity := "プログラムの制作"; session.DurationSec := 3 |}].
Proof. vm_compute. reflexivity. Qed.

(** The witness of C6: a title with two spaces, then the same title with
    one; [clean] makes them equal and the loop still sees a transition. *)
Lemma transition_decided_on_raw_values_witness :
  clean "main.go  - proj" = clean "main.go - proj" /\
  changed (Some editorRecord)
    (sampled lowerCaseless "Editor" "main.go - proj" (mkTime 1500000000)) = true.
Proof.
  pose proof (transition_decided_on_raw_values lowerCaseless formatNanos
                marshalBytes editorOpen editorRecord "Editor" "main.go - proj"
                (mkTime 1500000000) NoFault eq_refl) as (_ & _ & _ & H).
  split; [vm_compute; reflexivity|].
  apply H; [vm_compute; reflexivity | vm_compute; reflexivity | right; discriminate].
Defined.

(** The witness of C4: the editor session is open, the signal comes at
    10 s, a second signal follows. *)
Lemma termination_signal_finalizes_once_witness :
  let st' := stateOf
    (loop lowerCaseless formatNanos marshalBytes
       [Signal (mkTime 10000000000) NoFault NoFault;
        Signal (mkTime 11000000000) NoFault NoFault] editorOpen) in
  appended (loopState.trace st') =
    [sessionFrom formatNanos editorRecord (mkTime 0) (mkTime 10000000000)] /\
  jsonArrayWriter.closed (loopState.jw st') = true.
Proof.
  pose proof (termination_signal_finalizes_once lowerCaseless formatNanos
                marshalBytes editorOpen (mkTime 10000000000) NoFault NoFault
                [Signal (mkTime 11000000000) NoFault NoFault])
    as (_ & _ & Hopen & _ & Hdisk).
  split.
  - exact (proj1 (proj2 (Hopen editorRecord eq_refl))).
  - apply Hdisk; [split; reflexivity | reflexivity | reflexivity].
Defined.

(** Close-now with no session open: nothing is appended, the file is the
    empty array. *)
Example shutdown_without_session :
  let st' := stateOf
    (loop lowerCaseless formatNanos marshalBytes
       [Signal (mkTime 10000000000) NoFault NoFault] (initState freshWriter)) in
  appended (loopState.trace st') = [] /\
  diskOf (loopState.jw st') = "[" +:+ LF +:+ LF +:+ "]" +:+ LF /\
  jsonArrayWriter.closed (loopState.jw st') = true.
Proof. vm_compute. repeat split. Qed.

(** The witness of C5: the file refuses the write at the change to the
    browser. *)
Lemma failed_append_is_logged_and_loop_goes_on_witness :
  let st' := onTick lowerCaseless formatNanos marshalBytes editorOpen
               (inl browserSample) (mkTime 3000000000) (WriteFault 0) in
  In (EPrint (OutLogError ErrWrite false)) (loopState.trace st') /\
  loopState.last st' =
    Some (sampled lowerCaseless "Browser" "github.com/foo" (mkTime 3000000000)) /\
  loopState.sessStart st' = mkTime 3000000000.
Proof.
  assert (Hc : changed (Some editorRecord)
                 (sampled lowerCaseless "Browser" "github.com/foo"
                    (mkTime 3000000000)) = true)
    by (vm_compute; reflexivity).
  assert (He : snd (AppendSession marshalBytes (loopState.jw editorOpen)
                      (sessionFrom formatNanos editorRecord
                         (loopState.sessStart editorOpen) (mkTime 3000000000))
                      (WriteFault 0)) = Some ErrWrite)
    by (vm_compute; reflexivity).
  pose proof (failed_append_is_logged_and_loop_goes_on lowerCaseless formatNanos
                marshalBytes editorOpen editorRecord "Browser" "github.com/foo"
                (mkTime 3000000000) (WriteFault 0) ErrWrite [] eq_refl Hc He)
    as (Htr & _ & Hlast & Hstart).
  split; [|split; [exact Hlast | exact Hstart]].
  cbv zeta. unfold browserSample. rewrite Htr. apply in_or_app. right.
  right. left. reflexivity.
Defined.

(** C5 as stated fails: after the failed append the open session is the
    browser's; the editor session that could not be written is neither in
    memory nor in the file. *)
Lemma failed_append_drops_the_session :
  let st' := onTick lowerCaseless formatNanos marshalBytes editorOpen
               (inl browserSample) (mkTime 3000000000) (WriteFault 0) in
  snd (AppendSession marshalBytes (loopState.jw editorOpen)
         (sessionFrom formatNanos editorRecord (mkTime 0) (mkTime 3000000000))
         (WriteFault 0)) = Some ErrWrite /\
  ~ (loopState.last st' = loopState.last editorOpen /\
     loopState.sessStart st' = loopState.sessStart editorOpen) /\
  diskOf (loopState.jw st') = diskOf (loopState.jw editorOpen).
Proof.
  vm_compute. split; [reflexivity|]. split; [|reflexivity].
  intros [_ H]. discriminate H.
Qed.

(** ** JSON: what is written reads back *)

Module JsonFacts.
Import Json.

Lemma token_app lit s :
  skipWs (lit +:+ s) = lit +:+ s -> token lit (lit +:+ s) = Some s.
Proof.
  intros H. unfold token. rewrite H.
  now rewrite StringFacts.HasPrefix_app, StringFacts.dropBytes_app.
Qed.

Lemma fieldName_key k rest : fieldName k (key k +:+ rest) = Some rest.
Proof.
  unfold fieldName, key.
  replace ((DQ +:+ k +:+ DQ +:+ ":") +:+ rest)
    with ((DQ +:+ k +:+ DQ) +:+ (":" +:+ rest))
    by (now rewrite !StringFacts.app_assoc).
  rewrite token_app by reflexivity. simpl.
  apply (token_app ":" rest). reflexivity.
Qed.

Lemma readString_head s v : readString s = Some v -> skipWs s = s.
Proof.
  destruct s as [|c s]; [discriminate|]. simpl.
  destruct (N.eqb_spec (N_of_ascii c) 34) as [E|]; [|discriminate].
  intros _. unfold isWs. now rewrite E.
Qed.

Lemma stringField_key quote k x rest :
  readsBack quote x ->
  stringField k (key k +:+ quote x +:+ rest) = Some (x, rest).
Proof.
  intros H. unfold stringField. rewrite fieldName_key. simpl.
  rewrite (readString_head _ _ (H rest)). apply H.
Qed.

(** *** Numbers *)

Lemma allNumBytes_uint u : allNumBytes (NilEmpty.string_of_uint u) = true.
Proof. induction u; simpl; auto. Qed.

Lemma allNumBytes_formatInt z : allNumBytes (formatInt z) = true.
Proof.
  unfold formatInt, NilZero.string_of_int, NilZero.string_of_uint.
  destruct (Z.to_int z) as [u | u]; destruct u; simpl;
    auto using allNumBytes_uint.
Qed.

Lemma formatInt_nonempty z : formatInt z <> "".
Proof.
  unfold formatInt, NilZero.string_of_int, NilZero.string_of_uint.
  destruct (Z.to_int z) as [u | u]; destruct u; simpl; discriminate.
Qed.

Lemma isNumByte_not_ws c : isNumByte c = true -> isWs c = false.
Proof. destruct c as [[] [] [] [] [] [] [] []]; vm_compute; congruence. Qed.

Lemma spanNum_app a c rest :
  allNumBytes a = true -> isNumByte c = false ->
  spanNum (a +:+ String c rest) = (a, String c rest).
Proof.
  intros Ha Hc. induction a as [|x a IH]; simpl.
  - now rewrite Hc.
  - simpl in Ha. apply andb_prop in Ha as [Hx Ha].
    now rewrite Hx, (IH Ha).
Qed.

Lemma int_of_string_formatInt z :
  NilZero.int_of_string (formatInt z) = Some (Z.to_int z).
Proof.
  unfold formatInt. apply NilZero.isi; destruct z; simpl; try discriminate;
    intros E; injection E; apply Unsigned.to_uint_nonnil.
Qed.

Lemma readInt_formatInt z c rest :
  isNumByte c = false ->
  readInt (skipWs (formatInt z +:+ String c rest)) = Some (z, String c rest).
Proof.
  intros Hc.
  assert (Hs : skipWs (formatInt z +:+ String c rest) =
               formatInt z +:+ String c rest).
  { pose proof (allNumBytes_formatInt z) as Ha.
    pose proof (formatInt_nonempty z) as Hn.
    destruct (formatInt z) as [|x a]; [congruence|]. simpl in *.
    apply andb_prop in Ha as [Hx _]. now rewrite (isNumByte_not_ws _ Hx). }
  rewrite Hs. unfold readInt.
  rewrite (spanNum_app _ _ _ (allNumBytes_formatInt z) Hc).
  now rewrite int_of_string_formatInt, DecimalZ.of_to.
Qed.

Lemma intField_key k z c rest :
  isNumByte c = false ->
  intField k (key k +:+ formatInt z +:+ String c rest) = Some (z, String c rest).
Proof.
  intros Hc. unfold intField. rewrite fieldName_key. simpl.
  now apply readInt_formatInt.
Qed.

(** *** One session *)

Section Session.
Variable quote : string -> string.

Lemma Marshal_head s : exists body, Marshal quote s = String "{" body.
Proof. unfold Marshal. eexists. reflexivity. Qed.

(** The text of a session with what follows it, member by member. *)
Lemma Marshal_app s rest :
  Marshal quote s +:+ rest =
  "{" +:+ (key "start" +:+ quote (session.Start s) +:+
  "," +:+ (key "end" +:+ quote (session.End s) +:+
  "," +:+ (key "app" +:+ quote (session.App s) +:+
  "," +:+ (key "title" +:+ quote (session.Title s) +:+
  "," +:+ (key "activity" +:+ quote (session.Activity s) +:+
  "," +:+ (key "durationSec" +:+ formatInt (session.DurationSec s) +:+
  String "}" rest)))))).
Proof.
  unfold Marshal.
  generalize (key "start"), (key "end"), (key "app"), (key "title"),
    (key "activity"), (key "durationSec").
  intros k1 k2 k3 k4 k5 k6.
  change (String "}" rest) with ("}" +:+ rest).
  generalize "{", ",", "}". intros lb cm rb.
  now rewrite !StringFacts.app_assoc.
Qed.

Lemma bind_Some {A B} (x : A) (f : A -> option B) : Some x ≫= f = f x.
Proof. reflexivity. Qed.

Lemma readSession_Marshal s rest :
  sessionReadsBack quote s ->
  readSession (Marshal quote s +:+ rest) = Some (s, rest).
Proof.
  intros (H1 & H2 & H3 & H4 & H5).
  rewrite Marshal_app. unfold readSession.
  rewrite (token_app "{") by reflexivity. rewrite bind_Some. cbv beta.
  rewrite (stringField_key quote _ _ _ H1), bind_Some. cbv beta iota.
  rewrite (token_app ",") by reflexivity. rewrite bind_Some. cbv beta.
  rewrite (stringField_key quote _ _ _ H2), bind_Some. cbv beta iota.
  rewrite (token_app ",") by reflexivity. rewrite bind_Some. cbv beta.
  rewrite (stringField_key quote _ _ _ H3), bind_Some. cbv beta iota.
  rewrite (token_app ",") by reflexivity. rewrite bind_Some. cbv beta.
  rewrite (stringField_key quote _ _ _ H4), bind_Some. cbv beta iota.
  rewrite (token_app ",") by reflexivity. rewrite bind_Some. cbv beta.
  rewrite (stringField_key quote _ _ _ H5), bind_Some. cbv beta iota.
  rewrite (token_app ",") by reflexivity. rewrite bind_Some. cbv beta.
  rewrite intField_key by reflexivity. rewrite bind_Some. cbv beta iota.
  change (String "}" rest) with ("}" +:+ rest).
  rewrite (token_app "}") by reflexivity. rewrite bind_Some. cbv beta.
  destruct s. reflexivity.
Qed.
End Session.
End JsonFacts.

(** *** The string encoder on bytes reads back *)

Module QuoteFacts.
Import Json.

Lemma readChars_escapeByte c tail :
  readChars (escapeByte c +:+ tail) = consTo (String c "") (readChars tail).
Proof. destruct c as [[] [] [] [] [] [] [] []]; reflexivity. Qed.

Lemma readChars_escapeBytes x rest :
  readChars (escapeBytes x +:+ DQ +:+ rest) = Some (x, rest).
Proof.
  induction x as [|c x IH].
  - reflexivity.
  - change (escapeBytes (String c x)) with (escapeByte c +:+ escapeBytes x).
    rewrite StringFacts.app_assoc, readChars_escapeByte, IH. reflexivity.
Qed.

Lemma quoteBytes_readsBack x : readsBack quoteBytes x.
Proof.
  intros rest. unfold quoteBytes.
  rewrite !StringFacts.app_assoc.
  change (readString (DQ +:+ escapeBytes x +:+ DQ +:+ rest))
    with (readChars (escapeBytes x +:+ DQ +:+ rest)).
  apply readChars_escapeBytes.
Qed.

Lemma quoteBytes_session s : sessionReadsBack quoteBytes s.
Proof. repeat split; apply quoteBytes_readsBack. Qed.
End QuoteFacts.

(** ** The log file *)

Section LogFacts.
(** The lemmas on the file hold for any way of writing a record that
    starts with a brace and reads back; [Json.Marshal] is one. *)
Variable M : session.t -> string.
Variable good : session.t -> Prop.
Hypothesis M_head : forall s, exists b, M s = String "{" b.
Hypothesis M_reads :
  forall s rest, good s -> Json.readSession (M s +:+ rest) = Some (s, rest).

Local Abbreviation sep := ("," +:+ LF).
Local Abbreviation body := (fileBody M).

Lemma concat_snoc (l : list string) (x : string) :
  String.concat sep (l ++ [x]) =
  String.concat sep l +:+ match l with [] => "" | _ :: _ => sep end +:+ x.
Proof.
  induction l as [|a l IH]; [reflexivity|].
  change ((a :: l) ++ [x]) with (a :: (l ++ [x])).
  destruct l as [|b l].
  - simpl. reflexivity.
  - change (String.concat sep (a :: (b :: l) ++ [x]))
      with (a +:+ sep +:+ String.concat sep ((b :: l) ++ [x])).
    rewrite IH.
    change (String.concat sep (a :: b :: l))
      with (a +:+ sep +:+ String.concat sep (b :: l)).
    now rewrite !StringFacts.app_assoc.
Qed.

Lemma body_snoc rs s :
  body (rs ++ [s]) = body rs +:+ separatorAfter rs +:+ M s.
Proof.
  unfold fileBody. rewrite map_app. simpl map. rewrite concat_snoc.
  destruct rs; reflexivity.
Qed.

Lemma body_cons r rs :
  body (r :: rs) =
  M r +:+ match rs with [] => "" | _ :: _ => sep +:+ body rs end.
Proof.
  unfold fileBody. destruct rs as [|r' rs]; simpl.
  - now rewrite StringFacts.app_nil_r.
  - reflexivity.
Qed.

Lemma M_length r : (1 <= String.length (M r))%nat.
Proof. destruct (M_head r) as [b ->]. simpl. lia. Qed.

Lemma body_length rs : (length rs <= String.length (body rs))%nat.
Proof.
  induction rs as [|r rs IH]; [simpl; lia|].
  rewrite body_cons, StringFacts.length_app.
  pose proof (M_length r). destruct rs as [|r' rs]; [simpl; lia|].
  rewrite StringFacts.length_app. simpl length in *. lia.
Qed.

Lemma readSession_ws c s :
  Json.isWs c = true -> Json.readSession (String c s) = Json.readSession s.
Proof.
  intros H. unfold Json.readSession, Json.token. simpl Json.skipWs.
  now rewrite H.
Qed.

Lemma readElems_ws fuel c s :
  Json.isWs c = true -> Json.readElems fuel (String c s) = Json.readElems fuel s.
Proof.
  intros H. destruct fuel; [reflexivity|]. simpl.
  now rewrite (readSession_ws c s H).
Qed.

Lemma readElems_step fuel s :
  Json.readElems (S fuel) s =
  '(x, rest) ← Json.readSession s;
  match Json.skipWs rest with
  | String c rest' =>
      if (N_of_ascii c =? 44)%N then
        xs ← Json.readElems fuel rest'; Some (x :: xs)
      else if (N_of_ascii c =? 93)%N then
        (if Json.atEnd rest' then Some [x] else None)
      else None
  | EmptyString => None
  end.
Proof. reflexivity. Qed.

(** The members of the array read back, given fuel for each. *)
Lemma readElems_body rs : forall r fuel,
  Forall good (r :: rs) ->
  (length (r :: rs) <= fuel)%nat ->
  Json.readElems fuel (body (r :: rs) +:+ closingToken) = Some (r :: rs).
Proof.
  induction rs as [|r' rs IH]; intros r fuel Hall Hfuel.
  - destruct fuel as [|fuel]; [simpl in Hfuel; lia|].
    rewrite body_cons, StringFacts.app_nil_r, readElems_step.
    rewrite M_reads by (now inversion Hall).
    reflexivity.
  - destruct fuel as [|fuel]; [simpl in Hfuel; lia|].
    rewrite body_cons, !StringFacts.app_assoc, readElems_step.
    rewrite M_reads by (now inversion Hall).
    rewrite JsonFacts.bind_Some. cbv beta iota.
    change ("," +:+ LF +:+ body (r' :: rs) +:+ closingToken)
      with (String "," (String (ascii_of_N 10)
                          (body (r' :: rs) +:+ closingToken))).
    change (Json.skipWs (String "," ?x)) with (String "," x).
    cbv iota. change (N_of_ascii "," =? 44)%N with true. cbv iota.
    rewrite readElems_ws by reflexivity.
    rewrite IH; [reflexivity | now inversion Hall | simpl in *; lia].
Qed.

(** A file with the opening token, the records and the closing token is
    the array of these records. *)
Lemma Unmarshal_file rs :
  Forall good rs ->
  Json.Unmarshal ("[" +:+ LF +:+ body rs +:+ closingToken) = Some rs.
Proof.
  intros Hall. destruct rs as [|r rs]; [reflexivity|].
  pose proof (readElems_body rs r
                (String.length (LF +:+ body (r :: rs) +:+ closingToken))
                Hall) as H.
  assert (Hlen : (length (r :: rs) <=
                  String.length (LF +:+ body (r :: rs) +:+ closingToken))%nat).
  { rewrite !StringFacts.length_app. pose proof (body_length (r :: rs)). lia. }
  specialize (H Hlen).
  assert (Hhead : exists b, body (r :: rs) +:+ closingToken = String "{" b).
  { rewrite body_cons. destruct (M_head r) as [b Hb].
    rewrite Hb. simpl. eauto. }
  destruct Hhead as [b Hb]. rewrite Hb in H.
  unfold Json.Unmarshal.
  change (Json.skipWs ("[" +:+ LF +:+ body (r :: rs) +:+ closingToken))
    with (String "[" (LF +:+ body (r :: rs) +:+ closingToken)).
  cbv iota. change (N_of_ascii "[" =? 91)%N with true. cbv iota.
  change (Json.skipWs (LF +:+ body (r :: rs) +:+ closingToken))
    with (Json.skipWs (body (r :: rs) +:+ closingToken)).
  rewrite Hb. exact H.
Qed.

Lemma newJSONArrayWriter_opens stamp j0 :
  newJSONArrayWriter stamp NoFault = inl j0 ->
  healthy j0 /\ diskOf j0 = "[" +:+ LF /\
  jsonArrayWriter.wroteFirst j0 = false /\ jsonArrayWriter.closed j0 = false.
Proof.
  unfold newJSONArrayWriter. simpl. intros H. injection H as <-.
  repeat split.
Qed.

(** The state of the writer after a run of appends. *)
Lemma appendAll_state rs : forall done j,
  healthy j ->
  diskOf j = "[" +:+ LF +:+ body done ->
  jsonArrayWriter.wroteFirst j = match done with [] => false | _ :: _ => true end ->
  healthy (appendAll M j rs) /\
  diskOf (appendAll M j rs) = "[" +:+ LF +:+ body (done ++ rs) /\
  jsonArrayWriter.wroteFirst (appendAll M j rs) =
    match done ++ rs with [] => false | _ :: _ => true end.
Proof.
  induction rs as [|s rs IH]; intros done j Hh Hd Hf.
  - simpl. rewrite app_nil_r. auto.
  - unfold appendAll in *. simpl fold_left.
    rewrite (AppendSession_accepts M j s NoFault Hh eq_refl). simpl fst.
    replace (done ++ s :: rs) with ((done ++ [s]) ++ rs)
      by (now rewrite <- app_assoc).
    apply IH.
    + split; reflexivity.
    + unfold diskOf at 1. simpl. rewrite Hd, body_snoc.
      unfold separator. rewrite Hf.
      destruct done; simpl separatorAfter; now rewrite !StringFacts.app_assoc.
    + simpl. destruct done; reflexivity.
Qed.

(** Open, append [rs], close: what the file holds and how it reads. *)
Lemma log_file_reads_back (stamp : string) (j0 : jsonArrayWriter.t)
    (rs : list session.t) :
  newJSONArrayWriter stamp NoFault = inl j0 ->
  Forall good rs ->
  let j := appendAll M j0 rs in
  Json.Unmarshal (diskOf (fst (Close j NoFault))) = Some rs /\
  snd (Close j NoFault) = None /\
  Json.Unmarshal (diskOf j +:+ closingToken) = Some rs /\
  (forall s io,
      (accepts io = true ->
       diskOf (fst (AppendSession M j s io)) =
       diskOf j +:+ separatorAfter rs +:+ M s) /\
      (exists extra, diskOf (fst (AppendSession M j s io)) = diskOf j +:+ extra) /\
      diskOf (fst (AppendSession M j s (WriteFault 0))) = diskOf j).
Proof.
  intros Hopen Hall j.
  destruct (newJSONArrayWriter_opens stamp j0 Hopen) as (Hh & Hd & Hf & _).
  destruct (appendAll_state rs [] j0 Hh) as (Hh' & Hd' & Hf').
  { rewrite Hd. reflexivity. }
  { exact Hf. }
  fold j in Hh', Hd', Hf'. simpl app in Hd', Hf'.
  assert (Hfile : Json.Unmarshal (diskOf j +:+ closingToken) = Some rs).
  { rewrite Hd', !StringFacts.app_assoc. now apply Unmarshal_file. }
  split; [|split; [|split]].
  - rewrite (Close_accepts j NoFault Hh' eq_refl). unfold diskOf at 1. simpl.
    exact Hfile.
  - now rewrite (Close_accepts j NoFault Hh' eq_refl).
  - exact Hfile.
  - intros s io. split.
    + intros Hio. rewrite (AppendSession_accepts M j s io Hh' Hio).
      unfold diskOf at 1. simpl. unfold separator. rewrite Hf'.
      destruct rs; reflexivity.
    + split; [apply AppendSession_extends|].
      now apply AppendSession_refused.
Qed.
End LogFacts.

(** C3: open the writer, append the records [rs], close: the file reads
    back as exactly [rs], in order.  Before closing, the file followed by
    the closing token reads back as [rs] too, after every append.  The next
    append adds the separator exactly when a record came before, and the
    record; and whether it succeeds or fails, the bytes written so far stay
    in place, and a write the file refuses leaves the file as it was, so
    the records before a failed append stay intact and readable.  The
    strings of the records are taken to survive the string encoder of
    [encoding/json]. *)
Theorem log_reads_back (quote : string -> string) (stamp : string)
    (j0 : jsonArrayWriter.t) (rs : list session.t) :
  newJSONArrayWriter stamp NoFault = inl j0 ->
  Forall (sessionReadsBack quote) rs ->
  let j := appendAll (Json.Marshal quote) j0 rs in
  Json.Unmarshal (diskOf (fst (Close j NoFault))) = Some rs /\
  snd (Close j NoFault) = None /\
  Json.Unmarshal (diskOf j +:+ closingToken) = Some rs /\
  (forall s io,
      (accepts io = true ->
       diskOf (fst (AppendSession (Json.Marshal quote) j s io)) =
       diskOf j +:+ separatorAfter rs +:+ Json.Marshal quote s) /\
      (exists extra,
        diskOf (fst (AppendSession (Json.Marshal quote) j s io)) =
        diskOf j +:+ extra) /\
      diskOf (fst (AppendSession (Json.Marshal quote) j s (WriteFault 0))) =
      diskOf j).
Proof.
  apply (log_file_reads_back (Json.Marshal quote) (sessionReadsBack quote)).
  - apply JsonFacts.Marshal_head.
  - intros s rest. apply JsonFacts.readSession_Marshal.
Qed.

(** With the string encoder on bytes no assumption is left: every list of
    records reads back. *)
Corollary log_reads_back_bytes (stamp : string) (j0 : jsonArrayWriter.t)
    (rs : list session.t) :
  newJSONArrayWriter stamp NoFault = inl j0 ->
  Json.Unmarshal (diskOf (fst (Close (appendAll marshalBytes j0 rs) NoFault)))
  = Some rs.
Proof.
  intros Hopen.
  refine (proj1 (log_file_reads_back marshalBytes (fun _ => True) _ _
                   stamp j0 rs Hopen _)).
  - apply JsonFacts.Marshal_head.
  - intros s rest _. apply JsonFacts.readSession_Marshal.
    apply QuoteFacts.quoteBytes_session.
  - clear. induction rs; constructor; auto.
Qed.

(** ** From the samples to the file *)

Section EndToEnd.
Variable unicodeLower : string -> string.
Variable formatRFC3339 : Time -> string.
Variable M : session.t -> string.

Local Abbreviation run := (loop unicodeLower formatRFC3339 M).
Local Abbreviation tick := (onTick unicodeLower formatRFC3339 M).

Local Abbreviation sound := (inStep M).

Lemma append_inStep (st : loopState.t) (s : session.t) (tr : list effect)
    (last : option record.t) (start : Time) :
  sound st ->
  appended tr = appended (loopState.trace st) ++ [s] ->
  sound {| loopState.last := last; loopState.sessStart := start;
            loopState.jw := fst (AppendSession M (loopState.jw st) s NoFault);
            loopState.trace := tr |}.
Proof.
  intros (Hh & Hd & Hf) Htr. unfold inStep. simpl.
  rewrite (AppendSession_accepts M _ s NoFault Hh eq_refl). simpl.
  split; [split; reflexivity|]. split.
  - unfold diskOf at 1. simpl. rewrite Htr, Hd.
    rewrite (body_snoc M). unfold separator. rewrite Hf.
    destruct (appended (loopState.trace st)); simpl separatorAfter;
      now rewrite !StringFacts.app_assoc.
  - rewrite Htr. now destruct (appended (loopState.trace st)).
Qed.

Lemma tick_inStep st sample now :
  sound st -> sound (tick st sample now NoFault).
Proof.
  intros Hst. destruct sample as [[app title] | e].
  - rewrite tick_sample. destruct (loopState.last st) as [l|].
    + destruct (changed _ _); [|exact Hst]. cbv zeta.
      apply append_inStep; [exact Hst|]. rewrite appended_app. reflexivity.
    + destruct Hst as (Hh & Hd & Hf). unfold inStep. simpl.
      rewrite appended_app. simpl. rewrite app_nil_r. auto.
  - destruct Hst as (Hh & Hd & Hf). unfold inStep, onTick. simpl.
    rewrite appended_app. simpl. rewrite app_nil_r. auto.
Qed.

(** Along a run without faults the file is the opening token, the records
    handed to the writer in order, and the closing token once the signal
    has come. *)
Lemma run_file evs : forall st,
  sound st -> faultFree evs = true ->
  diskOf (loopState.jw (stateOf (run evs st))) =
  "[" +:+ LF +:+ fileBody M (appended (loopState.trace (stateOf (run evs st))))
  +:+ (if signalled evs then closingToken else "").
Proof.
  induction evs as [|ev evs IH]; intros st Hst Hff.
  - simpl. rewrite StringFacts.app_nil_r. apply Hst.
  - destruct ev as [sample now io | now io ioClose].
    + simpl in Hff. destruct io; try discriminate.
      change (run (Tick sample now NoFault :: evs) st)
        with (run evs (tick st sample now NoFault)).
      simpl signalled. apply IH; [now apply tick_inStep | exact Hff].
    + simpl in Hff. destruct io; try discriminate.
      destruct ioClose; try discriminate. simpl signalled.
      change (stateOf (run (Signal now NoFault NoFault :: evs) st))
        with (shutdown (onSignal formatRFC3339 M st now NoFault) NoFault).
      rewrite shutdown_appended.
      assert (Hsig : sound (onSignal formatRFC3339 M st now NoFault)).
      { destruct (loopState.last st) as [l|] eqn:El.
        - rewrite (signal_open formatRFC3339 M st now NoFault l El). cbv zeta.
          apply append_inStep; [exact Hst|]. rewrite appended_app. reflexivity.
        - now rewrite (signal_none formatRFC3339 M st now NoFault El). }
      destruct Hsig as (Hh & Hd & _).
      rewrite shutdown_eq. cbv zeta. simpl loopState.jw.
      rewrite (Close_accepts _ NoFault Hh eq_refl). unfold diskOf at 1. simpl.
      rewrite Hd. unfold closingToken. now rewrite !StringFacts.app_assoc.
Qed.
End EndToEnd.

(** The scenario of the specification, then the signal at 10 s: the file
    reads back as the editor session and the browser session.  (The title
    of the browser holds [.c], in [.com], so the code-file rule labels it.) *)
Example editorThenBrowser_file :
  let st := stateOf
    (loop lowerCaseless formatNanos marshalBytes
       (editorThenBrowser ++ [Signal (mkTime 10000000000) NoFault NoFault])
       (initState freshWriter)) in
  Json.Unmarshal (diskOf (loopState.jw st)) =
  Some [{| session.Start := "0ns"; session.End := "3000000000ns";
           session.App := "Editor"; session.Title := "main.go - proj";
           session.Activity := "プログラムの制作"; session.DurationSec := 3 |};
        {| session.Start := "3000000000ns"; session.End := "10000000000ns";
           session.App := "Browser"; session.Title := "github.com/foo";
           session.Activity := "プログラムの制作"; session.DurationSec := 7 |}].
Proof. vm_compute. reflexivity. Qed.

(** A write that breaks off after the separator: the first record is still
    there, and the file up to it reads back; the torn tail itself does not
    read as part of an array. *)
Example torn_append_keeps_the_records_before :
  let s1 := sessionFrom formatNanos editorRecord (mkTime 0) (mkTime 3000000000) in
  let j1 := appendAll marshalBytes freshWriter [s1] in
  let j2 := fst (AppendSession marshalBytes j1 s1 (WriteFault 1)) in
  diskOf j2 = diskOf j1 +:+ "," /\
  Json.Unmarshal (diskOf j1 +:+ closingToken) = Some [s1] /\
  Json.Unmarshal (diskOf j2 +:+ closingToken) = None /\
  snd (AppendSession marshalBytes j2 s1 NoFault) = Some ErrWrite.
Proof. vm_compute. repeat split. Qed.

(** The witness of C3: two sessions, written and read back. *)
Lemma log_reads_back_witness :
  let s1 := sessionFrom formatNanos editorRecord (mkTime 0) (mkTime 3000000000) in
  let s2 := sessionFrom formatNanos
              (sampled lowerCaseless "Browser" "github.com/foo" (mkTime 3000000000))
              (mkTime 3000000000) (mkTime 10000000000) in
  Json.Unmarshal
    (diskOf (fst (Close (appendAll marshalBytes freshWriter [s1; s2]) NoFault)))
  = Some [s1; s2].
Proof.
  intros s1 s2.
  refine (proj1 (log_reads_back Json.quoteBytes "20240101_000000" freshWriter
                   [s1; s2] eq_refl _)).
  repeat constructor; apply QuoteFacts.quoteBytes_readsBack.
Defined.

(** ** The Slack filter *)

Section SlackFacts.
Variable formatRFC3339 : Time -> string.
Variable formatStamp : Time -> string.
Variable encodeMessage : messageEntry.t -> string.

Local Abbreviation handle :=
  (onMessageEvent formatRFC3339 formatStamp encodeMessage).
Local Abbreviation entry := (entryOf formatRFC3339).
Local Abbreviation pathOf := (messagePath formatStamp).

Lemma saved_app t1 t2 : saved (t1 ++ t2) = saved t1 ++ saved t2.
Proof.
  induction t1 as [|e t1 IH]; simpl; [reflexivity|].
  destruct e; simpl; now rewrite ?IH.
Qed.

Lemma saved_whenDebug debug l : saved (whenDebug debug l) = [].
Proof. unfold whenDebug. now destruct debug. Qed.

Lemma say_debug_quiet debug st l : dropped st (say st (whenDebug debug l)).
Proof.
  split; [reflexivity|]. unfold say. simpl.
  now rewrite saved_app, saved_whenDebug, app_nil_r.
Qed.

Lemma dropped_trans st1 st2 st3 :
  dropped st1 st2 -> dropped st2 st3 -> dropped st1 st3.
Proof. intros [H1 H2] [H3 H4]. split; congruence. Qed.

(** What the handler does with an event that passes the filter. *)
Lemma handle_saves debug st ev now now' io :
  saved (slackState.strace
           (let st0 := say st (whenDebug debug
                                 (DebugMsg (MessageEvent.User ev)
                                    (MessageEvent.Channel ev)
                                    (MessageEvent.TimeStamp ev)
                                    (MessageEvent.Text ev))) in
            let (fs, r) := saveMessageJSON formatStamp encodeMessage
                             (slackState.files st0) (entry ev now) now' io in
            {| slackState.files := fs;
               slackState.strace :=
                 slackState.strace st0 ++
                 ESave (entry ev now) r ::
                 match r with
                 | Some e => [ESlackPrint (SaveError e)]
                 | None => []
                 end |}))
  = saved (slackState.strace st) ++ [entry ev now].
Proof.
  cbv zeta.
  destruct (saveMessageJSON _ _ _ _ _ _) as [fs r]. simpl.
  rewrite !saved_app. simpl. rewrite saved_whenDebug, app_nil_r.
  destruct r; reflexivity.
Qed.

(** C8: an event with a subtype is dropped; so is one whose text is
    empty once trimmed; so is one of another author unless everything is
    captured; any other event is saved exactly once, as an entry whose
    metadata hold the channel, the thread timestamp, the author and the
    timestamp of the event, and when the file system takes the write
    exactly one file is written, with that entry. *)
Theorem slack_filter (self : string) (logAll debug : bool)
    (st : slackState.t) (ev : MessageEvent.t) (now now' : Time) (io : fault) :
  let st' := handle self logAll debug st ev now now' io in
  (MessageEvent.SubType ev <> "" -> dropped st st') /\
  (GoStrings.TrimSpace (MessageEvent.Text ev) = "" -> dropped st st') /\
  (logAll = false -> MessageEvent.User ev <> self -> dropped st st') /\
  (qualifies self logAll ev ->
   let m := entry ev now in
   saved (slackState.strace st') = saved (slackState.strace st) ++ [m] /\
   messageEntry.Meta m !! "channelId" = Some (MessageEvent.Channel ev) /\
   messageEntry.Meta m !! "threadTs" = Some (MessageEvent.ThreadTimeStamp ev) /\
   messageEntry.Meta m !! "userId" = Some (MessageEvent.User ev) /\
   messageEntry.Meta m !! "ts" = Some (MessageEvent.TimeStamp ev) /\
   (io = NoFault ->
    slackState.files st' =
    <[pathOf m now' := encodeMessage m]> (slackState.files st))).
Proof.
  intros st'. cbv zeta. unfold st', onMessageEvent.
  destruct (String.eqb_spec (MessageEvent.SubType ev) "") as [Es | Es];
    simpl negb; cbv iota.
  2:{ pose proof (say_debug_quiet debug st
                    (DropSubtype (MessageEvent.SubType ev)
                       (MessageEvent.User ev) (MessageEvent.Channel ev))) as Hq.
      split; [intros _; exact Hq|]. split; [intros _; exact Hq|].
      split; [intros _ _; exact Hq|]. intros (H & _). contradiction. }
  destruct (String.eqb_spec (GoStrings.TrimSpace (MessageEvent.Text ev)) "")
    as [Et | Et].
  { pose proof (say_debug_quiet debug st
                  (DropEmptyText (MessageEvent.User ev)
                     (MessageEvent.Channel ev))) as Hq.
    split; [intros _; exact Hq|]. split; [intros _; exact Hq|].
    split; [intros _ _; exact Hq|]. intros (_ & H & _). contradiction. }
  assert (Hsave : forall m, m = entry ev now ->
    saved (slackState.strace
             (let (fs, r) := saveMessageJSON formatStamp encodeMessage
                               (slackState.files
                                  (say st (whenDebug debug
                                             (DebugMsg (MessageEvent.User ev)
                                                (MessageEvent.Channel ev)
                                                (MessageEvent.TimeStamp ev)
                                                (MessageEvent.Text ev)))))
                               m now' io in
              {| slackState.files := fs;
                 slackState.strace :=
                   slackState.strace
                     (say st (whenDebug debug
                                (DebugMsg (MessageEvent.User ev)
                                   (MessageEvent.Channel ev)
                                   (MessageEvent.TimeStamp ev)
                                   (MessageEvent.Text ev)))) ++
                   ESave m r ::
                   match r with
                   | Some e => [ESlackPrint (SaveError e)]
                   | None => []
                   end |}))
    = saved (slackState.strace st) ++ [m]).
  { intros m ->. exact (handle_saves debug st ev now now' io). }
  destruct logAll; simpl negb; simpl andb; cbv iota.
  - split; [intros H; contradiction|]. split; [intros H; contradiction|].
    split; [discriminate|]. intros _.
    split; [exact (Hsave (entry ev now) eq_refl)|].
    split; [reflexivity|]. split; [reflexivity|]. split; [reflexivity|].
    split; [reflexivity|]. intros ->. reflexivity.
  - destruct (String.eqb_spec (MessageEvent.User ev) self) as [Eu | Eu];
      simpl negb; cbv iota.
    + split; [intros H; contradiction|]. split; [intros H; contradiction|].
      split; [intros _ H; contradiction|]. intros _.
      split; [exact (Hsave (entry ev now) eq_refl)|].
      split; [reflexivity|]. split; [reflexivity|]. split; [reflexivity|].
      split; [reflexivity|]. intros ->. reflexivity.
    + split; [intros H; contradiction|]. split; [intros H; contradiction|].
      split.
      * intros _ _.
        eapply dropped_trans; apply say_debug_quiet.
      * intros (_ & _ & [H | H]); [discriminate | contradiction].
Qed.
End SlackFacts.

(** The witness of C8: the operator's own message is saved, once, under
    a name made of the stamp and the sanitized channel. *)
Lemma slack_filter_witness :
  let st' := onMessageEvent formatNanos formatNanos textOnly "U123" false false
               noFiles ownMessage (mkTime 5) (mkTime 6) NoFault in
  saved (slackState.strace st') = [entryOf formatNanos ownMessage (mkTime 5)] /\
  slackState.files st' =
    <[pathJoin messageDir "msg_6ns_C42-ops.json" := "deploy done"]> ∅.
Proof.
  pose proof (slack_filter formatNanos formatNanos textOnly "U123" false false
                noFiles ownMessage (mkTime 5) (mkTime 6) NoFault)
    as (_ & _ & _ & H).
  assert (Hq : qualifies "U123" false ownMessage).
  { split; [reflexivity|]. split; [vm_compute; discriminate | right; reflexivity]. }
  destruct (H Hq) as (Hs & _ & _ & _ & _ & Hf).
  split; [exact Hs | exact (Hf eq_refl)].
Defined.

(** Events the filter drops: an edit, blank text, another author. *)
Example slack_filter_drops :
  let run ev := onMessageEvent formatNanos formatNanos textOnly "U123" false false
                  noFiles ev (mkTime 5) (mkTime 6) NoFault in
  let edit := {| MessageEvent.SubType := "message_changed";
                 MessageEvent.Text := "deploy done"; MessageEvent.User := "U123";
                 MessageEvent.Channel := "C42"; MessageEvent.ThreadTimeStamp := "";
                 MessageEvent.TimeStamp := "1" |} in
  let blank := {| MessageEvent.SubType := "";
                  MessageEvent.Text := "  " +:+ LF; MessageEvent.User := "U123";
                  MessageEvent.Channel := "C42"; MessageEvent.ThreadTimeStamp := "";
                  MessageEvent.TimeStamp := "1" |} in
  let other := {| MessageEvent.SubType := "";
                  MessageEvent.Text := "hello"; MessageEvent.User := "U999";
                  MessageEvent.Channel := "C42"; MessageEvent.ThreadTimeStamp := "";
                  MessageEvent.TimeStamp := "1" |} in
  run edit = noFiles /\ run blank = noFiles /\ run other = noFiles.
Proof. repeat split. Qed.

(** * More properties of the code *)

(** ** Strings: prefixes, substrings, trimming *)

Module TrimFacts.
Import GoStrings.

Lemma HasPrefix_iff s p : HasPrefix s p = true <-> exists post, s = p +:+ post.
Proof.
  unfold HasPrefix. revert s. induction p as [|x p IH]; intros s.
  - split; [intros _; exists s; reflexivity | now destruct s].
  - destruct s as [|y s]; simpl.
    + split; [discriminate | intros [post H]; discriminate].
    + destruct (ascii_dec x y) as [-> | N].
      * rewrite IH. split; intros [post H]; exists post.
        -- now rewrite H.
        -- now injection H.
      * split; [discriminate|]. intros [post H]. injection H as H1 _.
        now elim N.
Qed.

Lemma Contains_iff s sub :
  Contains s sub = true <-> exists pre post, s = pre +:+ sub +:+ post.
Proof.
  induction s as [|c s IH].
  - change (Contains "" sub) with (HasPrefix "" sub || false).
    rewrite orb_false_r, HasPrefix_iff. split.
    + intros [post H]. exists "", post. exact H.
    + intros (pre & post & H). destruct pre; [|discriminate].
      exists post. exact H.
  - change (Contains (String c s) sub)
      with (HasPrefix (String c s) sub || Contains s sub).
    rewrite orb_true_iff, HasPrefix_iff, IH. split.
    + intros [[post H] | (pre & post & H)].
      * exists "", post. exact H.
      * exists (String c pre), post. simpl. now rewrite H.
    + intros (pre & post & H). destruct pre as [|x pre].
      * left. exists post. exact H.
      * right. simpl in H. injection H as _ H. eauto.
Qed.

(** A substring of a substring is a substring. *)
Lemma Contains_trans s k k' :
  Contains s k = true -> Contains k k' = true -> Contains s k' = true.
Proof.
  rewrite !Contains_iff. intros (p1 & q1 & ->) (p2 & q2 & ->).
  exists (p1 +:+ p2), (q2 +:+ q1). now rewrite !StringFacts.app_assoc.
Qed.

Lemma strRev_app a b : strRev (a +:+ b) = strRev b +:+ strRev a.
Proof.
  induction a as [|x a IH]; simpl.
  - now rewrite StringFacts.app_nil_r.
  - now rewrite IH, StringFacts.app_assoc.
Qed.

Lemma strRev_involutive s : strRev (strRev s) = s.
Proof.
  induction s as [|x s IH]; simpl; [reflexivity|].
  now rewrite strRev_app, IH.
Qed.

Lemma strRev_length s : String.length (strRev s) = String.length s.
Proof.
  induction s as [|x s IH]; simpl; [reflexivity|].
  rewrite StringFacts.length_app, IH. simpl. lia.
Qed.

Lemma take_drop n s : takeBytes n s +:+ dropBytes n s = s.
Proof.
  revert s. induction n as [|n IH]; intros [|c s]; simpl; try reflexivity.
  now rewrite IH.
Qed.

Lemma dropBytes_length n s :
  String.length (dropBytes n s) = (String.length s - n)%nat.
Proof.
  revert s. induction n as [|n IH]; intros [|c s]; simpl; auto; lia.
Qed.

(** What [stripOne] decides. *)
Lemma stripOne_Some runes s s' :
  stripOne runes s = Some s' ->
  exists r, In r runes /\ s = r +:+ s'.
Proof.
  induction runes as [|r runes IH]; simpl; [discriminate|].
  destruct (HasPrefix s r) eqn:E.
  - intros H. injection H as <-. exists r. split; [now left|].
    apply HasPrefix_iff in E as [post ->].
    now rewrite StringFacts.dropBytes_app.
  - intros H. destruct (IH H) as (r' & Hin & Hs). exists r'. auto.
Qed.

Lemma stripOne_None runes s :
  stripOne runes s = None <-> forall r, In r runes -> HasPrefix s r = false.
Proof.
  induction runes as [|r runes IH]; simpl.
  - split; [intros _ r [] | reflexivity].
  - destruct (HasPrefix s r) eqn:E.
    + split; [discriminate|]. intros H. specialize (H r (or_introl eq_refl)).
      congruence.
    + rewrite IH. split.
      * intros H r' [<- | Hin]; auto.
      * intros H r' Hin. apply H. now right.
Qed.

(** With fuel for every byte, stripping stops only when no rune is left
    at the front. *)
Lemma stripMany_done runes : (forall r, In r runes -> r <> "") ->
  forall fuel s, (String.length s <= fuel)%nat ->
  stripOne runes (stripMany fuel runes s) = None.
Proof.
  intros Hne. induction fuel as [|fuel IH]; intros s Hlen.
  - destruct s; [|simpl in Hlen; lia]. simpl.
    apply stripOne_None. intros r Hin. specialize (Hne r Hin).
    destruct r; [congruence | reflexivity].
  - simpl. destruct (stripOne runes s) as [s'|] eqn:E; [|exact E].
    apply IH. destruct (stripOne_Some _ _ _ E) as (r & Hin & ->).
    rewrite StringFacts.length_app in Hlen. specialize (Hne r Hin).
    destruct r; [congruence | simpl in Hlen; lia].
Qed.

(** Stripping removes a prefix. *)
Lemma stripMany_drop runes fuel : forall s,
  exists n, stripMany fuel runes s = dropBytes n s.
Proof.
  induction fuel as [|fuel IH]; intros s.
  - exists 0%nat. reflexivity.
  - simpl. destruct (stripOne runes s) as [s'|] eqn:E.
    + destruct (stripOne_Some _ _ _ E) as (r & _ & ->).
      destruct (IH s') as [n Hn]. exists (String.length r + n)%nat.
      rewrite Hn. clear. induction r as [|x r IHr]; simpl; auto.
    + exists 0%nat. reflexivity.
Qed.

Lemma stripMany_fixed runes fuel s :
  stripOne runes s = None -> stripMany fuel runes s = s.
Proof. intros H. destruct fuel; simpl; [reflexivity | now rewrite H]. Qed.

Lemma spaceRunes_nonempty r : In r spaceRunes -> r <> "".
Proof.
  unfold spaceRunes. simpl. intros H.
  repeat (destruct H as [<- | H]; [discriminate|]). destruct H.
Qed.

Lemma revRunes_nonempty r : In r (map strRev spaceRunes) -> r <> "".
Proof.
  unfold spaceRunes. simpl. intros H.
  repeat (destruct H as [<- | H]; [discriminate|]). destruct H.
Qed.

(** What is left after trimming on the right is a prefix. *)
Lemma TrimRightSpace_prefix s : exists rest, s = TrimRightSpace s +:+ rest.
Proof.
  unfold TrimRightSpace.
  destruct (stripMany_drop (map strRev spaceRunes) (String.length s) (strRev s))
    as [n ->].
  exists (strRev (takeBytes n (strRev s))).
  rewrite <- strRev_app, take_drop. now rewrite strRev_involutive.
Qed.

Lemma TrimLeftSpace_suffix s : exists n, TrimLeftSpace s = dropBytes n s.
Proof. apply stripMany_drop. Qed.

Lemma TrimLeftSpace_done s : stripOne spaceRunes (TrimLeftSpace s) = None.
Proof. apply stripMany_done; [apply spaceRunes_nonempty | lia]. Qed.

Lemma TrimRightSpace_done s :
  stripOne (map strRev spaceRunes) (strRev (TrimRightSpace s)) = None.
Proof.
  unfold TrimRightSpace. rewrite strRev_involutive.
  apply stripMany_done; [apply revRunes_nonempty | rewrite strRev_length; lia].
Qed.

(** [TrimSpace] leaves no white-space rune at either end. *)
Lemma TrimSpace_trimmed s : trimmed (TrimSpace s).
Proof.
  unfold trimmed, TrimSpace. split; [|apply TrimRightSpace_done].
  apply stripOne_None. intros r Hin.
  destruct (HasPrefix (TrimRightSpace (TrimLeftSpace s)) r) eqn:E; [|reflexivity].
  apply HasPrefix_iff in E as [post E].
  destruct (TrimRightSpace_prefix (TrimLeftSpace s)) as [rest Hrest].
  pose proof (TrimLeftSpace_done s) as Hd.
  rewrite stripOne_None in Hd. specialize (Hd r Hin).
  assert (HasPrefix (TrimLeftSpace s) r = true).
  { apply HasPrefix_iff. exists (post +:+ rest).
    rewrite Hrest at 1. rewrite E. now rewrite StringFacts.app_assoc. }
  congruence.
Qed.

(** ... and a string with none at either end is left as it is. *)
Lemma TrimSpace_fixed s : trimmed s -> TrimSpace s = s.
Proof.
  intros [Hl Hr]. unfold TrimSpace, TrimLeftSpace.
  rewrite (stripMany_fixed _ _ _ Hl). unfold TrimRightSpace.
  rewrite (stripMany_fixed _ _ _ Hr). apply strRev_involutive.
Qed.

Lemma TrimSpace_idem s : TrimSpace (TrimSpace s) = TrimSpace s.
Proof. apply TrimSpace_fixed, TrimSpace_trimmed. Qed.

End TrimFacts.

(** ** [clean] *)

Module CleanFacts.
Import GoStrings GoRegexp TrimFacts.

Lemma allBytes_app P a b : allBytes P (a +:+ b) = allBytes P a && allBytes P b.
Proof.
  induction a as [|x a IH]; simpl; [reflexivity|].
  now rewrite IH, andb_assoc.
Qed.

Lemma allBytes_impl (P Q : ascii -> bool) s :
  (forall c, P c = true -> Q c = true) -> allBytes P s = true -> allBytes Q s = true.
Proof.
  intros H. induction s as [|c s IH]; simpl; [reflexivity|].
  intros E. apply andb_prop in E as [E1 E2]. now rewrite (H c E1), (IH E2).
Qed.

Lemma allBytes_TrimSpace P s :
  allBytes P s = true -> allBytes P (TrimSpace s) = true.
Proof.
  intros H. unfold TrimSpace.
  destruct (TrimLeftSpace_suffix s) as [n Hn].
  destruct (TrimRightSpace_prefix (TrimLeftSpace s)) as [rest Hrest].
  rewrite <- (take_drop n s), allBytes_app, <- Hn, Hrest, allBytes_app in H.
  apply andb_prop in H as [_ H]. now apply andb_prop in H as [H _].
Qed.

Lemma allBytes_ReplaceAllByte P s c new :
  allBytes P s = true -> allBytes P new = true ->
  allBytes P (ReplaceAllByte s c new) = true.
Proof.
  intros Hs Hn. induction s as [|x s IH]; simpl; [reflexivity|].
  simpl in Hs. apply andb_prop in Hs as [Hx Hs].
  destruct (Ascii.eqb x c).
  - now rewrite allBytes_app, Hn, IH.
  - simpl. now rewrite Hx, IH.
Qed.

(** Replacing a byte by text without it leaves none of it. *)
Lemma ReplaceAllByte_gone s c new :
  allBytes (fun x => negb (Ascii.eqb x c)) new = true ->
  allBytes (fun x => negb (Ascii.eqb x c)) (ReplaceAllByte s c new) = true.
Proof.
  intros Hn. induction s as [|x s IH]; simpl; [reflexivity|].
  destruct (Ascii.eqb x c) eqn:E.
  - now rewrite allBytes_app, Hn, IH.
  - simpl. now rewrite E, IH.
Qed.

Lemma ReplaceAllByte_fixed s c new :
  allBytes (fun x => negb (Ascii.eqb x c)) s = true -> ReplaceAllByte s c new = s.
Proof.
  induction s as [|x s IH]; simpl; [reflexivity|].
  intros H. apply andb_prop in H as [Hx Hs].
  apply negb_true_iff in Hx. now rewrite Hx, (IH Hs).
Qed.

Lemma allBytes_replaceRuns P b s :
  allBytes P s = true -> P " "%char = true ->
  allBytes P (replaceRuns b " " s) = true.
Proof.
  intros Hs Hsp. revert b. induction s as [|x s IH]; intros b; simpl;
    [reflexivity|].
  simpl in Hs. apply andb_prop in Hs as [Hx Hs].
  destruct (isSpaceClass x).
  - destruct b; [now apply IH|]. simpl. now rewrite Hsp, IH.
  - simpl. now rewrite Hx, IH.
Qed.

Lemma singleSpaces_replaceRuns b s : singleSpaces b (replaceRuns b " " s) = true.
Proof.
  revert b. induction s as [|x s IH]; intros b; simpl; [reflexivity|].
  destruct (isSpaceClass x) eqn:E.
  - destruct b; [apply IH|]. simpl. apply IH.
  - simpl. rewrite E. apply IH.
Qed.

Lemma singleSpaces_weaken b s :
  singleSpaces b s = true -> singleSpaces false s = true.
Proof.
  destruct s as [|x s]; simpl; [reflexivity|].
  destruct (isSpaceClass x); [|auto].
  intros H. apply andb_prop in H as [H Hs]. apply andb_prop in H as [Hx _].
  now rewrite Hx, Hs.
Qed.

Lemma singleSpaces_drop n : forall b s,
  singleSpaces b s = true -> singleSpaces false (dropBytes n s) = true.
Proof.
  induction n as [|n IH]; intros b s H.
  - simpl. now apply (singleSpaces_weaken b).
  - destruct s as [|x s]; [reflexivity|]. simpl in *.
    destruct (isSpaceClass x).
    + apply andb_prop in H as [_ H]. now apply (IH true).
    + now apply (IH false).
Qed.

Lemma singleSpaces_prefix a rest : forall b,
  singleSpaces b (a +:+ rest) = true -> singleSpaces b a = true.
Proof.
  induction a as [|x a IH]; intros b; simpl; [reflexivity|].
  destruct (isSpaceClass x).
  - intros H. apply andb_prop in H as [H Hs]. now rewrite H, (IH _ Hs).
  - apply IH.
Qed.

Lemma singleSpaces_TrimSpace s :
  singleSpaces false s = true -> singleSpaces false (TrimSpace s) = true.
Proof.
  intros H. unfold TrimSpace.
  destruct (TrimLeftSpace_suffix s) as [n Hn].
  destruct (TrimRightSpace_prefix (TrimLeftSpace s)) as [rest Hrest].
  apply (singleSpaces_prefix _ rest). rewrite <- Hrest, Hn.
  now apply (singleSpaces_drop n false).
Qed.

Lemma replaceRuns_fixed s : forall b,
  singleSpaces b s = true -> replaceRuns b " " s = s.
Proof.
  induction s as [|x s IH]; intros b; simpl; [reflexivity|].
  destruct (isSpaceClass x).
  - intros H. apply andb_prop in H as [H Hs]. apply andb_prop in H as [Hx Hb].
    apply negb_true_iff in Hb. subst b. apply Ascii.eqb_eq in Hx. subst x.
    simpl. now rewrite (IH true Hs).
  - intros H. now rewrite (IH false H).
Qed.

(** In a string of single spaces, a byte of the class [\s] is a space. *)
Lemma singleSpaces_bytes b s :
  singleSpaces b s = true ->
  allBytes (fun c => negb (isSpaceClass c) || Ascii.eqb c " ") s = true.
Proof.
  revert b. induction s as [|x s IH]; intros b; simpl; [reflexivity|].
  destruct (isSpaceClass x); simpl.
  - intros H. apply andb_prop in H as [H Hs]. apply andb_prop in H as [Hx _].
    now rewrite Hx, (IH _ Hs).
  - intros H. now rewrite (IH _ H).
Qed.

Lemma plain_of_space_and_nul c :
  notByte 0 c = true ->
  negb (isSpaceClass c) || Ascii.eqb c " " = true ->
  plainByte c = true.
Proof. destruct c as [[] [] [] [] [] [] [] []]; vm_compute; congruence. Qed.

Lemma plainByte_not c n :
  plainByte c = true -> (n = 0 \/ n = 9)%N -> negb (Ascii.eqb c (ascii_of_N n)) = true.
Proof.
  intros H [-> | ->]; revert H;
    destruct c as [[] [] [] [] [] [] [] []]; vm_compute; congruence.
Qed.

Lemma allBytes_and P Q s :
  allBytes P s = true -> allBytes Q s = true ->
  allBytes (fun c => P c && Q c) s = true.
Proof.
  induction s as [|x s IH]; simpl; [reflexivity|].
  intros H1 H2. apply andb_prop in H1 as [H1 H1'].
  apply andb_prop in H2 as [H2 H2']. now rewrite H1, H2, IH.
Qed.

(** The three steps of [clean], one after the other. *)
Lemma clean_steps (s : string) :
  allBytes (notByte 0) (clean s) = true /\
  singleSpaces false (clean s) = true /\
  trimmed (clean s).
Proof.
  unfold clean.
  set (u0 := ReplaceAllByte s (ascii_of_N 0) "").
  set (u1 := ReplaceAllByte u0 (ascii_of_N 9) " ").
  set (u2 := spaceRe_ReplaceAllString u1 " ").
  assert (H0 : allBytes (notByte 0) u0 = true).
  { apply (allBytes_impl (fun x => negb (Ascii.eqb x (ascii_of_N 0)))).
    - intros c. destruct c as [[] [] [] [] [] [] [] []]; vm_compute; congruence.
    - apply ReplaceAllByte_gone. reflexivity. }
  assert (H1 : allBytes (notByte 0) u1 = true)
    by (apply allBytes_ReplaceAllByte; [exact H0 | reflexivity]).
  assert (H2 : allBytes (notByte 0) u2 = true)
    by (apply allBytes_replaceRuns; [exact H1 | reflexivity]).
  assert (S2 : singleSpaces false u2 = true) by apply singleSpaces_replaceRuns.
  split; [exact (allBytes_TrimSpace _ _ H2)|].
  split; [exact (singleSpaces_TrimSpace _ S2) | apply TrimSpace_trimmed].
Qed.

(** Without NUL bytes and with single spaces only, a text has no control
    byte of the class [\s] left. *)
Lemma plain_of_steps (s : string) :
  allBytes (notByte 0) s = true -> singleSpaces false s = true ->
  allBytes plainByte s = true.
Proof.
  intros H0 Hs.
  apply (allBytes_impl
           (fun c => notByte 0 c && (negb (isSpaceClass c) || Ascii.eqb c " "))).
  - intros c H. apply andb_prop in H as [Ha Hb].
    now apply plain_of_space_and_nul.
  - apply allBytes_and; [exact H0 | now apply (singleSpaces_bytes false)].
Qed.

(** X1: whatever the input, a cleaned string holds no NUL byte, no tab and
    no line break; its spaces stand alone; and it has no white space at
    either end. *)
Theorem clean_tidy (s : string) :
  allBytes plainByte (clean s) = true /\
  singleSpaces false (clean s) = true /\
  trimmed (clean s).
Proof.
  destruct (clean_steps s) as (H0 & Hs & Ht).
  split; [|split; [exact Hs | exact Ht]].
  apply plain_of_steps; [exact H0 | exact Hs].
Qed.

Lemma clean_fixed s :
  allBytes plainByte s = true -> singleSpaces false s = true -> trimmed s ->
  clean s = s.
Proof.
  intros Hp Hs Ht. unfold clean.
  rewrite (ReplaceAllByte_fixed s (ascii_of_N 0)).
  2:{ apply (allBytes_impl plainByte); [|exact Hp].
      intros c H. apply (plainByte_not c 0 H). now left. }
  rewrite (ReplaceAllByte_fixed s (ascii_of_N 9)).
  2:{ apply (allBytes_impl plainByte); [|exact Hp].
      intros c H. apply (plainByte_not c 9 H). now right. }
  unfold spaceRe_ReplaceAllString. rewrite (replaceRuns_fixed s false Hs).
  now apply TrimSpace_fixed.
Qed.

(** X2: cleaning a cleaned string changes nothing. *)
Theorem clean_idempotent (s : string) : clean (clean s) = clean s.
Proof.
  destruct (clean_steps s) as (H0 & Hs & Ht).
  apply clean_fixed; [|exact Hs | exact Ht].
  apply plain_of_steps; [exact H0 | exact Hs].
Qed.

End CleanFacts.

(** ** The writer under faults *)

Section WriterFaults.
Variable M : session.t -> string.

Lemma Close_extends j io :
  exists extra, diskOf (fst (Close j io)) = diskOf j +:+ extra.
Proof.
  unfold Close, diskOf, bufio.WriteString, bufio.Flush.
  destruct j as [p w c f]. destruct w as [d b e]. simpl.
  destruct e as [e|]; simpl.
  - exists "". symmetry. apply StringFacts.app_nil_r.
  - match goal with
    | |- context [match ?pending with EmptyString => _ | String _ _ => _ end] =>
        destruct pending
    end; simpl.
    + exists "". symmetry. apply StringFacts.app_nil_r.
    + destruct io; simpl; eauto.
Qed.

(** Once the writer holds an error, an append reports it and writes
    nothing; so does [Close], which does not close the file. *)
Lemma failed_writer_stays_failed j e :
  bufio.err (jsonArrayWriter.w j) = Some e ->
  (forall s io,
      snd (AppendSession M j s io) = Some e /\
      jsonArrayWriter.w (fst (AppendSession M j s io)) = jsonArrayWriter.w j /\
      jsonArrayWriter.closed (fst (AppendSession M j s io)) =
      jsonArrayWriter.closed j) /\
  (forall io,
      snd (Close j io) = Some e /\
      jsonArrayWriter.w (fst (Close j io)) = jsonArrayWriter.w j /\
      jsonArrayWriter.closed (fst (Close j io)) = jsonArrayWriter.closed j).
Proof.
  intros He. destruct j as [p w c f]. destruct w as [d b e']. simpl in He.
  subst e'. split.
  - intros s io. unfold AppendSession, bufio.WriteString.
    destruct f; simpl; repeat split.
  - intros io. unfold Close, bufio.WriteString. simpl. repeat split.
Qed.

(** A write the file does not take in full puts the writer in that state. *)
Lemma write_fault_sticks j s n :
  healthy j -> separator j +:+ M s <> "" ->
  snd (AppendSession M j s (WriteFault n)) = Some ErrWrite /\
  bufio.err (jsonArrayWriter.w (fst (AppendSession M j s (WriteFault n))))
  = Some ErrWrite.
Proof.
  intros [He Hb] Hne. unfold AppendSession, separator in *.
  destruct j as [p w c f]. destruct w as [d b e]. simpl in *. subst e b.
  unfold bufio.WriteString, bufio.Flush. destruct f; simpl in *.
  - auto.
  - destruct (M s); [congruence | simpl; auto].
Qed.
End WriterFaults.

(** ** More on the poll loop *)

Section LoopFacts.
Variable unicodeLower : string -> string.
Variable formatRFC3339 : Time -> string.
Variable M : session.t -> string.

Local Abbreviation run := (loop unicodeLower formatRFC3339 M).
Local Abbreviation tick := (onTick unicodeLower formatRFC3339 M).
Local Abbreviation signal := (onSignal formatRFC3339 M).
Local Abbreviation finalize := (sessionFrom formatRFC3339).
Local Abbreviation sample := (sampled unicodeLower).

Lemma tiled_snoc l s :
  tiled l -> (forall e, lastEnd l = Some e -> e = session.Start s) ->
  tiled (l ++ [s]).
Proof.
  induction l as [|a l IH]; intros Ht Hl; [exact I|].
  destruct l as [|b l].
  - simpl. split; [|exact I]. now apply Hl.
  - destruct Ht as [Hab Ht]. split; [exact Hab|]. apply IH; [exact Ht|].
    exact Hl.
Qed.

Lemma lastEnd_snoc l s : lastEnd (l ++ [s]) = Some (session.End s).
Proof.
  induction l as [|a l IH]; [reflexivity|].
  destruct l as [|b l]; [reflexivity|]. exact IH.
Qed.

Local Abbreviation tiling := (tilingOf formatRFC3339).

Lemma tick_tiling st smp now io : tiling st -> tiling (tick st smp now io).
Proof.
  intros [Ht Hl]. destruct smp as [[app title] | e].
  - rewrite tick_sample. destruct (loopState.last st) as [l|] eqn:El.
    + destruct (changed _ _); [|split; [exact Ht | now rewrite El]].
      cbv zeta. unfold tilingOf. simpl. rewrite appended_app. simpl.
      split.
      * apply tiled_snoc; [exact Ht | exact Hl].
      * intros e. rewrite lastEnd_snoc. intros H. now injection H as <-.
    + unfold tilingOf. simpl. rewrite appended_app. simpl. rewrite app_nil_r.
      split; [exact Ht|]. rewrite Hl. discriminate.
  - unfold tilingOf, onTick. simpl. rewrite appended_app. simpl.
    rewrite app_nil_r. split; [exact Ht | exact Hl].
Qed.

Lemma run_tiled evs : forall st,
  tiling st -> tiled (appended (loopState.trace (stateOf (run evs st)))).
Proof.
  induction evs as [|ev evs IH]; intros st Hst; [apply Hst|].
  destruct ev as [smp now io | now io ioClose].
  - apply IH. now apply tick_tiling.
  - change (stateOf (run (Signal now io ioClose :: evs) st))
      with (shutdown (signal st now io) ioClose).
    rewrite shutdown_appended, signal_appended.
    destruct Hst as [Ht Hl]. destruct (loopState.last st) as [l|].
    + apply tiled_snoc; [exact Ht | exact Hl].
    + now rewrite app_nil_r.
Qed.

(** X3: the records of a run tile the time line: each one starts at the
    instant the one before it ended. *)
Theorem sessions_tile (jw : jsonArrayWriter.t) (evs : list event) :
  tiled (appended (loopState.trace (stateOf (run evs (initState jw))))).
Proof. apply run_tiled. split; [exact I | reflexivity]. Qed.

Lemma calls_app t1 t2 : calls (t1 ++ t2) = calls t1 ++ calls t2.
Proof.
  induction t1 as [|e t1 IH]; simpl; [reflexivity|].
  destruct e; simpl; now rewrite ?IH.
Qed.

Lemma tick_alike st st' smp now io :
  alike st st' -> alike (tick st smp now io) (tick st' smp now io).
Proof.
  intros H. pose proof H as (Hl & Hs & Hj & Hc).
  destruct smp as [[app title] | e].
  - rewrite !tick_sample, <- Hl, <- Hs, <- Hj.
    destruct (loopState.last st) as [l|].
    + destruct (changed _ _); [|exact H].
      cbv zeta. unfold alike. simpl. rewrite !calls_app, Hc. auto.
    + unfold alike. simpl. rewrite !calls_app, Hc. auto.
  - unfold alike, onTick. simpl. rewrite !calls_app, Hc. auto.
Qed.

Lemma failed_tick_alike st e now io : alike (tick st (inr e) now io) st.
Proof.
  unfold alike, onTick. simpl. rewrite calls_app. simpl.
  now rewrite app_nil_r.
Qed.

Lemma alike_trans a b c : alike a b -> alike b c -> alike a c.
Proof.
  intros (H1 & H2 & H3 & H4) (H5 & H6 & H7 & H8). repeat split; congruence.
Qed.

Lemma stop_alike st st' now io ioClose :
  alike st st' ->
  alike (shutdown (signal st now io) ioClose)
        (shutdown (signal st' now io) ioClose).
Proof.
  intros (Hl & Hs & Hj & Hc). rewrite !shutdown_eq. cbv zeta.
  destruct (loopState.last st) as [l|] eqn:El.
  - rewrite (signal_open _ _ st now io l El).
    rewrite (signal_open _ _ st' now io l) by congruence.
    cbv zeta. rewrite <- Hs, <- Hj. unfold alike. simpl.
    rewrite ?calls_app. simpl. rewrite ?calls_app, Hc. simpl.
    repeat split; congruence.
  - rewrite (signal_none _ _ st now io El).
    rewrite (signal_none _ _ st' now io) by congruence.
    rewrite <- Hj. unfold alike. simpl. rewrite ?calls_app, Hc. simpl.
    repeat split; congruence.
Qed.

Lemma run_dropFailed evs : forall st st',
  alike st st' ->
  alike (stateOf (run evs st)) (stateOf (run (dropFailed evs) st')) /\
  signalled (dropFailed evs) = signalled evs.
Proof.
  induction evs as [|ev evs IH]; intros st st' H; [now split|].
  destruct ev as [[p | e] now io | now io ioClose].
  - apply (IH (tick st (inl p) now io) (tick st' (inl p) now io)).
    now apply tick_alike.
  - apply (IH (tick st (inr e) now io) st').
    eapply alike_trans; [apply failed_tick_alike | exact H].
  - split; [|reflexivity]. now apply stop_alike.
Qed.

(** X4: ticks whose sample failed leave no mark but the warning: without
    them the loop ends in the same state, with the same open session, the
    same file and the same calls to the writer. *)
Theorem failed_samples_leave_no_mark (st : loopState.t) (evs : list event) :
  alike (stateOf (run evs st)) (stateOf (run (dropFailed evs) st)) /\
  appended (loopState.trace (stateOf (run evs st))) =
  appended (loopState.trace (stateOf (run (dropFailed evs) st))).
Proof.
  assert (Hst : alike st st) by (now repeat split).
  destruct (run_dropFailed evs st st Hst) as [H _]. split; [exact H|].
  destruct H as (_ & _ & _ & Hc).
  assert (Happ : forall tr, appended tr = appended (calls tr)).
  { induction tr as [|e tr IH]; [reflexivity|]. destruct e; simpl; now rewrite ?IH. }
  now rewrite Happ, Hc, <- Happ.
Qed.

(** X5: whatever happens, faults included, the loop only ever adds bytes
    at the end of the file. *)
Theorem file_only_grows (st : loopState.t) (evs : list event) :
  exists extra,
    diskOf (loopState.jw (stateOf (run evs st))) =
    diskOf (loopState.jw st) +:+ extra.
Proof.
  revert st. induction evs as [|ev evs IH]; intros st.
  - exists "". simpl. now rewrite StringFacts.app_nil_r.
  - assert (Happ : forall st0 l now io,
      exists extra,
        diskOf (fst (AppendSession M (loopState.jw st0)
                       (finalize l (loopState.sessStart st0) now) io)) =
        diskOf (loopState.jw st0) +:+ extra)
      by (intros; apply AppendSession_extends).
    destruct ev as [smp now io | now io ioClose].
    + change (run (Tick smp now io :: evs) st) with (run evs (tick st smp now io)).
      destruct (IH (tick st smp now io)) as [x Hx]. rewrite Hx.
      assert (Ht : exists y, diskOf (loopState.jw (tick st smp now io)) =
                             diskOf (loopState.jw st) +:+ y).
      { destruct smp as [[app title] | e].
        - rewrite tick_sample. destruct (loopState.last st) as [l|].
          + destruct (changed _ _).
            * cbv zeta. simpl. apply Happ.
            * exists "". now rewrite StringFacts.app_nil_r.
          + exists "". simpl. now rewrite StringFacts.app_nil_r.
        - exists "". simpl. now rewrite StringFacts.app_nil_r. }
      destruct Ht as [y ->]. exists (y +:+ x).
      now rewrite StringFacts.app_assoc.
    + change (stateOf (run (Signal now io ioClose :: evs) st))
        with (shutdown (signal st now io) ioClose).
      rewrite shutdown_eq. cbv zeta. simpl loopState.jw.
      destruct (Close_extends (loopState.jw (signal st now io)) ioClose)
        as [x ->].
      assert (Hs : exists y, diskOf (loopState.jw (signal st now io)) =
                             diskOf (loopState.jw st) +:+ y).
      { destruct (loopState.last st) as [l|] eqn:El.
        - rewrite (signal_open _ _ st now io l El). cbv zeta. simpl. apply Happ.
        - rewrite (signal_none _ _ st now io El). exists "".
          now rewrite StringFacts.app_nil_r. }
      destruct Hs as [y ->]. exists (y +:+ x).
      now rewrite StringFacts.app_assoc.
Qed.
End LoopFacts.

(** ** The loop under faults *)

Section LoopFaults.
Variable unicodeLower : string -> string.
Variable formatRFC3339 : Time -> string.
Variable M : session.t -> string.

Local Abbreviation run := (loop unicodeLower formatRFC3339 M).
Local Abbreviation tick := (onTick unicodeLower formatRFC3339 M).
Local Abbreviation signal := (onSignal formatRFC3339 M).
Local Abbreviation finalize := (sessionFrom formatRFC3339).

Lemma stuck_refl e st : stuck e st st.
Proof.
  split; [|split; reflexivity]. exists []. split; [|constructor].
  now rewrite app_nil_r.
Qed.

Lemma stuck_trans e a b c : stuck e a b -> stuck e b c -> stuck e a c.
Proof.
  intros ((n1 & H1 & F1) & W1 & C1) ((n2 & H2 & F2) & W2 & C2).
  split; [|split; congruence].
  exists (n1 ++ n2). split.
  - now rewrite H2, H1, <- app_assoc.
  - apply Forall_app. now split.
Qed.

Lemma append_stuck st e s l c tr :
  bufio.err (jsonArrayWriter.w (loopState.jw st)) = Some e ->
  (forall r, allFailed e [EAppend s r] -> allFailed e (tr r)) ->
  forall io,
  stuck e st
    {| loopState.last := l; loopState.sessStart := c;
       loopState.jw := fst (AppendSession M (loopState.jw st) s io);
       loopState.trace :=
         loopState.trace st ++
         tr (snd (AppendSession M (loopState.jw st) s io)) |}.
Proof.
  intros He Htr io.
  destruct (failed_writer_stays_failed M (loopState.jw st) e He) as [Ha _].
  destruct (Ha s io) as (Hr & Hw & Hc).
  split; [|split; [exact Hw | exact Hc]].
  eexists. split; [reflexivity|]. apply Htr. rewrite Hr.
  constructor; [reflexivity | constructor].
Qed.

Lemma tick_stuck st e smp now io :
  bufio.err (jsonArrayWriter.w (loopState.jw st)) = Some e ->
  stuck e st (tick st smp now io).
Proof.
  intros He. destruct smp as [[app title] | e'].
  - rewrite tick_sample. destruct (loopState.last st) as [l|].
    + destruct (changed _ _); [|apply stuck_refl]. cbv zeta.
      apply (append_stuck st e _ _ _
               (fun r => [EAppend _ r; EPrint (endLine r now l _ false);
                          EPrint (OutStart now _)]) He).
      intros r Hr. inversion Hr; subst. repeat constructor.
    + split; [|split; reflexivity]. eexists. split; [reflexivity|].
      repeat constructor.
  - split; [|split; reflexivity]. eexists. split; [reflexivity|].
    repeat constructor.
Qed.

Lemma signal_stuck st e now io :
  bufio.err (jsonArrayWriter.w (loopState.jw st)) = Some e ->
  stuck e st (signal st now io).
Proof.
  intros He. destruct (loopState.last st) as [l|] eqn:El.
  - rewrite (signal_open _ _ st now io l El). cbv zeta.
    apply (append_stuck st e _ _ _
             (fun r => [EAppend _ r; EPrint (endLine r now l _ true)]) He).
    intros r Hr. inversion Hr; subst. repeat constructor.
  - rewrite (signal_none _ _ st now io El). apply stuck_refl.
Qed.

Lemma shutdown_stuck st e ioClose :
  bufio.err (jsonArrayWriter.w (loopState.jw st)) = Some e ->
  stuck e st (shutdown st ioClose).
Proof.
  intros He. rewrite shutdown_eq. cbv zeta.
  destruct (failed_writer_stays_failed M (loopState.jw st) e He) as [_ Hc].
  destruct (Hc ioClose) as (Hr & Hw & Hcl).
  split; [|split; [exact Hw | exact Hcl]].
  eexists. split; [reflexivity|]. rewrite Hr. simpl.
  repeat constructor.
Qed.

(** X6: a write error is final.  Once the buffered writer holds an error,
    every later append and the closing call report that same error, the
    file and the buffer stay as they were, and the file is not closed;
    the loop itself goes on. *)
Theorem write_error_is_final (st : loopState.t) (e : error)
    (evs : list event) :
  bufio.err (jsonArrayWriter.w (loopState.jw st)) = Some e ->
  stuck e st (stateOf (run evs st)).
Proof.
  revert st. induction evs as [|ev evs IH]; intros st He.
  - apply stuck_refl.
  - destruct ev as [smp now io | now io ioClose].
    + change (run (Tick smp now io :: evs) st)
        with (run evs (tick st smp now io)).
      pose proof (tick_stuck st e smp now io He) as Ht.
      apply (stuck_trans e _ _ _ Ht). apply IH.
      destruct Ht as (_ & Hw & _). now rewrite Hw.
    + change (stateOf (run (Signal now io ioClose :: evs) st))
        with (shutdown (signal st now io) ioClose).
      pose proof (signal_stuck st e now io He) as Hs.
      apply (stuck_trans e _ _ _ Hs). apply shutdown_stuck.
      destruct Hs as (_ & Hw & _). now rewrite Hw.
Qed.

Lemma closes_app t1 t2 : closes (t1 ++ t2) = (closes t1 + closes t2)%nat.
Proof.
  induction t1 as [|e t1 IH]; simpl; [reflexivity|].
  destruct e; simpl; now rewrite ?IH.
Qed.

Lemma closes_closeLines r : closes (closeLines r) = 0%nat.
Proof. now destruct r. Qed.

Lemma AppendSession_closed j s io :
  jsonArrayWriter.closed (fst (AppendSession M j s io)) =
  jsonArrayWriter.closed j.
Proof.
  unfold AppendSession.
  destruct (if jsonArrayWriter.wroteFirst j then _ else _) as [w [e|]];
    [reflexivity|].
  destruct (bufio.WriteString w (M s)) as [w1 [e|]]; [reflexivity|].
  destruct (bufio.Flush io w1) as [w2 [e|]]; reflexivity.
Qed.

Lemma tick_closes st smp now io :
  closes (loopState.trace (tick st smp now io)) = closes (loopState.trace st) /\
  jsonArrayWriter.closed (loopState.jw (tick st smp now io)) =
  jsonArrayWriter.closed (loopState.jw st).
Proof.
  destruct smp as [[app title] | e].
  - rewrite tick_sample. destruct (loopState.last st) as [l|].
    + destruct (changed _ _); [|now split]. cbv zeta. simpl.
      rewrite closes_app, AppendSession_closed. simpl. split; [lia | reflexivity].
    + simpl. rewrite closes_app. simpl. split; [lia | reflexivity].
  - simpl. rewrite closes_app. simpl. split; [lia | reflexivity].
Qed.

Lemma signal_closes st now io :
  closes (loopState.trace (signal st now io)) = closes (loopState.trace st).
Proof.
  destruct (loopState.last st) as [l|] eqn:El.
  - rewrite (signal_open _ _ st now io l El). cbv zeta. simpl.
    rewrite closes_app. simpl. lia.
  - now rewrite (signal_none _ _ st now io El).
Qed.

(** X7: [Close] is called once, after the loop and after every append,
    and only the lines on its result follow it; while the loop polls, it
    has not been called and the file is as open as it was. *)
Theorem close_called_once_at_the_end (evs : list event) (st : loopState.t) :
  closes (loopState.trace st) = 0%nat ->
  let final := stateOf (run evs st) in
  closes (loopState.trace final) = (if signalled evs then 1 else 0)%nat /\
  (signalled evs = false ->
   jsonArrayWriter.closed (loopState.jw final) =
   jsonArrayWriter.closed (loopState.jw st)) /\
  (signalled evs = true ->
   exists tr r,
     loopState.trace final = tr ++ EClose r :: closeLines r /\
     closes tr = 0%nat).
Proof.
  revert st. induction evs as [|ev evs IH]; intros st H0.
  - cbv zeta. simpl. split; [exact H0|]. split; [reflexivity | discriminate].
  - destruct ev as [smp now io | now io ioClose].
    + change (run (Tick smp now io :: evs) st)
        with (run evs (tick st smp now io)).
      destruct (tick_closes st smp now io) as [Hc Hj].
      specialize (IH (tick st smp now io)). rewrite Hc in IH.
      destruct (IH H0) as (H1 & H2 & H3). cbv zeta. simpl signalled.
      split; [exact H1|]. split; [|exact H3].
      intros Hs. rewrite (H2 Hs). exact Hj.
    + change (stateOf (run (Signal now io ioClose :: evs) st))
        with (shutdown (signal st now io) ioClose).
      cbv zeta. simpl signalled. rewrite shutdown_eq. cbv zeta.
      simpl loopState.trace. split; [|split; [discriminate|]].
      * rewrite closes_app, signal_closes, H0. simpl.
        now rewrite closes_closeLines.
      * intros _. eexists _, _. split; [reflexivity|].
        now rewrite signal_closes.
Qed.

Lemma append_inStep_accepts (st : loopState.t) (s : session.t)
    (tr : list effect) (last : option record.t) (start : Time) (io : fault) :
  inStep M st -> accepts io = true ->
  appended tr = appended (loopState.trace st) ++ [s] ->
  inStep M {| loopState.last := last; loopState.sessStart := start;
              loopState.jw := fst (AppendSession M (loopState.jw st) s io);
              loopState.trace := tr |}.
Proof.
  intros (Hh & Hd & Hf) Hio Htr. unfold inStep. simpl.
  rewrite (AppendSession_accepts M _ s io Hh Hio). simpl.
  split; [split; reflexivity|]. split.
  - unfold diskOf at 1. simpl. rewrite Htr, Hd.
    rewrite (body_snoc M). unfold separator. rewrite Hf.
    destruct (appended (loopState.trace st)); simpl separatorAfter;
      now rewrite !StringFacts.app_assoc.
  - rewrite Htr. now destruct (appended (loopState.trace st)).
Qed.

Lemma tick_inStep_accepts st sample now io :
  inStep M st -> accepts io = true -> inStep M (tick st sample now io).
Proof.
  intros Hst Hio. destruct sample as [[app title] | e].
  - rewrite tick_sample. destruct (loopState.last st) as [l|].
    + destruct (changed _ _); [|exact Hst]. cbv zeta.
      apply append_inStep_accepts; [exact Hst | exact Hio |].
      rewrite appended_app. reflexivity.
    + destruct Hst as (Hh & Hd & Hf). unfold inStep. simpl.
      rewrite appended_app. simpl. rewrite app_nil_r. auto.
  - destruct Hst as (Hh & Hd & Hf). unfold inStep, onTick. simpl.
    rewrite appended_app. simpl. rewrite app_nil_r. auto.
Qed.

(** While the file takes the writes it is the opening token, the records
    handed to the writer in order, and the closing token once the signal
    has come, whatever [Sync] and [Close] report. *)
Lemma run_file_accepts evs : forall st,
  inStep M st -> writesAccepted evs = true ->
  diskOf (loopState.jw (stateOf (run evs st))) =
  "[" +:+ LF +:+ fileBody M (appended (loopState.trace (stateOf (run evs st))))
  +:+ (if signalled evs then closingToken else "").
Proof.
  induction evs as [|ev evs IH]; intros st Hst Hff.
  - simpl. rewrite StringFacts.app_nil_r. apply Hst.
  - destruct ev as [sample now io | now io ioClose].
    + simpl in Hff. apply andb_prop in Hff as [Hio Hff].
      change (run (Tick sample now io :: evs) st)
        with (run evs (tick st sample now io)).
      simpl signalled. apply IH; [now apply tick_inStep_accepts | exact Hff].
    + simpl in Hff. apply andb_prop in Hff as [Hio Hcl]. simpl signalled.
      change (stateOf (run (Signal now io ioClose :: evs) st))
        with (shutdown (signal st now io) ioClose).
      rewrite shutdown_appended.
      assert (Hsig : inStep M (signal st now io)).
      { destruct (loopState.last st) as [l|] eqn:El.
        - rewrite (signal_open formatRFC3339 M st now io l El). cbv zeta.
          apply append_inStep_accepts; [exact Hst | exact Hio |].
          rewrite appended_app. reflexivity.
        - now rewrite (signal_none formatRFC3339 M st now io El). }
      destruct Hsig as (Hh & Hd & _).
      rewrite shutdown_eq. cbv zeta. simpl loopState.jw.
      rewrite (Close_accepts _ ioClose Hh Hcl). unfold diskOf at 1. simpl.
      rewrite Hd. unfold closingToken. now rewrite !StringFacts.app_assoc.
Qed.
End LoopFaults.

(** The witness of X7: the scenario of the specification and the signal. *)
Lemma close_called_once_at_the_end_witness :
  closes (loopState.trace (stateOf
    (loop lowerCaseless formatNanos marshalBytes
       (editorThenBrowser ++ [Signal (mkTime 10000000000) NoFault NoFault])
       (initState freshWriter)))) = 1%nat.
Proof.
  exact (proj1 (close_called_once_at_the_end lowerCaseless formatNanos
                  marshalBytes
                  (editorThenBrowser ++
                   [Signal (mkTime 10000000000) NoFault NoFault])
                  (initState freshWriter) eq_refl)).
Defined.

(** The witness of X6: the write of the editor session is refused, then
    the editor comes back and the signal arrives. *)
Lemma write_error_is_final_witness :
  bufio.err (jsonArrayWriter.w (loopState.jw afterRefusedWrite))
  = Some ErrWrite /\
  stuck ErrWrite afterRefusedWrite
    (stateOf (loop lowerCaseless formatNanos marshalBytes
                [Tick (inl ("Editor", "main.go - proj")) (mkTime 5000000000) NoFault;
                 Signal (mkTime 6000000000) NoFault NoFault]
                afterRefusedWrite)).
Proof.
  split; [vm_compute; reflexivity|].
  apply (write_error_is_final lowerCaseless formatNanos marshalBytes
           afterRefusedWrite ErrWrite). vm_compute. reflexivity.
Defined.

(** ** From the events to a file that parses *)

Section RunReadsBack.
Variable unicodeLower : string -> string.
Variable formatRFC3339 : Time -> string.
Variable quote : string -> string.

Local Abbreviation M := (Json.Marshal quote).

(** X8: a run in which the file takes every write leaves a log that
    parses as exactly the sessions handed to the writer, in order: as it
    stands once the signal has come, and with the closing token added
    before that.  This holds when [Sync] or [Close] fail, so also for the
    records whose append was reported as an error.  The strings of the
    records are taken to survive the string encoder of [encoding/json]. *)
Theorem accepted_writes_read_back (stamp : string) (evs : list event) :
  writesAccepted evs = true ->
  exists status,
    main unicodeLower formatRFC3339 M stamp NoFault evs = Some status /\
    (Forall (sessionReadsBack quote)
       (appended (loopState.trace (stateOf status))) ->
     Json.Unmarshal
       (diskOf (loopState.jw (stateOf status)) +:+
        (if signalled evs then "" else closingToken))
     = Some (appended (loopState.trace (stateOf status)))).
Proof.
  intros Hacc. unfold main.
  destruct (newJSONArrayWriter stamp NoFault) as [j0 | e] eqn:Hopen;
    [|discriminate Hopen].
  destruct (newJSONArrayWriter_opens stamp j0 Hopen) as (Hh & Hd & Hf & _).
  eexists. split; [reflexivity|]. intros Hall.
  assert (Hst : inStep M (initState j0)).
  { split; [exact Hh|]. split; [|exact Hf]. simpl. rewrite Hd. reflexivity. }
  rewrite (run_file_accepts unicodeLower formatRFC3339 M evs _ Hst Hacc).
  pose proof (Unmarshal_file M (sessionReadsBack quote)
                (JsonFacts.Marshal_head quote)
                (fun s rest => JsonFacts.readSession_Marshal quote s rest)
                _ Hall) as Hfile.
  revert Hfile.
  generalize (fileBody M (appended (loopState.trace (stateOf
                (loop unicodeLower formatRFC3339 M evs (initState j0)))))).
  intros body Hfile. destruct (signalled evs).
  - rewrite StringFacts.app_nil_r. exact Hfile.
  - rewrite !StringFacts.app_assoc. simpl String.append at 4. exact Hfile.
Qed.
End RunReadsBack.

(** The witness of X8: both appends report a failed [Sync], [Close]
    fails, and the file still reads back. *)
Lemma accepted_writes_read_back_witness :
  exists status,
    main lowerCaseless formatNanos marshalBytes "20240101_000000" NoFault
      syncFails = Some status /\
    (Forall (sessionReadsBack Json.quoteBytes)
       (appended (loopState.trace (stateOf status))) ->
     Json.Unmarshal (diskOf (loopState.jw (stateOf status)) +:+ "")
     = Some (appended (loopState.trace (stateOf status)))).
Proof.
  apply (accepted_writes_read_back lowerCaseless formatNanos Json.quoteBytes
           "20240101_000000" syncFails).
  reflexivity.
Defined.

Example syncFails_results :
  appendResults (loopState.trace (stateOf
    (loop lowerCaseless formatNanos marshalBytes syncFails
       (initState freshWriter)))) = [Some ErrSync; Some ErrSync].
Proof. vm_compute. reflexivity. Qed.

(** ** What a record of the log looks like *)

Section RecordFacts.
Variable unicodeLower : string -> string.
Variable formatRFC3339 : Time -> string.
Variable M : session.t -> string.

Local Abbreviation run := (loop unicodeLower formatRFC3339 M).
Local Abbreviation tick := (onTick unicodeLower formatRFC3339 M).
Local Abbreviation signal := (onSignal formatRFC3339 M).
Local Abbreviation finalize := (sessionFrom formatRFC3339).







End RecordFacts.

(** ** More on the classifier *)

Section ClassifierMore.
Variable unicodeLower : string -> string.

Local Abbreviation ToLower := (GoStrings.ToLower unicodeLower).
Local Abbreviation classify := (classifyActivity unicodeLower).
Local Abbreviation Contains := GoStrings.Contains.

(** X10: a title in which [.c] occurs anywhere, as in a [.com] address or
    a [.css] or [.csv] file name, is labelled as coding in any
    application, unless the mail rule matches. *)
Theorem dot_c_title_is_coding (app title k : string) :
  Contains k ".c" = true ->
  Contains (ToLower title) k = true ->
  mailRule (ToLower app) (ToLower title) = false ->
  classify app title = codingCategory.
Proof.
  intros Hk Ht Hm.
  pose proof (TrimFacts.Contains_trans _ _ _ Ht Hk) as Hc.
  rewrite classifyActivity_firstMatch. unfold rules, firstMatch.
  rewrite Hm. destruct (codingEditorRule _ _); [reflexivity|].
  unfold codeFileRule, codeExtensions. simpl existsb. rewrite Hc.
  now rewrite !orb_true_r.
Qed.

(** X11: three tests of the classifier never decide: a title with [.cpp]
    or [.cs] has [.c], and a name with [path finder] has [finder]. *)
Theorem redundant_tests (a t : string) :
  codeFileRule a t =
    existsb (fun ext => Contains t ext)
      [".go"; ".py"; ".js"; ".ts"; ".rs"; ".c"; ".java"; ".rb"; ".kt"; ".swift"] /\
  finderRule a t = Contains a "finder".
Proof.
  split.
  - unfold codeFileRule, codeExtensions. simpl existsb.
    destruct (Contains t ".c") eqn:Ec.
    + now rewrite !orb_true_r.
    + assert (Hcpp : Contains t ".cpp" = false).
      { destruct (Contains t ".cpp") eqn:E; [|reflexivity].
        rewrite <- Ec. symmetry.
        now apply (TrimFacts.Contains_trans t ".cpp" ".c"). }
      assert (Hcs : Contains t ".cs" = false).
      { destruct (Contains t ".cs") eqn:E; [|reflexivity].
        rewrite <- Ec. symmetry.
        now apply (TrimFacts.Contains_trans t ".cs" ".c"). }
      now rewrite Hcpp, Hcs, !orb_false_r.
  - unfold finderRule.
    destruct (Contains a "path finder") eqn:E; [|apply orb_false_r].
    rewrite (TrimFacts.Contains_trans a "path finder" "finder" E eq_refl).
    reflexivity.
Qed.

(** X12: no category is dead: each one is the label of some input. *)
Theorem every_category_is_reachable (c : string) :
  In c categories ->
  exists app title, In (app, title) examplesOfCategories /\
                    classify app title = c.
Proof.
  intros H.
  repeat (destruct H as [<- | H];
          [match goal with
           | |- exists app title, _ /\ _ = ?c =>
               let rec pick l :=
                 match l with
                 | (?a, ?t) :: ?l' =>
                     first [ exists a, t; split;
                             [simpl; tauto | vm_compute; reflexivity]
                           | pick l' ]
                 end in
               let l := eval unfold examplesOfCategories in examplesOfCategories in
               pick l
           end|]).
  destruct H.
Qed.

(** X13: an application whose tab title the sampler reads, Safari or a
    Chromium browser, is labelled as mail, coding, communication or one
    of the two browser categories, whatever the title. *)
Theorem tab_title_apps_get_browser_labels (app title : string) :
  ToLower app = "safari" \/ isChromiumBrowser (ToLower app) = true ->
  In (classify app title) browserLabels.
Proof.
  intros H.
  assert (Hb : browserRule (ToLower app) (ToLower title) = true).
  { unfold browserRule. destruct H as [-> | H]; [reflexivity|].
    unfold isChromiumBrowser in H.
    repeat match type of H with
           | (_ || _) = true => apply orb_prop in H as [H | H]
           end; rewrite H; now rewrite ?orb_true_r. }
  rewrite classifyActivity_firstMatch. unfold rules, firstMatch.
  unfold browserLabels.
  destruct (mailRule _ _); [simpl; tauto|].
  destruct (codingEditorRule _ _); [simpl; tauto|].
  destruct (codeFileRule _ _); [simpl; tauto|].
  destruct (communicationRule _ _); [simpl; tauto|].
  unfold browserDocsRule. rewrite Hb.
  destruct (hasAny _ _); simpl; tauto.
Qed.
End ClassifierMore.

(** The witness of X10: a news page in Safari. *)
Lemma dot_c_title_is_coding_witness :
  classifyActivity lowerCaseless "Safari" "Example.com - News" = codingCategory.
Proof.
  apply (dot_c_title_is_coding lowerCaseless "Safari" "Example.com - News" ".com");
    reflexivity.
Defined.

(** The witness of X12. *)
Lemma every_category_is_reachable_witness :
  exists app title, In (app, title) examplesOfCategories /\
                    classifyActivity lowerCaseless app title = "ファイル操作".
Proof.
  apply (every_category_is_reachable lowerCaseless). vm_compute. tauto.
Defined.

(** The witness of X13. *)
Lemma tab_title_apps_get_browser_labels_witness :
  In (classifyActivity lowerCaseless "Google Chrome" "Budget - Sheets")
     browserLabels.
Proof.
  apply (tab_title_apps_get_browser_labels lowerCaseless).
  right. reflexivity.
Defined.

(** ** The sampler *)

Section SamplerFacts.
Variable unicodeLower : string -> string.
Variable runOSA : script -> option string.

Local Abbreviation sampler :=
  (frontmostAppAndTitleWithBrowserTabs unicodeLower runOSA).

(** X14: the sampler fails exactly when the query for the frontmost
    application fails; otherwise the name is the trimmed answer to that
    query and the title is the trimmed answer to one of the title
    queries, or empty, so that neither has white space at its ends. *)
Theorem sample_is_trimmed :
  match sampler with
  | inl (app, title) =>
      (exists out, runOSA FrontAppScript = Some out /\
                   app = GoStrings.TrimSpace out) /\
      (exists raw, title = GoStrings.TrimSpace raw /\
                   (raw = "" \/ exists q, runOSA q = Some raw /\
                                          q <> FrontAppScript)) /\
      trimmed app /\ trimmed title
  | inr e => runOSA FrontAppScript = None /\ e = ErrSample
  end.
Proof.
  unfold frontmostAppAndTitleWithBrowserTabs.
  destruct (runOSA FrontAppScript) as [out|] eqn:Ef; [|now split].
  cbv zeta.
  assert (Hgood : forall q raw,
            (raw = "" \/ (runOSA q = Some raw /\ q <> FrontAppScript)) ->
            (exists out0, Some out = Some out0 /\
                          GoStrings.TrimSpace out = GoStrings.TrimSpace out0) /\
            (exists raw0, GoStrings.TrimSpace raw = GoStrings.TrimSpace raw0 /\
               (raw0 = "" \/ exists q0, runOSA q0 = Some raw0 /\
                                        q0 <> FrontAppScript)) /\
            trimmed (GoStrings.TrimSpace out) /\
            trimmed (GoStrings.TrimSpace raw)).
  { intros q raw Hraw. split; [eauto|]. split.
    - exists raw. split; [reflexivity|]. destruct Hraw as [-> | Hq]; eauto.
    - split; apply TrimFacts.TrimSpace_trimmed. }
  assert (Hwin :
    match runOSA (WindowTitleScript (escapeOSA (GoStrings.TrimSpace out))) with
    | Some title => title
    | None => ""
    end = "" \/
    (runOSA (WindowTitleScript (escapeOSA (GoStrings.TrimSpace out))) =
     Some match runOSA (WindowTitleScript (escapeOSA (GoStrings.TrimSpace out))) with
          | Some title => title
          | None => ""
          end /\
     WindowTitleScript (escapeOSA (GoStrings.TrimSpace out)) <> FrontAppScript)).
  { destruct (runOSA (WindowTitleScript _)); [right | now left].
    split; [reflexivity | discriminate]. }
  destruct (_ =? "safari")%string.
  - destruct (runOSA SafariTabScript) as [t|] eqn:Es.
    + apply (Hgood SafariTabScript). right. split; [exact Es | discriminate].
    + destruct (isChromiumBrowser _).
      * destruct (runOSA (ChromiumTabScript _)) as [t|] eqn:Ec.
        -- eapply Hgood. right. split; [exact Ec | discriminate].
        -- eapply Hgood. exact Hwin.
      * eapply Hgood. exact Hwin.
  - destruct (isChromiumBrowser _).
    + destruct (runOSA (ChromiumTabScript _)) as [t|] eqn:Ec.
      * eapply Hgood. right. split; [exact Ec | discriminate].
      * eapply Hgood. exact Hwin.
    + eapply Hgood. exact Hwin.
Qed.
End SamplerFacts.

Example chromeTabFails_sample :
  frontmostAppAndTitleWithBrowserTabs lowerCaseless chromeTabFails
  = inl ("Google Chrome", "Inbox").
Proof. vm_compute. reflexivity. Qed.

(** ** The Slack event loop *)

Section IngestFacts.
Variable formatRFC3339 : Time -> string.
Variable formatStamp : Time -> string.
Variable encodeMessage : messageEntry.t -> string.

Local Abbreviation handle :=
  (onMessageEvent formatRFC3339 formatStamp encodeMessage).
Local Abbreviation entry := (entryOf formatRFC3339).
Local Abbreviation pathOf := (messagePath formatStamp).
Local Abbreviation save := (saveMessageJSON formatStamp encodeMessage).
Local Abbreviation step := (onSocketEvent formatRFC3339 formatStamp encodeMessage).
Local Abbreviation events := (handleEvents formatRFC3339 formatStamp encodeMessage).

(** The handler, by the outcome of the filter. *)
Lemma handle_step self logAll debug st ev now now' io :
  let st' := handle self logAll debug st ev now now' io in
  if qualifiesb self logAll ev then
    saved (slackState.strace st') =
      saved (slackState.strace st) ++ [entry ev now] /\
    slackState.files st' = fst (save (slackState.files st) (entry ev now) now' io)
  else
    saved (slackState.strace st') = saved (slackState.strace st) /\
    slackState.files st' = slackState.files st.
Proof.
  cbv zeta. unfold onMessageEvent, qualifiesb.
  destruct (MessageEvent.SubType ev =? "")%string; simpl negb; cbv iota.
  2:{ simpl. now rewrite saved_app, saved_whenDebug, app_nil_r. }
  destruct (GoStrings.TrimSpace (MessageEvent.Text ev) =? "")%string;
    simpl negb; simpl andb; cbv iota.
  { simpl. now rewrite saved_app, saved_whenDebug, app_nil_r. }
  assert (Hok :
    saved (slackState.strace
      (let (fs, r) := save (slackState.files
                             (say st (whenDebug debug
                                        (DebugMsg (MessageEvent.User ev)
                                           (MessageEvent.Channel ev)
                                           (MessageEvent.TimeStamp ev)
                                           (MessageEvent.Text ev)))))
                        (entry ev now) now' io in
       {| slackState.files := fs;
          slackState.strace :=
            slackState.strace
              (say st (whenDebug debug
                         (DebugMsg (MessageEvent.User ev)
                            (MessageEvent.Channel ev)
                            (MessageEvent.TimeStamp ev)
                            (MessageEvent.Text ev)))) ++
            ESave (entry ev now) r ::
            match r with
            | Some e => [ESlackPrint (SaveError e)]
            | None => []
            end |})) = saved (slackState.strace st) ++ [entry ev now] /\
    slackState.files
      (let (fs, r) := save (slackState.files
                             (say st (whenDebug debug
                                        (DebugMsg (MessageEvent.User ev)
                                           (MessageEvent.Channel ev)
                                           (MessageEvent.TimeStamp ev)
                                           (MessageEvent.Text ev)))))
                        (entry ev now) now' io in
       {| slackState.files := fs;
          slackState.strace :=
            slackState.strace
              (say st (whenDebug debug
                         (DebugMsg (MessageEvent.User ev)
                            (MessageEvent.Channel ev)
                            (MessageEvent.TimeStamp ev)
                            (MessageEvent.Text ev)))) ++
            ESave (entry ev now) r ::
            match r with
            | Some e => [ESlackPrint (SaveError e)]
            | None => []
            end |}) = fst (save (slackState.files st) (entry ev now) now' io)).
  { split; [exact (handle_saves _ _ _ debug st ev now now' io)|].
    simpl slackState.files at 2.
    destruct (save (slackState.files st) (entry ev now) now' io). reflexivity. }
  destruct logAll; simpl negb; simpl andb; simpl orb; cbv iota; [exact Hok|].
  destruct (MessageEvent.User ev =? self)%string; simpl negb; cbv iota;
    [exact Hok|].
  simpl. now rewrite !saved_app, !saved_whenDebug, !app_nil_r.
Qed.



Lemma handlerEffects_app t1 t2 :
  handlerEffects (t1 ++ t2) = handlerEffects t1 ++ handlerEffects t2.
Proof.
  induction t1 as [|e t1 IH]; simpl; [reflexivity|].
  destruct e; simpl; now rewrite ?IH.
Qed.

Lemma handlerEffects_handler l : handlerEffects (map EHandler l) = l.
Proof. induction l; simpl; congruence. Qed.

Section Settings.
Variable self : string.
Variable logAll debug : bool.


Lemma handlerEffects_debugLine l : handlerEffects (debugLine debug l) = [].
Proof. unfold debugLine. now destruct debug. Qed.



Lemma step_saved st evt :
  saved (handlerEffects (ingestState.itrace (step self logAll debug st evt))) =
  saved (handlerEffects (ingestState.itrace st)) ++
  entriesOf formatRFC3339 self logAll evt.
Proof.
  unfold entriesOf.
  destruct evt as [ | | | r [e|] now now' io | | ]; simpl;
    rewrite ?handlerEffects_app, ?handlerEffects_debugLine; simpl;
    rewrite ?app_nil_r; try reflexivity.
  destruct (EventsAPIEvent.isCallback e); simpl;
    [|now rewrite handlerEffects_app, !app_nil_r].
  destruct (EventsAPIEvent.InnerEvent e) as [ev|]; simpl;
    [|now rewrite handlerEffects_app, !app_nil_r].
  rewrite !handlerEffects_app, handlerEffects_handler. simpl.
  rewrite app_nil_r, saved_app.
  pose proof (handle_step self logAll debug
                {| slackState.files := ingestState.files st;
                   slackState.strace := [] |} ev now now' io) as H.
  cbv zeta in H. destruct (qualifiesb self logAll ev).
  - destruct H as [H _]. rewrite H. reflexivity.
  - destruct H as [H _]. rewrite H. reflexivity.
Qed.

(** X16: over a whole stream of socket events, the entries handed to
    [saveMessageJSON] are those of the message events that arrive in a
    callback and pass the filter, one each, in the order of arrival. *)
Theorem stream_saves_qualifying_messages (evts : list socketEvent)
    (st : ingestState.t) :
  saved (handlerEffects (ingestState.itrace (events self logAll debug evts st))) =
  saved (handlerEffects (ingestState.itrace st)) ++
  flat_map (entriesOf formatRFC3339 self logAll) evts.
Proof.
  revert st. induction evts as [|evt evts IH]; intros st.
  - simpl. now rewrite app_nil_r.
  - change (events self logAll debug (evt :: evts) st)
      with (events self logAll debug evts (step self logAll debug st evt)).
    rewrite IH, step_saved. simpl flat_map. now rewrite <- app_assoc.
Qed.

Lemma messagePath_prefix m now :
  GoStrings.HasPrefix (pathOf m now) messagePrefix = true.
Proof.
  unfold messagePath, pathJoin, messagePrefix.
  apply TrimFacts.HasPrefix_iff. eexists.
  rewrite !StringFacts.app_assoc. reflexivity.
Qed.

Lemma save_elsewhere fs m now io p :
  GoStrings.HasPrefix p messagePrefix = false ->
  fst (save fs m now io) !! p = fs !! p.
Proof.
  intros Hp.
  assert (Hne : pathOf m now <> p).
  { intros <-. now rewrite messagePath_prefix in Hp. }
  unfold saveMessageJSON. destruct io; simpl;
    try reflexivity; now apply lookup_insert_ne.
Qed.

Lemma step_elsewhere st evt p :
  GoStrings.HasPrefix p messagePrefix = false ->
  ingestState.files (step self logAll debug st evt) !! p =
  ingestState.files st !! p.
Proof.
  intros Hp.
  destruct evt as [ | | | r [e|] now now' io | | ]; simpl; try reflexivity.
  destruct (EventsAPIEvent.isCallback e); [|reflexivity].
  destruct (EventsAPIEvent.InnerEvent e) as [ev|]; [|reflexivity].
  simpl ingestState.files.
  pose proof (handle_step self logAll debug
                {| slackState.files := ingestState.files st;
                   slackState.strace := [] |} ev now now' io) as H.
  cbv zeta in H. destruct (qualifiesb self logAll ev).
  - destruct H as [_ ->]. now apply save_elsewhere.
  - destruct H as [_ ->]. reflexivity.
Qed.

(** X17: the event loop writes message files only: a path that does not
    start with the message directory and [msg_] holds after any stream of
    events, faults included, what it held before. *)
Theorem ingest_writes_message_files_only (evts : list socketEvent)
    (st : ingestState.t) (p : string) :
  GoStrings.HasPrefix p messagePrefix = false ->
  ingestState.files (events self logAll debug evts st) !! p =
  ingestState.files st !! p.
Proof.
  intros Hp. revert st. induction evts as [|evt evts IH]; intros st.
  - reflexivity.
  - change (events self logAll debug (evt :: evts) st)
      with (events self logAll debug evts (step self logAll debug st evt)).
    rewrite IH. now apply step_elsewhere.
Qed.

(** X18: two messages saved within the same millisecond into channels
    whose names [safe] maps to the same text share their file: the second
    one replaces the first. *)
Theorem same_stamp_overwrites (st : slackState.t) (ev1 ev2 : MessageEvent.t)
    (n1 t1 n2 t2 : Time) :
  qualifiesb self logAll ev1 = true ->
  qualifiesb self logAll ev2 = true ->
  formatStamp t1 = formatStamp t2 ->
  safe (MessageEvent.Channel ev1) = safe (MessageEvent.Channel ev2) ->
  slackState.files
    (handle self logAll debug
       (handle self logAll debug st ev1 n1 t1 NoFault) ev2 n2 t2 NoFault) =
  <[pathOf (entry ev2 n2) t2 := encodeMessage (entry ev2 n2)]>
    (slackState.files st) /\
  saved (slackState.strace
    (handle self logAll debug
       (handle self logAll debug st ev1 n1 t1 NoFault) ev2 n2 t2 NoFault)) =
  saved (slackState.strace st) ++ [entry ev1 n1; entry ev2 n2].
Proof.
  intros Hq1 Hq2 Hstamp Hsafe.
  pose proof (handle_step self logAll debug st ev1 n1 t1 NoFault) as H1.
  pose proof (handle_step self logAll debug
                (handle self logAll debug st ev1 n1 t1 NoFault)
                ev2 n2 t2 NoFault) as H2.
  cbv zeta in H1, H2. rewrite Hq1 in H1. rewrite Hq2 in H2.
  destruct H1 as [Hs1 Hf1]. destruct H2 as [Hs2 Hf2]. split.
  - rewrite Hf2, Hf1. simpl fst.
    assert (Hp : pathOf (entry ev1 n1) t1 = pathOf (entry ev2 n2) t2).
    { unfold messagePath, entryOf. simpl messageEntry.Title.
      now rewrite Hstamp, Hsafe. }
    rewrite Hp. apply insert_insert_eq.
  - rewrite Hs2, Hs1, <- app_assoc. reflexivity.
Qed.
End Settings.

Lemma allBytes_length_ReplaceAllByte s c d :
  String.length (GoStrings.ReplaceAllByte s c (String d "")) = String.length s.
Proof.
  induction s as [|x s IH]; simpl; [reflexivity|].
  destruct (Ascii.eqb x c); simpl; now rewrite IH.
Qed.

(** X19: the name [safe] makes of a channel has as many bytes as the
    channel and holds no space, no slash and no backslash, so that the
    file name is one path element; a channel without these bytes is left
    as it is. *)
Theorem safe_is_one_path_element (s : string) :
  allBytes safeByte (safe s) = true /\
  String.length (safe s) = String.length s /\
  (allBytes safeByte s = true -> safe s = s).
Proof.
  unfold safe. cbv zeta. split; [|split].
  - induction s as [|x s IH]; [reflexivity|].
    destruct x as [[] [] [] [] [] [] [] []];
      (simpl; first [exact IH | rewrite IH; reflexivity]).
  - now rewrite !allBytes_length_ReplaceAllByte.
  - intros Hs. induction s as [|x s IH]; [reflexivity|].
    simpl in Hs. apply andb_prop in Hs as [Hx Hs].
    destruct x as [[] [] [] [] [] [] [] []]; try discriminate Hx;
      (simpl; simpl in IH; now rewrite (IH Hs)).
Qed.

(** X20: the user ID is tested for being blank after trimming but is
    compared as it stands.  With an ID that has white space around it the
    ingest starts, and as long as not everything is captured no message
    of a user whose ID has no such white space is ever saved. *)
Theorem padded_self_id_saves_nothing (env : environ.t) (self : string)
    (debug : bool) (evts : list socketEvent) (st : ingestState.t) :
  slackSettings env = IngestOn self debug false ->
  environ.SLACK_SELF_USER_ID env <>
    GoStrings.TrimSpace (environ.SLACK_SELF_USER_ID env) ->
  (forall evt ev now, In evt evts -> messageOf evt = Some (ev, now) ->
                      trimmed (MessageEvent.User ev)) ->
  saved (handlerEffects (ingestState.itrace (events self false debug evts st))) =
  saved (handlerEffects (ingestState.itrace st)) /\
  ingestState.files (events self false debug evts st) = ingestState.files st.
Proof.
  intros Hset Hpad Husers.
  assert (Hself : self = environ.SLACK_SELF_USER_ID env).
  { unfold slackSettings in Hset. cbv zeta in Hset.
    destruct (_ || _); [discriminate|].
    destruct (_ =? "")%string; [discriminate|]. now injection Hset as <- _ _. }
  assert (Hdrop : forall evt ev now, In evt evts ->
            messageOf evt = Some (ev, now) -> qualifiesb self false ev = false).
  { intros evt ev now Hin Hm. unfold qualifiesb. simpl orb.
    destruct (String.eqb_spec (MessageEvent.User ev) self) as [Eu|];
      [|now rewrite andb_false_r].
    exfalso. apply Hpad. rewrite <- Hself, <- Eu. symmetry.
    apply TrimFacts.TrimSpace_fixed. exact (Husers evt ev now Hin Hm). }
  clear Hset Hpad Husers Hself. revert st.
  induction evts as [|evt evts IH]; intros st; [now split|].
  change (events self false debug (evt :: evts) st)
    with (events self false debug evts (step self false debug st evt)).
  destruct (IH (fun e ev now Hin => Hdrop e ev now (or_intror Hin))
              (step self false debug st evt)) as [-> ->].
  assert (Hevt : forall ev now, messageOf evt = Some (ev, now) ->
                                qualifiesb self false ev = false)
    by (intros ev now; apply Hdrop; now left).
  split.
  - rewrite step_saved. unfold entriesOf.
    destruct (messageOf evt) as [[ev now]|]; [|apply app_nil_r].
    rewrite (Hevt ev now eq_refl). apply app_nil_r.
  - destruct evt as [ | | | r [e|] now now' io | | ]; simpl; try reflexivity.
    simpl in Hevt.
    destruct (EventsAPIEvent.isCallback e); [|reflexivity].
    destruct (EventsAPIEvent.InnerEvent e) as [ev|]; [|reflexivity].
    simpl ingestState.files.
    pose proof (handle_step self false debug
                  {| slackState.files := ingestState.files st;
                     slackState.strace := [] |} ev now now' io) as H.
    cbv zeta in H. rewrite (Hevt ev now eq_refl) in H. now destruct H as [_ ->].
Qed.
End IngestFacts.

(** The witness of X17: the log of the sessions is out of reach. *)
Lemma ingest_writes_message_files_only_witness :
  ingestState.files
    (handleEvents formatNanos formatNanos textOnly "U123" false false
       [SockHello; ownEnvelope]
       {| ingestState.files := ∅; ingestState.itrace := [] |})
  !! pathJoin logDir "activity_20240101_000000.json" = None.
Proof.
  rewrite (ingest_writes_message_files_only formatNanos formatNanos textOnly
             "U123" false false [SockHello; ownEnvelope]
             {| ingestState.files := ∅; ingestState.itrace := [] |}
             (pathJoin logDir "activity_20240101_000000.json")).
  - reflexivity.
  - vm_compute. reflexivity.
Defined.

(** The witness of X18: a message and the reply to it, in channels whose
    names differ in the separator only, saved in the same millisecond. *)
Lemma same_stamp_overwrites_witness :
  slackState.files
    (onMessageEvent formatNanos formatNanos textOnly "U123" false false
       (onMessageEvent formatNanos formatNanos textOnly "U123" false false
          noFiles ownMessage (mkTime 5) (mkTime 6) NoFault)
       ownReply (mkTime 6) (mkTime 6) NoFault) =
  <[pathJoin messageDir "msg_6ns_C42-ops.json" := "rolled back"]> ∅.
Proof.
  assert (Hq1 : qualifiesb "U123" false ownMessage = true)
    by (vm_compute; reflexivity).
  assert (Hq2 : qualifiesb "U123" false ownReply = true)
    by (vm_compute; reflexivity).
  assert (Hsafe : safe (MessageEvent.Channel ownMessage) =
                  safe (MessageEvent.Channel ownReply))
    by (vm_compute; reflexivity).
  exact (proj1 (same_stamp_overwrites formatNanos formatNanos textOnly "U123"
                  false false noFiles ownMessage ownReply (mkTime 5) (mkTime 6)
                  (mkTime 6) (mkTime 6) Hq1 Hq2 eq_refl Hsafe)).
Defined.

(** The witness of X19: a channel name without bytes to replace. *)
Lemma safe_is_one_path_element_witness : safe "C42" = "C42".
Proof.
  apply (proj2 (proj2 (safe_is_one_path_element "C42"))). reflexivity.
Defined.

(** The witness of X20: a line feed after the ID, as a shell script
    easily leaves one. *)
Lemma padded_self_id_saves_nothing_witness :
  startSlackIngest formatNanos formatNanos textOnly paddedEnv
    [SockHello; ownEnvelope] ∅ <> None /\
  ingestState.files
    (handleEvents formatNanos formatNanos textOnly ("U123" +:+ LF) false false
       [SockHello; ownEnvelope]
       {| ingestState.files := ∅; ingestState.itrace := [] |}) = ∅.
Proof.
  split; [vm_compute; discriminate|].
  apply (padded_self_id_saves_nothing formatNanos formatNanos textOnly
           paddedEnv ("U123" +:+ LF) false [SockHello; ownEnvelope]
           {| ingestState.files := ∅; ingestState.itrace := [] |}).
  - vm_compute. reflexivity.
  - vm_compute. discriminate.
  - intros evt ev now [<- | [<- | []]] Hm; [discriminate Hm|].
    injection Hm as <- _. vm_compute. split; reflexivity.
Defined.

(** ** The first version: the rows of the CSV file *)

Module ver1Facts.
Import ver1.

Section Rows.
Variable unicodeLower : string -> string.
Variable formatRFC3339 : Time -> string.

Local Abbreviation run := (loop unicodeLower formatRFC3339).
Local Abbreviation tick := (onTick unicodeLower formatRFC3339).
Local Abbreviation stop := (onStop formatRFC3339).
Local Abbreviation rowsOf := (ver1.rowsOf formatRFC3339).

Lemma rows_app t1 t2 : rows (t1 ++ t2) = rows t1 ++ rows t2.
Proof.
  induction t1 as [|e t1 IH]; simpl; [reflexivity|].
  destruct e; simpl; now rewrite ?IH.
Qed.

Lemma truncate_length s max : (String.length (truncate s max) <= max)%nat.
Proof.
  unfold truncate. destruct (Nat.leb_spec (String.length s) max) as [H | H];
    [exact H|].
  clear H. revert s. induction max as [|n IH]; intros s; [simpl; lia|].
  destruct s as [|c s]; simpl; [lia|]. specialize (IH s). lia.
Qed.

Lemma truncate_prefix s max :
  exists rest, s = truncate s max +:+ rest.
Proof.
  unfold truncate. destruct (String.length s <=? max)%nat.
  - exists "". now rewrite StringFacts.app_nil_r.
  - exists (GoStrings.dropBytes max s). symmetry. apply TrimFacts.take_drop.
Qed.

Local Abbreviation paired := (ver1.paired formatRFC3339).

Lemma rowsOf_end closed c now :
  rowsOf closed (Some c) ++ [endRow formatRFC3339 c now] =
  rowsOf (closed ++ [(c, now)]) None.
Proof.
  unfold ver1.rowsOf. rewrite flat_map_app. simpl.
  now rewrite <- !app_assoc, app_nil_r.
Qed.

Lemma endIfChanged_paired st appName category now ioEnd :
  paired st -> paired (endIfChanged formatRFC3339 st appName category now ioEnd).
Proof.
  intros (closed & Hr & Hf & Hc). unfold endIfChanged.
  destruct (loopState.current st) as [c|] eqn:Ec; [|exists closed; now rewrite Ec].
  destruct (_ || _); [|exists closed; now rewrite Ec].
  exists (closed ++ [(c, now)]). simpl. split; [|split].
  - rewrite rows_app, Hr. simpl rows.
    replace (rows match ioEnd with Some _ => [ELog (OutEndError false)] | None => [] end)
      with (@nil (list string)) by (now destruct ioEnd).
    apply rowsOf_end.
  - apply Forall_app. split; [exact Hf|]. constructor; [|constructor].
    now apply Hc.
  - discriminate.
Qed.

Lemma startIfNone_paired st appName bundleID title url category now ioStart :
  paired st ->
  paired (startIfNone formatRFC3339 st appName bundleID title url category
            now ioStart).
Proof.
  intros (closed & Hr & Hf & Hc). unfold startIfNone.
  destruct (loopState.current st) as [c|] eqn:Ec; [exists closed; now rewrite Ec|].
  cbv zeta. exists closed. simpl. split; [|split].
  - rewrite rows_app, Hr. unfold ver1.rowsOf. simpl. now rewrite app_nil_r.
  - exact Hf.
  - intros c [= <-]. split; apply truncate_length.
Qed.

Lemma tick_paired st front tab now ioEnd ioStart :
  paired st -> paired (tick st front tab now ioEnd ioStart).
Proof.
  intros Hst.
  assert (Hlog : forall l, paired (logged st [ELog l])).
  { intros l. destruct Hst as (closed & Hr & Hf & Hc). exists closed. simpl.
    rewrite rows_app, Hr. simpl. now rewrite app_nil_r. }
  unfold onTick. destruct front as [[appName bundleID]|]; [|apply Hlog].
  destruct (appName =? "")%string; [apply Hlog|].
  destruct (if hasTabQuery appName then _ else _) as [title url].
  now apply startIfNone_paired, endIfChanged_paired.
Qed.

(** X21: in the first version the rows handed to the CSV writer come in
    pairs: for each session its start row and then its end row, with the
    same application, bundle, title, URL and category, before the start
    row of the next session.  While the loop runs the last start row may
    be open; after the stop signal none is.  Titles hold at most 500
    bytes and URLs at most 1000. *)
Theorem rows_pair_up (evs : list event) :
  exists closed,
    rows (loopState.trace (run evs initState)) =
    rowsOf closed (if stopped evs then None
                   else loopState.current (run evs initState)) /\
    Forall (fun p => fits (fst p)) closed.
Proof.
  assert (Hgen : forall st, paired st ->
            exists closed,
              rows (loopState.trace (run evs st)) =
              rowsOf closed (if stopped evs then None
                             else loopState.current (run evs st)) /\
              Forall (fun p => fits (fst p)) closed).
  { induction evs as [|ev evs IH]; intros st Hst.
    - destruct Hst as (closed & Hr & Hf & _). now exists closed.
    - destruct ev as [front tab now ioEnd ioStart | now ioEnd].
      + apply (IH (tick st front tab now ioEnd ioStart)).
        now apply tick_paired.
      + destruct Hst as (closed & Hr & Hf & Hc). simpl. unfold onStop.
        destruct (loopState.current st) as [c|] eqn:Ec.
        * exists (closed ++ [(c, now)]). split.
          -- simpl. rewrite !rows_app, Hr. simpl rows.
             replace (rows match ioEnd with
                           | Some _ => [ELog (OutEndError true)]
                           | None => []
                           end)
               with (@nil (list string)) by (now destruct ioEnd).
             rewrite app_nil_r. apply rowsOf_end.
          -- apply Forall_app. split; [exact Hf|].
             constructor; [now apply Hc | constructor].
        * exists closed. split; [|exact Hf]. simpl.
          rewrite rows_app, Hr. simpl. now rewrite app_nil_r. }
  apply Hgen. exists []. split; [reflexivity|]. split; [constructor|].
  discriminate.
Qed.

(** X22: in the first version a change of the title or of the URL alone
    does not end the session: as long as the application and the category
    stay, a tick writes no row and changes nothing. *)
Theorem same_app_and_category_keeps_the_session (st : loopState.t)
    (c : Session.t) (bundleID : string) (tab : option (string * string))
    (now : Time) (ioEnd ioStart : option error) :
  loopState.current st = Some c ->
  Session.App c <> "" ->
  (let (title, url) :=
     if hasTabQuery (Session.App c)
     then match tab with Some p => p | None => ("", "") end
     else ("", "") in
   classify unicodeLower (Session.App c) bundleID title url) =
  Session.Category c ->
  tick st (Some (Session.App c, bundleID)) tab now ioEnd ioStart = st.
Proof.
  intros Ec Hne Hcat. unfold onTick.
  destruct (String.eqb_spec (Session.App c) "") as [E | _]; [contradiction|].
  destruct (if hasTabQuery (Session.App c) then _ else _) as [title url].
  cbv zeta. rewrite Hcat. unfold endIfChanged, startIfNone.
  rewrite Ec, !String.eqb_refl. simpl. now rewrite Ec.
Qed.
End Rows.
End ver1Facts.

Example editorThenSafari_rows :
  ver1.rows (ver1.loopState.trace
    (ver1.loop lowerCaseless formatNanos ver1.editorThenSafari ver1.initState)) =
  [["0ns"; "start"; "Code"; "com.microsoft.VSCode"; ""; ""; "プログラムの制作"];
   ["5000000000ns"; "end"; "Code"; "com.microsoft.VSCode"; ""; "";
    "プログラムの制作"];
   ["5000000000ns"; "start"; "Safari"; "com.apple.Safari"; "News";
    "https://example.org/a"; "ブラウジング"];
   ["15000000000ns"; "end"; "Safari"; "com.apple.Safari"; "News";
    "https://example.org/a"; "ブラウジング"]].
Proof. vm_compute. reflexivity. Qed.

(** The witness of X22: Safari moves to another page of the same
    category. *)
Lemma same_app_and_category_keeps_the_session_witness :
  let st := ver1.loop lowerCaseless formatNanos
              [ver1.Tick (Some ("Safari", "com.apple.Safari"))
                 (Some ("News", "https://example.org/a")) (mkTime 0) None None]
              ver1.initState in
  ver1.onTick lowerCaseless formatNanos st
    (Some ("Safari", "com.apple.Safari"))
    (Some ("Weather", "https://example.org/b")) (mkTime 5000000000) None None
  = st.
Proof.
  intros st.
  apply (ver1Facts.same_app_and_category_keeps_the_session lowerCaseless
           formatNanos st
           {| ver1.Session.App := "Safari";
              ver1.Session.BundleID := "com.apple.Safari";
              ver1.Session.Title := "News";
              ver1.Session.URL := "https://example.org/a";
              ver1.Session.Category := "ブラウジング";
              ver1.Session.Start := mkTime 0 |}).
  - vm_compute. reflexivity.
  - discriminate.
  - vm_compute. reflexivity.
Defined.

(** ** The durations add up *)

Section Durations.
Variable unicodeLower : string -> string.
Variable formatRFC3339 : Time -> string.
Variable M : session.t -> string.

Local Abbreviation run := (loop unicodeLower formatRFC3339 M).
Local Abbreviation tick := (onTick unicodeLower formatRFC3339 M).
Local Abbreviation signal := (onSignal formatRFC3339 M).
Local Abbreviation finalize := (sessionFrom formatRFC3339).

Lemma DurationSec_nearest r start end_ :
  0 <= nanos end_ - nanos start < roundLimit ->
  session.DurationSec (finalize r start end_) =
  nearestSecond (nanos end_ - nanos start).
Proof.
  intros Hd. rewrite DurationSec_sessionFrom. cbv zeta.
  destruct (Sub_cases end_ start) as [[Hr ->] | [[Hr ->] | [Hr ->]]].
  - rewrite GoTimeFacts.Round_Second_nonneg by exact Hd.
    assert (Hn : 0 <= nearestSecond (nanos end_ - nanos start))
      by (unfold nearestSecond; Z.to_euclidean_division_equations; lia).
    destruct (Z.ltb_spec
                (nearestSecond (nanos end_ - nanos start) * GoTime.Second) 0);
      [unfold GoTime.Second in *; lia|].
    apply Z.quot_mul. discriminate.
  - unfold GoTime.maxInt64, roundLimit in *. lia.
  - unfold GoTime.minInt64 in *. lia.
Qed.

Lemma totalSeconds_app l1 l2 :
  totalSeconds (l1 ++ l2) = totalSeconds l1 + totalSeconds l2.
Proof. induction l1 as [|s l1 IH]; simpl; [reflexivity | rewrite IH; lia]. Qed.

(** What the induction keeps: a session is open, and the records reach
    from [t0] to its start up to half a second each. *)
Lemma durations_step (t0 hi : Z) (evs : list event) :
  hi - t0 < roundLimit ->
  forall (st : loopState.t) (lo : Z),
    loopState.last st <> None ->
    t0 <= nanos (loopState.sessStart st) <= lo ->
    clockRuns lo hi evs ->
    Z.abs (totalSeconds (appended (loopState.trace st)) * GoTime.Second -
           (nanos (loopState.sessStart st) - t0)) * 2 <=
    GoTime.Second * Z.of_nat (length (appended (loopState.trace st))) ->
    let final := stateOf (run evs st) in
    Z.abs (totalSeconds (appended (loopState.trace final)) * GoTime.Second -
           (reached evs final - t0)) * 2 <=
    GoTime.Second * Z.of_nat (length (appended (loopState.trace final))).
Proof.
  intros Hhi. induction evs as [|ev evs IH]; intros st lo Hopen Hlo Hclock Hinv.
  - exact Hinv.
  - assert (Hrec : forall l now,
              lo <= nanos now <= hi ->
              Z.abs ((totalSeconds (appended (loopState.trace st)) +
                      session.DurationSec
                        (finalize l (loopState.sessStart st) now)) *
                     GoTime.Second - (nanos now - t0)) * 2 <=
              GoTime.Second *
              Z.of_nat (S (length (appended (loopState.trace st))))).
    { intros l now Hnow.
      rewrite DurationSec_nearest by lia.
      pose proof (GoTimeFacts.nearestSecond_nearest
                    (nanos now - nanos (loopState.sessStart st))) as Hn.
      unfold GoTime.Second in *. lia. }
    destruct ev as [[[app title] | e] now io | now io ioClose].
    + destruct Hclock as [Hnow Hclock].
      change (run (Tick (inl (app, title)) now io :: evs) st)
        with (run evs (tick st (inl (app, title)) now io)).
      change (reached (Tick (inl (app, title)) now io :: evs))
        with (reached evs).
      rewrite tick_sample. destruct (loopState.last st) as [l|] eqn:El;
        [|contradiction].
      destruct (changed _ _).
      * cbv zeta. apply (IH _ (nanos now)); simpl.
        -- discriminate.
        -- lia.
        -- exact Hclock.
        -- rewrite appended_app. cbn [appended].
           rewrite totalSeconds_app, last_length. cbn [totalSeconds].
           rewrite Z.add_0_r. exact (Hrec l now Hnow).
      * apply (IH st (nanos now)); [now rewrite El | lia | exact Hclock |
                                    exact Hinv].
    + change (run (Tick (inr e) now io :: evs) st)
        with (run evs (tick st (inr e) now io)).
      change (reached (Tick (inr e) now io :: evs)) with (reached evs).
      apply (IH _ lo); simpl; try assumption.
      rewrite appended_app. simpl. now rewrite app_nil_r.
    + change (stateOf (run (Signal now io ioClose :: evs) st))
        with (shutdown (signal st now io) ioClose).
      cbv zeta. unfold reached. simpl stopTime. cbv iota.
      rewrite shutdown_appended, signal_appended.
      destruct (loopState.last st) as [l|] eqn:El; [|contradiction].
      rewrite totalSeconds_app, last_length. cbn [totalSeconds].
      rewrite Z.add_0_r. exact (Hrec l now Hclock).
Qed.

(** X23: the durations in the log add up to the time they cover.  From
    the start of an open session, while the clock does not go back and
    stays within what a [time.Duration] can round, the sum of the
    durations of the records differs from the time between that start and
    the signal (or the start of the session still open) by at most half a
    second for each record. *)
Theorem durations_add_up (st : loopState.t) (hi : Z) (evs : list event) :
  loopState.last st <> None ->
  appended (loopState.trace st) = [] ->
  clockRuns (nanos (loopState.sessStart st)) hi evs ->
  hi - nanos (loopState.sessStart st) < roundLimit ->
  let final := stateOf (run evs st) in
  let recs := appended (loopState.trace final) in
  Z.abs (totalSeconds recs * GoTime.Second -
         (reached evs final - nanos (loopState.sessStart st))) * 2 <=
  GoTime.Second * Z.of_nat (length recs).
Proof.
  intros Hopen Hnone Hclock Hhi.
  apply (durations_step (nanos (loopState.sessStart st)) hi evs Hhi st
           (nanos (loopState.sessStart st)) Hopen); [lia | exact Hclock |].
  rewrite Hnone. simpl. lia.
Qed.
End Durations.

(** The witness of X23: the editor from 0 s, the browser at 3.4 s, the
    editor again at 5 s, the signal at 9.3 s: 3 + 2 + 4 seconds for 9.3. *)
Lemma durations_add_up_witness :
  let evs := [Tick (inl browserSample) (mkTime 3400000000) NoFault;
              Tick (inl ("Editor", "main.go - proj")) (mkTime 5000000000) NoFault;
              Signal (mkTime 9300000000) NoFault NoFault] in
  let recs := appended (loopState.trace (stateOf
                (loop lowerCaseless formatNanos marshalBytes evs editorOpen))) in
  Z.abs (totalSeconds recs * GoTime.Second - (9300000000 - 0)) * 2 <=
  GoTime.Second * Z.of_nat (length recs).
Proof.
  intros evs recs.
  apply (durations_add_up lowerCaseless formatNanos marshalBytes editorOpen
           10000000000 evs).
  - discriminate.
  - reflexivity.
  - simpl. lia.
  - vm_compute. reflexivity.
Defined.

Example durations_of_the_witness :
  map session.DurationSec
    (appended (loopState.trace (stateOf
       (loop lowerCaseless formatNanos marshalBytes
          [Tick (inl browserSample) (mkTime 3400000000) NoFault;
           Tick (inl ("Editor", "main.go - proj")) (mkTime 5000000000) NoFault;
           Signal (mkTime 9300000000) NoFault NoFault] editorOpen))))
  = [3; 2; 4].
Proof. vm_compute. reflexivity. Qed.
